(** * Aquaform: a shallow embedding of the reconciliation engine

  The repository ships two near-identical programs, [aquaform.py]
  (Supabase / Postgres over REST) and [aquaformmy.py] (MySQL).  Their data
  model, diff engine, dependency graph, planner and reconciler are the
  same text up to the connection fields of a table, the connect step of
  the MySQL client and the direction in which the delete loops walk the
  topological order.  The engine is therefore embedded once, over a
  [Dialect] that records exactly those differences, and instantiated
  twice (modules [Aquaform] and [Aquaformmy]).

  Python dictionaries are insertion ordered and the code depends on that
  order (diff output, plan order, regrouping by table name), so they are
  modelled as association lists with Python's update discipline.  The
  sets of the depth-first search are [gset]s, the process environment is
  a [gmap]. *)

From Stdlib Require Import Ascii.
From stdpp Require Import base option list sets gmap strings relations.

Set Warnings "-clear-no-such-hyp".

(** ** Python dictionaries *)

Section PyDict.
Context {K V : Type} `{EqDecision K}.

Definition dict_keys (d : list (K * V)) : list K := d.*1.
Definition dict_values (d : list (K * V)) : list V := d.*2.

(** [d.get(k)] *)
Fixpoint dict_get (k : K) (d : list (K * V)) : option V :=
  match d with
  | [] => None
  | (k', v) :: d' => if decide (k = k') then Some v else dict_get k d'
  end.

(** [k in d] *)
Definition dict_mem (k : K) (d : list (K * V)) : bool :=
  bool_decide (is_Some (dict_get k d)).

(** [d[k] = v]: an existing key keeps its position, a new one goes last. *)
Fixpoint dict_set (k : K) (v : V) (d : list (K * V)) : list (K * V) :=
  match d with
  | [] => [(k, v)]
  | (k', v') :: d' =>
      if decide (k = k') then (k, v) :: d' else (k', v') :: dict_set k v d'
  end.

(** [del d[k]] guarded by [k in d] *)
Fixpoint dict_del (k : K) (d : list (K * V)) : list (K * V) :=
  match d with
  | [] => []
  | (k', v') :: d' =>
      if decide (k = k') then d' else (k', v') :: dict_del k d'
  end.

(** [{key(x): x for x in l}] *)
Definition dict_by (key : V -> K) (l : list V) : list (K * V) :=
  foldl (fun d x => dict_set (key x) x d) [] l.

End PyDict.

(** ** What differs between [aquaform.py] and [aquaformmy.py] *)

(** [conn] holds the connection fields of a [Table] ([url], [key] for
  Supabase; [host], [user], [password], [database] for MySQL), [connD] the
  same keys of a YAML / JSON descriptor, each possibly missing.
  [conn_from_dict] reads them the way [data['url']] does: a missing key
  raises [KeyError], modelled as [None]. *)
Class Dialect := {
conn : Type;
connD : Type;
conn_from_dict : connD -> option conn;
conn_to_dict : conn -> connD;
(** the descriptor carries none of the connection keys *)
connD_empty : connD -> bool;
(** the [type] discriminator the loader accepts *)
resource_type : string;
(** variable resolution before a client is built (MySQL: none) *)
resolve_conn : gmap string string -> conn -> conn;
(** the client has a [connect()] step that may fail (MySQL only) *)
connects : bool;
(** the delete loops walk [reversed(table_order)] (MySQL only) *)
reversed_deletes : bool;
conn_from_to_dict : forall c, conn_from_dict (conn_to_dict c) = Some c;
conn_to_dict_nonempty : forall c, connD_empty (conn_to_dict c) = false
}.

(** ** Data model *)

(** A YAML scalar-or-sequence field ([columns], [reference_columns],
  [primary_key]). *)
Inductive one_or_many := One (s : string) | Many (l : list string).

(** [x if isinstance(x, list) else [x]] *)
Definition as_list (v : one_or_many) : list string :=
match v with One s => [s] | Many l => l end.

Record Column := {
col_name : string;
col_type : string;
col_nullable : bool;
col_default : option string
}.

Record ForeignKey := {
fk_columns : list string;
fk_reference_table : string;
fk_reference_columns : list string;
fk_on_delete : string;
fk_on_update : string
}.

(** Descriptors: the dictionaries read from YAML and kept in the state
  file.  A field is [None] when the key is absent. *)
Record ColumnD := {
cd_name : option string;
cd_type : option string;
cd_nullable : option bool;
cd_default : option string
}.

Record ForeignKeyD := {
fd_columns : option one_or_many;
fd_reference_table : option string;
fd_reference_columns : option one_or_many;
fd_on_delete : option string;
fd_on_update : option string
}.

Global Instance one_or_many_eq_dec : EqDecision one_or_many.
Proof. solve_decision. Defined.
Global Instance Column_eq_dec : EqDecision Column.
Proof. solve_decision. Defined.
Global Instance ForeignKey_eq_dec : EqDecision ForeignKey.
Proof. solve_decision. Defined.

(** [Column.from_dict] *)
Definition Column_from_dict (data : ColumnD) : option Column :=
name ← cd_name data;
type ← cd_type data;
nullable ← cd_nullable data;
Some {| col_name := name; col_type := type; col_nullable := nullable;
        col_default := cd_default data |}.

(** [Column.to_dict]: the [default] key is written only when not [None]. *)
Definition Column_to_dict (self : Column) : ColumnD :=
{| cd_name := Some (col_name self); cd_type := Some (col_type self);
   cd_nullable := Some (col_nullable self); cd_default := col_default self |}.

(** [Column.equals] *)
Definition Column_equals (self other : Column) : bool :=
if bool_decide (col_name self ≠ col_name other) then false
else if bool_decide (col_type self ≠ col_type other) then false
else if bool_decide (col_nullable self ≠ col_nullable other) then false
else if bool_decide (col_default self ≠ col_default other) then false
else true.

(** [ForeignKey.from_dict] *)
Definition ForeignKey_from_dict (data : ForeignKeyD) : option ForeignKey :=
columns ← fd_columns data;
reference_table ← fd_reference_table data;
reference_columns ← fd_reference_columns data;
Some {| fk_columns := as_list columns;
        fk_reference_table := reference_table;
        fk_reference_columns := as_list reference_columns;
        fk_on_delete := default "NO ACTION" (fd_on_delete data);
        fk_on_update := default "NO ACTION" (fd_on_update data) |}.

(** [ForeignKey.to_dict] *)
Definition ForeignKey_to_dict (self : ForeignKey) : ForeignKeyD :=
{| fd_columns := Some (Many (fk_columns self));
   fd_reference_table := Some (fk_reference_table self);
   fd_reference_columns := Some (Many (fk_reference_columns self));
   fd_on_delete := Some (fk_on_delete self);
   fd_on_update := Some (fk_on_update self) |}.

(** [ForeignKey.equals] *)
Definition ForeignKey_equals (self other : ForeignKey) : bool :=
if bool_decide (fk_columns self ≠ fk_columns other) then false
else if bool_decide (fk_reference_table self ≠ fk_reference_table other) then false
else if bool_decide (fk_reference_columns self ≠ fk_reference_columns other) then false
else if bool_decide (fk_on_delete self ≠ fk_on_delete other) then false
else if bool_decide (fk_on_update self ≠ fk_on_update other) then false
else true.

(** Truth value of a Python list or of [None]. *)
Definition truthy {A} (l : option (list A)) : bool :=
match l with Some (_ :: _) => true | _ => false end.

(** The delta computed by [_compare_tables]: a dictionary with six
  optional keys. *)
Record Changes := {
add_columns : option (list Column);
modify_columns : option (list (Column * Column));
remove_columns : option (list Column);
modify_primary_key : option (list string * list string);
add_foreign_keys : option (list ForeignKey);
remove_foreign_keys : option (list ForeignKey)
}.

Global Instance Changes_eq_dec : EqDecision Changes.
Proof. solve_decision. Defined.

Definition no_changes : Changes :=
{| add_columns := None; modify_columns := None; remove_columns := None;
   modify_primary_key := None; add_foreign_keys := None;
   remove_foreign_keys := None |}.

(** [bool(changes)]: the dictionary has a key, that is, it is not [{}]. *)
Definition Changes_nonempty (c : Changes) : bool :=
bool_decide (c ≠ no_changes).

Definition set_add_columns (v : list Column) (c : Changes) : Changes :=
{| add_columns := Some v; modify_columns := modify_columns c;
   remove_columns := remove_columns c; modify_primary_key := modify_primary_key c;
   add_foreign_keys := add_foreign_keys c; remove_foreign_keys := remove_foreign_keys c |}.
Definition set_modify_columns (v : list (Column * Column)) (c : Changes) : Changes :=
{| add_columns := add_columns c; modify_columns := Some v;
   remove_columns := remove_columns c; modify_primary_key := modify_primary_key c;
   add_foreign_keys := add_foreign_keys c; remove_foreign_keys := remove_foreign_keys c |}.
Definition set_remove_columns (v : list Column) (c : Changes) : Changes :=
{| add_columns := add_columns c; modify_columns := modify_columns c;
   remove_columns := Some v; modify_primary_key := modify_primary_key c;
   add_foreign_keys := add_foreign_keys c; remove_foreign_keys := remove_foreign_keys c |}.
Definition set_modify_primary_key (v : list string * list string) (c : Changes) : Changes :=
{| add_columns := add_columns c; modify_columns := modify_columns c;
   remove_columns := remove_columns c; modify_primary_key := Some v;
   add_foreign_keys := add_foreign_keys c; remove_foreign_keys := remove_foreign_keys c |}.
Definition set_add_foreign_keys (v : list ForeignKey) (c : Changes) : Changes :=
{| add_columns := add_columns c; modify_columns := modify_columns c;
   remove_columns := remove_columns c; modify_primary_key := modify_primary_key c;
   add_foreign_keys := Some v; remove_foreign_keys := remove_foreign_keys c |}.
Definition set_remove_foreign_keys (v : list ForeignKey) (c : Changes) : Changes :=
{| add_columns := add_columns c; modify_columns := modify_columns c;
   remove_columns := remove_columns c; modify_primary_key := modify_primary_key c;
   add_foreign_keys := add_foreign_keys c; remove_foreign_keys := Some v |}.

Section Engine.
Context `{D : Dialect}.

Record Table := {
  t_name : string;
  t_conn : conn;
  t_columns : list Column;
  t_primary_key : list string;
  t_foreign_keys : option (list ForeignKey);
  t_resource_id : string
}.

(** A resource descriptor.  [d_type] is the [type] discriminator of the
    YAML file; [Table.to_dict] does not write it. *)
Record TableD := {
  d_type : option string;
  d_name : option string;
  d_conn : connD;
  d_columns : option (list ColumnD);
  d_primary_key : option one_or_many;
  d_foreign_keys : option (list ForeignKeyD)
}.

(** [bool(descriptor)]: the dictionary is not empty. *)
Definition TableD_nonempty (d : TableD) : bool :=
  bool_decide (is_Some (d_type d)) || bool_decide (is_Some (d_name d))
  || negb (connD_empty (d_conn d)) || bool_decide (is_Some (d_columns d))
  || bool_decide (is_Some (d_primary_key d))
  || bool_decide (is_Some (d_foreign_keys d)).

(** [Table.from_dict]; [None] stands for the [KeyError] of a missing key. *)
Definition Table_from_dict (resource_id : string) (data : TableD) : option Table :=
  columns ← (d_columns data ≫= mapM Column_from_dict);
  foreign_keys ←
    match d_foreign_keys data with
    | None => Some None
    | Some fks => Some <$> mapM ForeignKey_from_dict fks
    end;
  name ← d_name data;
  c ← conn_from_dict (d_conn data);
  primary_key ← d_primary_key data;
  Some {| t_name := name; t_conn := c; t_columns := columns;
          t_primary_key := as_list primary_key;
          t_foreign_keys := foreign_keys;
          t_resource_id := resource_id |}.

(** [Table.to_dict]: [foreign_keys] is written only when the list is
    neither [None] nor empty. *)
Definition Table_to_dict (self : Table) : TableD :=
  {| d_type := None;
     d_name := Some (t_name self);
     d_conn := conn_to_dict (t_conn self);
     d_columns := Some (Column_to_dict <$> t_columns self);
     d_primary_key := Some (Many (t_primary_key self));
     d_foreign_keys :=
       if truthy (t_foreign_keys self)
       then Some (ForeignKey_to_dict <$> default [] (t_foreign_keys self))
       else None |}.

(** ** Diff engine *)

(** The modified-foreign-key loop of [_compare_tables]: each changed key
    is appended to [remove_foreign_keys] (old version) and to
    [add_foreign_keys] (new version), creating the entry when missing. *)
Definition modified_fk_step (old_fks_map : list (list string * ForeignKey))
    (changes : Changes) (item : list string * ForeignKey) : Changes :=
  let '(cols, new_fk) := item in
  match dict_get cols old_fks_map with
  | Some old_fk =>
      if negb (ForeignKey_equals new_fk old_fk) then
        let changes :=
          set_remove_foreign_keys
            (default [] (remove_foreign_keys changes) ++ [old_fk]) changes in
        set_add_foreign_keys
          (default [] (add_foreign_keys changes) ++ [new_fk]) changes
      else changes
  | None => changes
  end.

Definition _compare_tables (old_table new_table : Table) : Changes :=
  let changes := no_changes in
  let old_columns_map := dict_by col_name (t_columns old_table) in
  let new_columns_map := dict_by col_name (t_columns new_table) in
  (* added columns *)
  let add_columns :=
    omap (fun '(col_name, col) =>
            if dict_mem col_name old_columns_map then None else Some col)
         new_columns_map in
  let changes :=
    if bool_decide (add_columns ≠ []) then set_add_columns add_columns changes
    else changes in
  (* modified columns *)
  let modify_columns :=
    omap (fun '(col_name, new_col) =>
            match dict_get col_name old_columns_map with
            | Some old_col =>
                if negb (Column_equals new_col old_col)
                then Some (old_col, new_col) else None
            | None => None
            end)
         new_columns_map in
  let changes :=
    if bool_decide (modify_columns ≠ []) then set_modify_columns modify_columns changes
    else changes in
  (* removed columns *)
  let remove_columns :=
    omap (fun '(col_name, col) =>
            if dict_mem col_name new_columns_map then None else Some col)
         old_columns_map in
  let changes :=
    if bool_decide (remove_columns ≠ []) then set_remove_columns remove_columns changes
    else changes in
  (* primary key *)
  let changes :=
    if bool_decide (t_primary_key old_table ≠ t_primary_key new_table)
    then set_modify_primary_key (t_primary_key old_table, t_primary_key new_table) changes
    else changes in
  (* foreign keys *)
  if truthy (t_foreign_keys old_table) || truthy (t_foreign_keys new_table) then
    let old_fks := default [] (t_foreign_keys old_table) in
    let new_fks := default [] (t_foreign_keys new_table) in
    let old_fks_map := dict_by fk_columns old_fks in
    let new_fks_map := dict_by fk_columns new_fks in
    let add_fks :=
      omap (fun '(cols, fk) =>
              if dict_mem cols old_fks_map then None else Some fk)
           new_fks_map in
    let changes :=
      if bool_decide (add_fks ≠ []) then set_add_foreign_keys add_fks changes
      else changes in
    let changes := foldl (modified_fk_step old_fks_map) changes new_fks_map in
    let remove_fks :=
      omap (fun '(cols, fk) =>
              if dict_mem cols new_fks_map then None else Some fk)
           old_fks_map in
    if bool_decide (remove_fks ≠ []) then
      set_remove_foreign_keys
        (default [] (remove_foreign_keys changes) ++ remove_fks) changes
    else changes
  else changes.

(** ** Dependency graph and topological sort *)

(** [graph[name].append(x)] *)
Definition graph_append (name x : string) (graph : list (string * list string))
    : list (string * list string) :=
  dict_set name (default [] (dict_get name graph) ++ [x]) graph.

(** [_build_dependency_graph]: [tables] is [self.tables], the desired
    tables by resource id.  A table depends on the tables its foreign
    keys reference; references to names outside the graph add no edge. *)
Definition _build_dependency_graph (tables : list (string * Table))
    : list (string * list string) :=
  let graph :=
    foldl (fun g table => dict_set (t_name table) [] g) [] (dict_values tables) in
  let graph :=
    foldl (fun g table =>
             if dict_mem (t_name table) g then g else dict_set (t_name table) [] g)
          graph (dict_values tables) in
  foldl (fun g table =>
           if truthy (t_foreign_keys table) then
             foldl (fun g fk =>
                      if dict_mem (fk_reference_table fk) g
                      then graph_append (t_name table) (fk_reference_table fk) g
                      else g)
                   g (default [] (t_foreign_keys table))
           else g)
        graph (dict_values tables).

(** The three variables the closure [visit] shares. *)
Record dfs := {
  result : list string;
  visited : gset string;
  temp_visited : gset string
}.

(** [graph.get(node, [])] *)
Definition neighbors (graph : list (string * list string)) (node : string)
    : list string :=
  default [] (dict_get node graph).

(** The recursive closure [visit].  Python recursion is rendered with
    fuel; [None] means the fuel ran out, which [visit_total] below shows
    never happens for the fuel [_topological_sort] supplies. *)
Fixpoint visit (fuel : nat) (graph : list (string * list string))
    (node : string) (s : dfs) : option dfs :=
  match fuel with
  | 0 => None
  | S fuel =>
      if bool_decide (node ∈ visited s) then Some s
      else if bool_decide (node ∈ temp_visited s) then Some s (* cycle: warn *)
      else
        let s := {| result := result s; visited := visited s;
                    temp_visited := {[node]} ∪ temp_visited s |} in
        s ← foldl (fun acc neighbor => acc ≫= visit fuel graph neighbor)
                  (Some s) (neighbors graph node);
        Some {| result := result s ++ [node];
                visited := {[node]} ∪ visited s;
                temp_visited := temp_visited s ∖ {[node]} |}
  end.

(** Every node the search can reach: the keys and all listed neighbours. *)
Definition graph_nodes (graph : list (string * list string)) : gset string :=
  list_to_set (dict_keys graph ++ concat (dict_values graph)).

Definition dfs_init : dfs :=
  {| result := []; visited := ∅; temp_visited := ∅ |}.

(** The outer loop of [_topological_sort] over [list(graph.keys())]. *)
Definition visit_all (fuel : nat) (graph : list (string * list string))
    (nodes : list string) (s : dfs) : option dfs :=
  foldl (fun acc node =>
           s ← acc;
           if bool_decide (node ∈ visited s) then Some s
           else visit fuel graph node s)
        (Some s) nodes.

Definition _topological_sort (graph : list (string * list string))
    : option (list string) :=
  result <$> visit_all (S (size (graph_nodes graph))) graph (dict_keys graph) dfs_init.

(** ** Configuration loader *)

(** [_load_config] after the YAML document has been parsed: [config] is
    [None] for a document that is empty or has no [resources] mapping.
    A descriptor of another [type] is ignored; one with a missing key
    ([KeyError]) is reported and skipped. *)
Definition _load_config (config : option (list (string * TableD)))
    (tables : list (string * Table)) : list (string * Table) :=
  match config with
  | None => tables
  | Some resources =>
      foldl (fun tables '(resource_id, resource) =>
               if bool_decide (d_type resource = Some resource_type) then
                 match Table_from_dict resource_id resource with
                 | Some table => dict_set resource_id table tables
                 | None => tables
                 end
               else tables)
            tables resources
  end.

(** ** State store and backend *)

(** What a client is asked to do. *)
Inductive op :=
| Connect
| CreateTable (table : Table)
| AlterTable (table : Table) (changes : Changes)
| DropTable (table_name : string).

(** What a run does to the outside world: client calls (for which
    resource, over which connection, with which answer) and writes of
    the state file. *)
Inductive event :=
| Call (resource_id : string) (c : conn) (o : op) (ok : bool)
| SaveState (resources : list (string * TableD)).

(** [AquaformState.state['resources']] together with the trace of the run. *)
Record World := {
  st_resources : list (string * TableD);
  log : list event
}.

(** [get_resource] *)
Definition get_resource (resource_id : string) (w : World) : option TableD :=
  dict_get resource_id (st_resources w).

(** The truth test callers apply to a looked-up descriptor
    ([if not current_state]): [None] and the empty dictionary are false. *)
Definition present (current_state : option TableD) : option TableD :=
  match current_state with
  | Some d => if TableD_nonempty d then Some d else None
  | None => None
  end.

Definition add_resource (resource_id : string) (resource : TableD) (w : World) : World :=
  {| st_resources := dict_set resource_id resource (st_resources w); log := log w |}.

Definition remove_resource (resource_id : string) (w : World) : World :=
  {| st_resources := dict_del resource_id (st_resources w); log := log w |}.

Definition save_state (w : World) : World :=
  {| st_resources := st_resources w; log := log w ++ [SaveState (st_resources w)] |}.

(** The database: it answers a call knowing everything that happened
    before in the run. *)
Context (backend : list event -> conn -> op -> bool).
Context (environ : gmap string string).

Definition call (resource_id : string) (c : conn) (o : op) (w : World) : bool * World :=
  let ok := backend (log w) c o in
  (ok, {| st_resources := st_resources w;
          log := log w ++ [Call resource_id c o ok] |}).

(** Build a client and run one DDL operation.  The MySQL client connects
    first and the caller gives up on the resource when that fails. *)
Definition with_client (resource_id : string) (c : conn) (o : op) (w : World)
    : bool * World :=
  if connects then
    let '(ok, w) := call resource_id c Connect w in
    if ok then call resource_id c o w else (false, w)
  else call resource_id c o w.

(** ** Planner *)

Inductive change :=
| Create (table : Table)
| Update (table : Table) (changes : Changes)
| Delete (table_name : string).

Definition plan_desired (w : World) (acc : option (list (string * change)))
    (item : string * Table) : option (list (string * change)) :=
  let '(resource_id, table) := item in
  changes ← acc;
  match present (get_resource resource_id w) with
  | None => Some (dict_set resource_id (Create table) changes)
  | Some current_state =>
      old ← Table_from_dict resource_id current_state;
      let table_changes := _compare_tables old table in
      if Changes_nonempty table_changes
      then Some (dict_set resource_id (Update table table_changes) changes)
      else Some changes
  end.

Definition plan_recorded (tables : list (string * Table)) (w : World)
    (changes : list (string * change)) (resource_id : string)
    : list (string * change) :=
  if dict_mem resource_id tables then changes
  else match present (get_resource resource_id w) with
       | Some current_state =>
           dict_set resource_id
             (Delete (default resource_id (d_name current_state))) changes
       | None => changes
       end.

(** [plan]: the dependency report it prints first has no effect on the
    result and is left out.  [None] is the [KeyError] of a recorded
    descriptor that lacks a key. *)
Definition plan (tables : list (string * Table)) (w : World)
    : option (list (string * change)) :=
  changes ← foldl (plan_desired w) (Some []) tables;
  Some (foldl (plan_recorded tables w) changes (dict_keys (st_resources w))).

(** ** Reconciler *)

(** The three dictionaries [apply] regroups the plan into, keyed by
    table name. *)
Record actions := {
  create_actions : list (string * (string * change));
  update_actions : list (string * (string * change));
  delete_actions : list (string * (string * change))
}.

Definition group_step (a : actions) (item : string * change) : actions :=
  let '(resource_id, change_data) := item in
  match change_data with
  | Create table =>
      {| create_actions :=
           dict_set (t_name table) (resource_id, change_data) (create_actions a);
         update_actions := update_actions a;
         delete_actions := delete_actions a |}
  | Update table _ =>
      {| create_actions := create_actions a;
         update_actions :=
           dict_set (t_name table) (resource_id, change_data) (update_actions a);
         delete_actions := delete_actions a |}
  | Delete table_name =>
      {| create_actions := create_actions a;
         update_actions := update_actions a;
         delete_actions :=
           dict_set table_name (resource_id, change_data) (delete_actions a) |}
  end.

Definition group (changes : list (string * change)) : actions :=
  foldl group_step
    {| create_actions := []; update_actions := []; delete_actions := [] |} changes.

(** One iteration of the update loop.  [None] on the right of a match is
    the exception Python would raise on an entry of the wrong shape. *)
Definition update_step (acts : actions) (acc : option World) (table_name : string)
    : option World :=
  w ← acc;
  match dict_get table_name (update_actions acts) with
  | None => Some w
  | Some (resource_id, Update table table_changes) =>
      let c := resolve_conn environ (t_conn table) in
      let '(ok, w) := with_client resource_id c (AlterTable table table_changes) w in
      Some (if ok then add_resource resource_id (Table_to_dict table) w else w)
  | Some _ => None
  end.

Definition create_step (acts : actions) (acc : option World) (table_name : string)
    : option World :=
  w ← acc;
  match dict_get table_name (create_actions acts) with
  | None => Some w
  | Some (resource_id, Create table) =>
      let c := resolve_conn environ (t_conn table) in
      let '(ok, w) := with_client resource_id c (CreateTable table) w in
      Some (if ok then add_resource resource_id (Table_to_dict table) w else w)
  | Some _ => None
  end.

Definition delete_step (acts : actions) (acc : option World) (table_name : string)
    : option World :=
  w ← acc;
  match dict_get table_name (delete_actions acts) with
  | None => Some w
  | Some (resource_id, _) =>
      current_state ← get_resource resource_id w;
      c ← conn_from_dict (d_conn current_state);
      let c := resolve_conn environ c in
      let '(ok, w) := with_client resource_id c (DropTable table_name) w in
      Some (if ok then remove_resource resource_id w else w)
  end.

(** The order in which the delete loops walk the tables. *)
Definition delete_order (table_order : list string) : list string :=
  if reversed_deletes then reverse table_order else table_order.

Definition apply (tables : list (string * Table)) (w : World) : option World :=
  changes ← plan tables w;
  match changes with
  | [] => Some w
  | _ =>
      table_order ← _topological_sort (_build_dependency_graph tables);
      let acts := group changes in
      w ← foldl (update_step acts) (Some w) table_order;
      w ← foldl (create_step acts) (Some w) table_order;
      w ← foldl (delete_step acts) (Some w) (delete_order table_order);
      Some (save_state w)
  end.

(** [table_name_to_resource] of [destroy]: desired tables first, then the
    recorded ones whose name is not taken yet. *)
Definition table_name_to_resource (tables : list (string * Table)) (w : World)
    : list (string * string) :=
  let m := foldl (fun m '(resource_id, table) => dict_set (t_name table) resource_id m)
                 [] tables in
  foldl (fun m '(resource_id, state_data) =>
           match d_name state_data with
           | Some table_name =>
               if bool_decide (table_name ≠ "") && negb (dict_mem table_name m)
               then dict_set table_name resource_id m else m
           | None => m
           end)
        m (st_resources w).

Definition destroy_step (names : list (string * string)) (acc : option World)
    (table_name : string) : option World :=
  w ← acc;
  match dict_get table_name names with
  | None => Some w
  | Some resource_id =>
      if bool_decide (resource_id = "") then Some w
      else match present (get_resource resource_id w) with
           | None => Some w
           | Some state_data =>
               c ← conn_from_dict (d_conn state_data);
               let c := resolve_conn environ c in
               let '(ok, w) := with_client resource_id c (DropTable table_name) w in
               Some (if ok then remove_resource resource_id w else w)
           end
  end.

Definition destroy_one (resource_id : string) (w : World) : option World :=
  match present (get_resource resource_id w) with
  | None => Some w
  | Some current_state =>
      let table_name := default resource_id (d_name current_state) in
      c ← conn_from_dict (d_conn current_state);
      let c := resolve_conn environ c in
      let '(ok, w) := with_client resource_id c (DropTable table_name) w in
      Some (if ok then save_state (remove_resource resource_id w) else w)
  end.

Definition destroy_all (tables : list (string * Table)) (w : World) : option World :=
  table_order ← _topological_sort (_build_dependency_graph tables);
  let names := table_name_to_resource tables w in
  match names with
  | [] => Some w
  | _ =>
      w ← foldl (destroy_step names) (Some w) (delete_order table_order);
      Some (save_state w)
  end.

(** [destroy(resource_id)]; an empty string is as false as [None]. *)
Definition destroy (tables : list (string * Table)) (resource_id : option string)
    (w : World) : option World :=
  match resource_id with
  | Some rid => if bool_decide (rid = "") then destroy_all tables w
                else destroy_one rid w
  | None => destroy_all tables w
  end.

End Engine.

(** ** Python string operations used by the resolver *)

(** [s.startswith(prefix)] *)
Definition startswith (prefix s : string) : bool := String.prefix prefix s.

(** [s.endswith(suffix)]: some tail of [s] is [suffix]. *)
Fixpoint endswith (suffix s : string) : bool :=
if bool_decide (s = suffix) then true
else match s with
     | EmptyString => false
     | String _ s' => endswith suffix s'
     end.

(** [s[i:-j]] for literal [i] and [j]: empty when [s] is too short. *)
Definition str_slice (i j : nat) (s : string) : string :=
String.substring i (String.length s - i - j) s.

(** ** The Supabase program, [aquaform.py] *)

Module Aquaform.

Record Conn := { url : string; key : string }.
Record ConnD := { d_url : option string; d_key : option string }.

(** [Aquaform._resolve_vars]; [environ] is [os.environ]. *)
Definition _resolve_vars (environ : gmap string string) (url key : string)
    : string * string :=
  let url :=
    if startswith "${" url && endswith "}" url then
      let env_var := str_slice 2 1 url in
      default url (environ !! env_var)
    else url in
  let key :=
    if startswith "${" key && endswith "}" key then
      let env_var := str_slice 2 1 key in
      default key (environ !! env_var)
    else key in
  (url, key).

Definition Conn_from_dict (data : ConnD) : option Conn :=
  u ← d_url data; k ← d_key data; Some {| url := u; key := k |}.

Definition Conn_to_dict (c : Conn) : ConnD :=
  {| d_url := Some (url c); d_key := Some (key c) |}.

Definition ConnD_empty (data : ConnD) : bool :=
  negb (bool_decide (is_Some (d_url data)) || bool_decide (is_Some (d_key data))).

(** The client of a resource is built from the resolved pair. *)
#[export] Instance dialect : Dialect := {|
  conn := Conn;
  connD := ConnD;
  conn_from_dict := Conn_from_dict;
  conn_to_dict := Conn_to_dict;
  connD_empty := ConnD_empty;
  resource_type := "supabase_table";
  resolve_conn := fun environ c =>
    let '(u, k) := _resolve_vars environ (url c) (key c) in
    {| url := u; key := k |};
  connects := false;
  reversed_deletes := false;
  conn_from_to_dict := fun c => match c with Build_Conn _ _ => eq_refl end;
  conn_to_dict_nonempty := fun _ => eq_refl
|}.

End Aquaform.

(** ** The MySQL program, [aquaformmy.py] *)

Module Aquaformmy.

Record Conn := { host : string; user : string; password : string; database : string }.
Record ConnD := {
  d_host : option string; d_user : option string;
  d_password : option string; d_database : option string
}.

Definition Conn_from_dict (data : ConnD) : option Conn :=
  h ← d_host data; u ← d_user data; p ← d_password data; db ← d_database data;
  Some {| host := h; user := u; password := p; database := db |}.

Definition Conn_to_dict (c : Conn) : ConnD :=
  {| d_host := Some (host c); d_user := Some (user c);
     d_password := Some (password c); d_database := Some (database c) |}.

Definition ConnD_empty (data : ConnD) : bool :=
  negb (bool_decide (is_Some (d_host data)) || bool_decide (is_Some (d_user data))
        || bool_decide (is_Some (d_password data))
        || bool_decide (is_Some (d_database data))).

(** This program passes the connection fields to the client as they
    are, connects before each operation and walks the delete loops over
    [reversed(table_order)]. *)
#[export] Instance dialect : Dialect := {|
  conn := Conn;
  connD := ConnD;
  conn_from_dict := Conn_from_dict;
  conn_to_dict := Conn_to_dict;
  connD_empty := ConnD_empty;
  resource_type := "mysql_table";
  resolve_conn := fun _ c => c;
  connects := true;
  reversed_deletes := true;
  conn_from_to_dict := fun c => match c with Build_Conn _ _ _ _ => eq_refl end;
  conn_to_dict_nonempty := fun _ => eq_refl
|}.

End Aquaformmy.

(** ** Lookup by table name and loading of several files *)

Section Registry.
Context `{D : Dialect}.

(** [_get_table_by_name]: the first desired resource, in insertion order,
    whose table carries the name. *)
Fixpoint _get_table_by_name (tables : list (string * Table)) (name : string)
    : option (string * Table) :=
  match tables with
  | [] => None
  | (resource_id, table) :: tables =>
      if bool_decide (t_name table = name) then Some (resource_id, table)
      else _get_table_by_name tables name
  end.


End Registry.

(** ** SQL text *)

(** The double quote and the newline of the string literals. *)
Definition dq : string := String "034"%char EmptyString.
Definition nl : string := String "010"%char EmptyString.

(** [sep.join(l)] *)
Fixpoint str_join (sep : string) (l : list string) : string :=
match l with
| [] => ""
| [x] => x
| x :: l' => x +:+ sep +:+ str_join sep l'
end.

(** The statements of [SupabaseClient] and [MySQLClient] that this section
  builds differ in the identifier quote [q] only: a double quote for
  Postgres, a backtick for MySQL. *)
Section SqlText.
Context `{D : Dialect}.
Context (q : string).

(** The two lines that complete a column definition:
    [if not col.nullable: sql += ' NOT NULL'] and
    [if col.default is not None: sql += f" DEFAULT {col.default}"]. *)
Definition with_constraints (col : Column) (sql : string) : string :=
  let sql := if negb (col_nullable col) then sql +:+ " NOT NULL" else sql in
  match col_default col with
  | Some d => sql +:+ " DEFAULT " +:+ d
  | None => sql
  end.

(** The two lines that append the referential actions other than
    [NO ACTION]. *)
Definition with_actions (fk : ForeignKey) (sql : string) : string :=
  let sql :=
    if bool_decide (fk_on_delete fk ≠ "NO ACTION")
    then sql +:+ " ON DELETE " +:+ fk_on_delete fk else sql in
  if bool_decide (fk_on_update fk ≠ "NO ACTION")
  then sql +:+ " ON UPDATE " +:+ fk_on_update fk else sql.

(** [f"{table_name}_{fk.columns[0]}_fkey"]: an empty column list raises
    [IndexError], rendered as [None]. *)
Definition constraint_name (table_name : string) (fk : ForeignKey) : option string :=
  first ← head (fk_columns fk);
  Some (table_name +:+ "_" +:+ first +:+ "_fkey").

Definition _generate_create_table_sql (table : Table) : string :=
  let columns_sql :=
    (fun col =>
       with_constraints col (q +:+ col_name col +:+ q +:+ " " +:+ col_type col))
    <$> t_columns table in
  let pk_columns := str_join (q +:+ ", " +:+ q) (t_primary_key table) in
  let columns_sql :=
    columns_sql ++ ["PRIMARY KEY (" +:+ q +:+ pk_columns +:+ q +:+ ")"] in
  let columns_sql :=
    if truthy (t_foreign_keys table) then
      columns_sql ++
      ((fun fk =>
          let fk_cols := str_join (q +:+ ", " +:+ q) (fk_columns fk) in
          let ref_columns := str_join (q +:+ ", " +:+ q) (fk_reference_columns fk) in
          with_actions fk
            ("FOREIGN KEY (" +:+ q +:+ fk_cols +:+ q +:+ ") REFERENCES " +:+ q
             +:+ fk_reference_table fk +:+ q +:+ " (" +:+ q +:+ ref_columns +:+ q
             +:+ ")"))
       <$> default [] (t_foreign_keys table))
    else columns_sql in
  "CREATE TABLE IF NOT EXISTS " +:+ q +:+ t_name table +:+ q +:+ " (" +:+ nl +:+ "  "
  +:+ str_join ("," +:+ nl +:+ "  ") columns_sql +:+ nl +:+ ")".

Definition _generate_add_foreign_key_sql (table_name : string) (fk : ForeignKey)
    : option string :=
  let fk_cols := str_join (q +:+ ", " +:+ q) (fk_columns fk) in
  let ref_columns := str_join (q +:+ ", " +:+ q) (fk_reference_columns fk) in
  name ← constraint_name table_name fk;
  let sql :=
    "ALTER TABLE " +:+ q +:+ table_name +:+ q +:+ " ADD CONSTRAINT " +:+ q +:+ name
    +:+ q +:+ " " in
  let sql :=
    sql +:+ "FOREIGN KEY (" +:+ q +:+ fk_cols +:+ q +:+ ") REFERENCES " +:+ q
    +:+ fk_reference_table fk +:+ q +:+ " (" +:+ q +:+ ref_columns +:+ q +:+ ")" in
  Some (with_actions fk sql).

End SqlText.

(** ** The clients *)

(** A client method on its way: the flag it will return and the
  statements the database has received.  The flag is [None] once an
  exception was raised; the [except] clause of every method turns that
  into [False]. *)
Definition progress : Type := option bool * list string.

(** What a method returns, with the statements sent. *)
Definition finish (st : progress) : bool * list string := (default false st.1, st.2).

(** [SupabaseClient] of [aquaform.py].  The database is [server]: its
  answer to a statement, given the statements it received before. *)
Module SupabaseClient.
Section Client.
Context (server : list string -> string -> bool).

(** [_execute_sql]: [True] unless the request fails, the reply carries
    [success: false] or anything raises. *)
Definition _execute_sql (sql : string) (sent : list string) : bool * list string :=
  (server sent sql, sent ++ [sql]).

(** [success = success and self._execute_sql(sql)]: nothing is sent once
    [success] is [False]. *)
Definition and_execute (sql : string) (st : progress) : progress :=
  match st with
  | (Some true, sent) => let '(ok, sent) := _execute_sql sql sent in (Some ok, sent)
  | _ => st
  end.

(** The same for a statement whose text may raise while it is built. *)
Definition build_and_execute (sql : option string) (st : progress) : progress :=
  match st.1, sql with
  | None, _ => st
  | Some _, None => (None, st.2)
  | Some _, Some sql => and_execute sql st
  end.

Definition create_table (table : Table (D := Aquaform.dialect)) (sent : list string)
    : bool * list string :=
  _execute_sql (_generate_create_table_sql dq table) sent.

Definition drop_table (table_name : string) (sent : list string) : bool * list string :=
  _execute_sql ("DROP TABLE IF EXISTS " +:+ dq +:+ table_name +:+ dq +:+ " CASCADE") sent.

Definition alter_table (table : Table (D := Aquaform.dialect)) (changes : Changes)
    (sent : list string) : bool * list string :=
  let name := t_name table in
  let st : progress := (Some true, sent) in
  (* add columns *)
  let st :=
    foldl (fun st col =>
             and_execute
               (with_constraints col
                  ("ALTER TABLE " +:+ dq +:+ name +:+ dq +:+ " ADD COLUMN " +:+ dq
                   +:+ col_name col +:+ dq +:+ " " +:+ col_type col)) st)
          st (default [] (add_columns changes)) in
  (* modify columns *)
  let st :=
    foldl (fun st '(old_col, new_col) =>
             let alter :=
               "ALTER TABLE " +:+ dq +:+ name +:+ dq +:+ " ALTER COLUMN " +:+ dq
               +:+ col_name new_col +:+ dq in
             let st :=
               if bool_decide (col_type old_col ≠ col_type new_col)
               then and_execute (alter +:+ " TYPE " +:+ col_type new_col) st
               else st in
             let st :=
               if bool_decide (col_nullable old_col ≠ col_nullable new_col)
               then and_execute
                      (if col_nullable new_col then alter +:+ " DROP NOT NULL"
                       else alter +:+ " SET NOT NULL") st
               else st in
             if bool_decide (col_default old_col ≠ col_default new_col)
             then and_execute
                    (match col_default new_col with
                     | None => alter +:+ " DROP DEFAULT"
                     | Some d => alter +:+ " SET DEFAULT " +:+ d
                     end) st
             else st)
          st (default [] (modify_columns changes)) in
  (* remove columns *)
  let st :=
    foldl (fun st col =>
             and_execute
               ("ALTER TABLE " +:+ dq +:+ name +:+ dq +:+ " DROP COLUMN " +:+ dq
                +:+ col_name col +:+ dq) st)
          st (default [] (remove_columns changes)) in
  (* primary key *)
  let st :=
    match modify_primary_key changes with
    | Some (old_pk, new_pk) =>
        let st :=
          and_execute
            ("ALTER TABLE " +:+ dq +:+ name +:+ dq +:+ " DROP CONSTRAINT IF EXISTS "
             +:+ dq +:+ name +:+ "_pkey" +:+ dq) st in
        let pk_columns := str_join (dq +:+ ", " +:+ dq) new_pk in
        and_execute
          ("ALTER TABLE " +:+ dq +:+ name +:+ dq +:+ " ADD PRIMARY KEY (" +:+ dq
           +:+ pk_columns +:+ dq +:+ ")") st
    | None => st
    end in
  (* add foreign keys *)
  let st :=
    foldl (fun st fk => build_and_execute (_generate_add_foreign_key_sql dq name fk) st)
          st (default [] (add_foreign_keys changes)) in
  (* remove foreign keys *)
  let st :=
    foldl (fun st fk =>
             build_and_execute
               (constraint ← constraint_name name fk;
                Some ("ALTER TABLE " +:+ dq +:+ name +:+ dq
                      +:+ " DROP CONSTRAINT IF EXISTS " +:+ dq +:+ constraint +:+ dq))
               st)
          st (default [] (remove_foreign_keys changes)) in
  finish st.

End Client.
End SupabaseClient.

(** [MySQLClient] of [aquaformmy.py], once connected.  [cursor.execute]
  raises when the database refuses a statement; [commit] and the cursor
  bookkeeping send no statement and are left out. *)
Module MySQLClient.
Section Client.
Context (server : list string -> string -> bool).

(** [cursor.execute(sql)] *)
Definition execute (sql : string) (st : progress) : progress :=
  match st with
  | (Some success, sent) =>
      (if server sent sql then Some success else None, sent ++ [sql])
  | (None, _) => st
  end.

(** The same for a statement whose text may raise while it is built. *)
Definition build_and_execute (sql : option string) (st : progress) : progress :=
  match st.1, sql with
  | None, _ => st
  | Some _, None => (None, st.2)
  | Some _, Some sql => execute sql st
  end.

Definition create_table (table : Table (D := Aquaformmy.dialect)) (sent : list string)
    : bool * list string :=
  finish (execute (_generate_create_table_sql "`" table) (Some true, sent)).

Definition drop_table (table_name : string) (sent : list string) : bool * list string :=
  finish (execute ("DROP TABLE IF EXISTS `" +:+ table_name +:+ "`") (Some true, sent)).

Definition alter_table (table : Table (D := Aquaformmy.dialect)) (changes : Changes)
    (sent : list string) : bool * list string :=
  let name := t_name table in
  let st : progress := (Some true, sent) in
  (* add columns *)
  let st :=
    foldl (fun st col =>
             execute
               (with_constraints col
                  ("ALTER TABLE `" +:+ name +:+ "` ADD COLUMN `" +:+ col_name col
                   +:+ "` " +:+ col_type col)) st)
          st (default [] (add_columns changes)) in
  (* modify columns *)
  let st :=
    foldl (fun st '(old_col, new_col) =>
             execute
               (with_constraints new_col
                  ("ALTER TABLE `" +:+ name +:+ "` MODIFY COLUMN `" +:+ col_name new_col
                   +:+ "` " +:+ col_type new_col)) st)
          st (default [] (modify_columns changes)) in
  (* remove columns *)
  let st :=
    foldl (fun st col =>
             execute
               ("ALTER TABLE `" +:+ name +:+ "` DROP COLUMN `" +:+ col_name col +:+ "`")
               st)
          st (default [] (remove_columns changes)) in
  (* primary key *)
  let st :=
    match modify_primary_key changes with
    | Some (old_pk, new_pk) =>
        let st := execute ("ALTER TABLE `" +:+ name +:+ "` DROP PRIMARY KEY") st in
        let pk_columns := str_join "`, `" new_pk in
        execute
          ("ALTER TABLE `" +:+ name +:+ "` ADD PRIMARY KEY (`" +:+ pk_columns +:+ "`)")
          st
    | None => st
    end in
  (* add foreign keys *)
  let st :=
    foldl (fun st fk => build_and_execute (_generate_add_foreign_key_sql "`" name fk) st)
          st (default [] (add_foreign_keys changes)) in
  (* remove foreign keys *)
  let st :=
    foldl (fun st fk =>
             build_and_execute
               (constraint ← constraint_name name fk;
                Some ("ALTER TABLE `" +:+ name +:+ "` DROP FOREIGN KEY `" +:+ constraint
                      +:+ "`"))
               st)
          st (default [] (remove_foreign_keys changes)) in
  finish st.

End Client.
End MySQLClient.

(** ** The model file *)

(** The dictionary [Aquaform.model] of [aquaform.py] dumps as YAML.  The
  two helpers spell one column entry and one foreign-key entry of the
  literal. *)
Definition model_column (name type : string) (nullable : bool)
  (default : option string) : ColumnD :=
{| cd_name := Some name; cd_type := Some type; cd_nullable := Some nullable;
   cd_default := default |}.

Definition model_foreign_key (column reference_table : string) : ForeignKeyD :=
{| fd_columns := Some (Many [column]);
   fd_reference_table := Some reference_table;
   fd_reference_columns := Some (Many ["id"]);
   fd_on_delete := Some "CASCADE"; fd_on_update := Some "CASCADE" |}.

Definition model_conn : connD (Dialect := Aquaform.dialect) :=
{| Aquaform.d_url := Some "${SUPABASE_URL}"; Aquaform.d_key := Some "${SUPABASE_KEY}" |}.

Definition model_table (name : string) (columns : list ColumnD)
  (foreign_keys : option (list ForeignKeyD)) : TableD (D := Aquaform.dialect) :=
@Build_TableD Aquaform.dialect (Some "supabase_table") (Some name) model_conn
  (Some columns) (Some (Many ["id"])) foreign_keys.

Definition model : list (string * TableD (D := Aquaform.dialect)) :=
[ ("users_table",
   model_table "users"
     [ model_column "id" "UUID" false (Some "gen_random_uuid()");
       model_column "email" "VARCHAR(255)" false None;
       model_column "full_name" "VARCHAR(100)" true None;
       model_column "status" "VARCHAR(20)" false (Some "'active'");
       model_column "created_at" "TIMESTAMPTZ" false (Some "CURRENT_TIMESTAMP");
       model_column "updated_at" "TIMESTAMPTZ" false (Some "CURRENT_TIMESTAMP") ]
     None);
  ("posts_table",
   model_table "posts"
     [ model_column "id" "UUID" false (Some "gen_random_uuid()");
       model_column "user_id" "UUID" false None;
       model_column "title" "VARCHAR(200)" false None;
       model_column "content" "TEXT" true None;
       model_column "status" "VARCHAR(20)" false (Some "'draft'");
       model_column "metadata" "JSONB" true None;
       model_column "tags" "VARCHAR[]" true None;
       model_column "published_at" "TIMESTAMPTZ" true None;
       model_column "created_at" "TIMESTAMPTZ" false (Some "CURRENT_TIMESTAMP") ]
     (Some [model_foreign_key "user_id" "users"]));
  ("comments_table",
   model_table "comments"
     [ model_column "id" "UUID" false (Some "gen_random_uuid()");
       model_column "post_id" "UUID" false None;
       model_column "user_id" "UUID" false None;
       model_column "content" "TEXT" false None;
       model_column "created_at" "TIMESTAMPTZ" false (Some "CURRENT_TIMESTAMP") ]
     (Some [model_foreign_key "post_id" "posts"; model_foreign_key "user_id" "users"])) ].

(** * Properties *)

(** ** Dictionaries *)

Section PyDictFacts.
Context {K V : Type} `{EqDecision K}.
Implicit Types (d : list (K * V)) (k : K) (v : V).

Lemma dict_get_None k d : dict_get k d = None <-> k ∉ dict_keys d.
Proof.
  unfold dict_keys. induction d as [|[k' v] d IH]; simpl.
  - split; [intros _; apply not_elem_of_nil | done].
  - rewrite not_elem_of_cons. destruct (decide (k = k')) as [->|Hne].
    + split; [done | intros [? _]; done].
    + rewrite IH. split; [by split | by intros [_ ?]].
Qed.

Lemma dict_get_Some_elem k v d : dict_get k d = Some v -> (k, v) ∈ d.
Proof.
  induction d as [|[k' v'] d IH]; simpl; [done|].
  destruct (decide (k = k')) as [->|]; intros E.
  - injection E as ->. left.
  - right. auto.
Qed.

Lemma dict_get_is_Some k d : is_Some (dict_get k d) <-> k ∈ dict_keys d.
Proof.
  destruct (dict_get k d) eqn:E.
  - split; [|eauto]. intros _. apply dict_get_Some_elem in E.
    unfold dict_keys. apply list_elem_of_fmap. by exists (k, v).
  - apply dict_get_None in E. split; [intros [? ?]; done | done].
Qed.

Lemma elem_of_dict_get k v d :
  NoDup (dict_keys d) -> (k, v) ∈ d -> dict_get k d = Some v.
Proof.
  unfold dict_keys. induction d as [|[k' v'] d IH]; simpl.
  - intros _ Hin. by apply elem_of_nil in Hin.
  - intros Hnd Hin. apply NoDup_cons in Hnd as [Hk Hnd].
    apply elem_of_cons in Hin as [E|Hin].
    + injection E as -> ->. by rewrite decide_True.
    + destruct (decide (k = k')) as [->|]; [|auto].
      exfalso. apply Hk. apply list_elem_of_fmap. by exists (k', v).
Qed.

Lemma dict_mem_true k d : dict_mem k d = true <-> k ∈ dict_keys d.
Proof. unfold dict_mem. rewrite bool_decide_eq_true. apply dict_get_is_Some. Qed.

Lemma dict_mem_false k d : dict_mem k d = false <-> k ∉ dict_keys d.
Proof.
  unfold dict_mem. rewrite bool_decide_eq_false, dict_get_is_Some. done.
Qed.

Lemma dict_get_set k k' v d :
  dict_get k' (dict_set k v d) = if decide (k' = k) then Some v else dict_get k' d.
Proof.
  induction d as [|[k0 v0] d IH]; simpl.
  - destruct (decide (k' = k)); done.
  - destruct (decide (k = k0)) as [->|Hne]; simpl.
    + destruct (decide (k' = k0)); done.
    + destruct (decide (k' = k0)) as [->|].
      * by rewrite decide_False by done.
      * apply IH.
Qed.

Lemma dict_get_set_eq k v d : dict_get k (dict_set k v d) = Some v.
Proof. rewrite dict_get_set. by rewrite decide_True. Qed.

Lemma dict_get_set_ne k k' v d :
  k' ≠ k -> dict_get k' (dict_set k v d) = dict_get k' d.
Proof. intros. rewrite dict_get_set. by rewrite decide_False. Qed.

Lemma dict_set_fresh k v d : k ∉ dict_keys d -> dict_set k v d = d ++ [(k, v)].
Proof.
  unfold dict_keys. induction d as [|[k' v'] d IH]; simpl; [done|].
  rewrite not_elem_of_cons. intros [Hne Hk].
  rewrite decide_False by done. by rewrite IH.
Qed.

Lemma dict_keys_set_mem k v d :
  k ∈ dict_keys d -> dict_keys (dict_set k v d) = dict_keys d.
Proof.
  unfold dict_keys. induction d as [|[k' v'] d IH]; simpl.
  - intros Hin. by apply elem_of_nil in Hin.
  - intros Hin. destruct (decide (k = k')) as [->|Hne]; simpl; [done|].
    apply elem_of_cons in Hin as [?|Hin]; [done|]. f_equal. by apply IH.
Qed.

Lemma dict_keys_set k v d :
  dict_keys (dict_set k v d) =
    if decide (k ∈ dict_keys d) then dict_keys d else dict_keys d ++ [k].
Proof.
  destruct (decide (k ∈ dict_keys d)) as [Hin|Hin].
  - by apply dict_keys_set_mem.
  - rewrite dict_set_fresh by done. unfold dict_keys. by rewrite fmap_app.
Qed.

Lemma dict_set_NoDup k v d : NoDup (dict_keys d) -> NoDup (dict_keys (dict_set k v d)).
Proof.
  intros Hnd. rewrite dict_keys_set. case_decide; [done|].
  apply NoDup_app. split_and!; [done| |apply NoDup_singleton].
  intros x Hx Hx'. apply list_elem_of_singleton in Hx' as ->. done.
Qed.

Lemma dict_get_del k k' d :
  NoDup (dict_keys d) ->
  dict_get k' (dict_del k d) = if decide (k' = k) then None else dict_get k' d.
Proof.
  unfold dict_keys. induction d as [|[k0 v0] d IH]; simpl; intros Hnd.
  - by destruct (decide (k' = k)).
  - apply NoDup_cons in Hnd as [Hk0 Hnd].
    destruct (decide (k = k0)) as [->|Hne]; simpl.
    + destruct (decide (k' = k0)) as [->|]; [|done].
      by apply dict_get_None.
    + destruct (decide (k' = k0)) as [->|].
      * by rewrite decide_False by done.
      * by apply IH.
Qed.

Lemma dict_del_sublist k d : dict_keys (dict_del k d) `sublist_of` dict_keys d.
Proof.
  unfold dict_keys. induction d as [|[k' v'] d IH]; simpl; [done|].
  destruct (decide (k = k')); simpl.
  - by apply sublist_cons.
  - by apply sublist_skip.
Qed.

Lemma dict_del_NoDup k d : NoDup (dict_keys d) -> NoDup (dict_keys (dict_del k d)).
Proof. intros Hnd. exact (sublist_NoDup _ _ Hnd (dict_del_sublist k d)). Qed.

Lemma dict_del_absent k d : k ∉ dict_keys d -> dict_del k d = d.
Proof.
  unfold dict_keys. induction d as [|[k' v'] d IH]; simpl; [done|].
  rewrite not_elem_of_cons. intros [Hne Hk].
  rewrite decide_False by done. by rewrite IH.
Qed.

(** The comprehension of a list whose keys are pairwise distinct lists
    the entries in the order of the list. *)
Lemma dict_by_app (key : V -> K) l d :
  NoDup (dict_keys d ++ (key <$> l)) ->
  foldl (fun d x => dict_set (key x) x d) d l = d ++ ((fun x => (key x, x)) <$> l).
Proof.
  revert d. induction l as [|x l IH]; intros d Hnd; simpl.
  - by rewrite app_nil_r.
  - simpl in Hnd. apply NoDup_app in Hnd as (Hd & Hdis & Hl).
    apply NoDup_cons in Hl as [Hx Hl].
    assert (key x ∉ dict_keys d) as Hfresh.
    { intros Hin. apply (Hdis _ Hin). left. }
    rewrite dict_set_fresh by done. rewrite IH.
    + by rewrite <- app_assoc.
    + unfold dict_keys. rewrite fmap_app. simpl. rewrite <- app_assoc. simpl.
      apply NoDup_app. split_and!; [done| |by apply NoDup_cons].
      intros y Hy Hy'. apply (Hdis _ Hy). done.
Qed.

Lemma dict_by_NoDup (key : V -> K) l :
  NoDup (key <$> l) -> dict_by key l = (fun x => (key x, x)) <$> l.
Proof. intros Hnd. unfold dict_by. by rewrite dict_by_app. Qed.

Lemma dict_by_values (key : V -> K) l : NoDup (key <$> l) -> dict_values (dict_by key l) = l.
Proof.
  intros Hnd. rewrite dict_by_NoDup by done. unfold dict_values.
  rewrite <- list_fmap_compose. apply list_fmap_id.
Qed.

Lemma dict_by_keys (key : V -> K) l : NoDup (key <$> l) -> dict_keys (dict_by key l) = key <$> l.
Proof.
  intros Hnd. rewrite dict_by_NoDup by done. unfold dict_keys.
  by rewrite <- list_fmap_compose.
Qed.

End PyDictFacts.

(** ** Variable resolver *)

(** The text [${IDENT}] for the name [IDENT]. *)
Definition placeholder (ident : string) : string := "${" +:+ ident +:+ "}".

Lemma app_string_nil (s : string) : "" +:+ s = s.
Proof. reflexivity. Qed.

Lemma app_string_cons (a : Ascii.ascii) (x s : string) :
  String a x +:+ s = String a (x +:+ s).
Proof. reflexivity. Qed.

Lemma endswith_unfold (suffix s : string) :
  endswith suffix s =
    if bool_decide (s = suffix) then true
    else match s with EmptyString => false | String _ s' => endswith suffix s' end.
Proof. by destruct s. Qed.

Lemma endswith_refl (s : string) : endswith s s = true.
Proof. rewrite endswith_unfold. by rewrite bool_decide_eq_true_2. Qed.

Lemma endswith_app (x suffix : string) : endswith suffix (x +:+ suffix) = true.
Proof.
induction x as [|a x IH].
- rewrite app_string_nil. apply endswith_refl.
- rewrite app_string_cons, endswith_unfold. case_bool_decide; [done|]. exact IH.
Qed.

Lemma endswith_inv (suffix s : string) :
  endswith suffix s = true -> exists x, s = x +:+ suffix.
Proof.
induction s as [|a s IH]; rewrite endswith_unfold.
- case_bool_decide as E; [|done]. intros _. exists "". by rewrite <- E.
- case_bool_decide as E.
  + intros _. exists "". by rewrite <- E.
  + intros Hs. destruct (IH Hs) as [x ->]. by exists (String a x).
Qed.

Lemma substring_0_app (x y : string) :
  String.substring 0 (String.length x) (x +:+ y) = x.
Proof.
induction x as [|a x IH].
- rewrite app_string_nil. by destruct y.
- rewrite app_string_cons. simpl. by rewrite IH.
Qed.

Lemma length_app_string (x y : string) :
  String.length (x +:+ y) = String.length x + String.length y.
Proof.
induction x as [|a x IH]; [done|].
rewrite app_string_cons. simpl. by rewrite IH.
Qed.

Lemma placeholder_unfold (ident : string) :
  placeholder ident = String "$"%char (String "{"%char (ident +:+ "}")).
Proof. reflexivity. Qed.

Lemma str_slice_placeholder (ident : string) : str_slice 2 1 (placeholder ident) = ident.
Proof.
rewrite placeholder_unfold. unfold str_slice. simpl.
rewrite length_app_string. simpl.
replace (String.length ident + 1 - 0 - 1) with (String.length ident) by lia.
apply substring_0_app.
Qed.

Lemma is_placeholder_true (ident : string) :
  startswith "${" (placeholder ident) && endswith "}" (placeholder ident) = true.
Proof.
apply andb_true_intro. split.
- rewrite placeholder_unfold. unfold startswith.
  apply String.prefix_correct. simpl. by destruct (ident +:+ "}").
- rewrite placeholder_unfold. rewrite <- !app_string_cons. apply endswith_app.
Qed.

Lemma startswith_inv (s : string) :
  startswith "${" s = true -> exists rest, s = String "$"%char (String "{"%char rest).
Proof.
unfold startswith. intros Hp%String.prefix_correct.
destruct s as [|a [|b s]]; simpl in Hp; [done..|].
injection Hp as -> -> _. by exists s.
Qed.

Lemma is_placeholder_inv (s : string) :
  startswith "${" s && endswith "}" s = true -> exists ident, s = placeholder ident.
Proof.
intros [Hp Hs]%andb_prop.
apply startswith_inv in Hp as [rest ->].
rewrite endswith_unfold, bool_decide_eq_false_2 in Hs by done.
rewrite endswith_unfold, bool_decide_eq_false_2 in Hs by done.
apply endswith_inv in Hs as [x ->]. by exists x.
Qed.

(** The resolution of one field, as [_resolve_vars] performs it on [url]
    and on [key]. *)
Lemma resolve_field_placeholder (environ : gmap string string) (ident : string) :
  (if startswith "${" (placeholder ident) && endswith "}" (placeholder ident)
   then default (placeholder ident) (environ !! str_slice 2 1 (placeholder ident))
   else placeholder ident)
  = default (placeholder ident) (environ !! ident).
Proof. by rewrite is_placeholder_true, str_slice_placeholder. Qed.

Lemma resolve_field_other (environ : gmap string string) (s : string) :
  (forall ident, s ≠ placeholder ident) ->
  (if startswith "${" s && endswith "}" s
   then default s (environ !! str_slice 2 1 s) else s) = s.
Proof.
intros Hs. destruct (startswith "${" s && endswith "}" s) eqn:E; [|done].
apply is_placeholder_inv in E as [ident ->]. by destruct (Hs ident).
Qed.

(** Claim C8.  For each of the two connection fields [_resolve_vars]
    handles: a value that is entirely [${IDENT}] resolves to the
    environment's value of [IDENT] when the environment defines it, and to
    the literal input when it does not (no error: the function is total);
    every other value, such as [prefix-${X}-suffix], comes back unchanged.
    The function only computes a new pair: each component depends on its
    own argument and the environment alone, and nothing is written back
    into the descriptor the arguments were read from. *)
Theorem resolve_vars_whole_value_only
    (environ : gmap string string) (url key : string) :
  let out := Aquaform._resolve_vars environ url key in
  (forall ident v, url = placeholder ident -> environ !! ident = Some v -> out.1 = v) /\
  (forall ident, url = placeholder ident -> environ !! ident = None -> out.1 = url) /\
  ((forall ident, url ≠ placeholder ident) -> out.1 = url) /\
  (forall ident v, key = placeholder ident -> environ !! ident = Some v -> out.2 = v) /\
  (forall ident, key = placeholder ident -> environ !! ident = None -> out.2 = key) /\
  ((forall ident, key ≠ placeholder ident) -> out.2 = key) /\
  (Aquaform._resolve_vars environ "prefix-${X}-suffix" key).1 = "prefix-${X}-suffix" /\
  (forall key', (Aquaform._resolve_vars environ url key').1 = out.1) /\
  (forall url', (Aquaform._resolve_vars environ url' key).2 = out.2).
Proof.
unfold Aquaform._resolve_vars. simpl. split_and!.
- intros ident v -> Hv. by rewrite resolve_field_placeholder, Hv.
- intros ident -> Hv. by rewrite resolve_field_placeholder, Hv.
- apply resolve_field_other.
- intros ident v -> Hv. by rewrite resolve_field_placeholder, Hv.
- intros ident -> Hv. by rewrite resolve_field_placeholder, Hv.
- apply resolve_field_other.
- reflexivity.
- reflexivity.
- reflexivity.
Qed.

(** Scenario S6: [url: ${SUPABASE_URL}] with no such variable defined,
    next to a key that is defined. *)
Example resolve_vars_missing_variable :
  Aquaform._resolve_vars (<["SUPABASE_KEY" := "secret"]> ∅)
    "${SUPABASE_URL}" "${SUPABASE_KEY}" = ("${SUPABASE_URL}", "secret").
Proof. by vm_compute. Qed.

(** ** Diff engine *)

Lemma Column_equals_spec (a b : Column) : Column_equals a b = true <-> a = b.
Proof.
unfold Column_equals. destruct a, b; simpl.
repeat case_bool_decide; split; intros E; try done; simplify_eq; try done.
Qed.

Lemma ForeignKey_equals_spec (a b : ForeignKey) : ForeignKey_equals a b = true <-> a = b.
Proof.
unfold ForeignKey_equals. destruct a, b; simpl.
repeat case_bool_decide; split; intros E; try done; simplify_eq; try done.
Qed.

Lemma Column_equals_refl (a : Column) : Column_equals a a = true.
Proof. by apply Column_equals_spec. Qed.

Lemma ForeignKey_equals_refl (a : ForeignKey) : ForeignKey_equals a a = true.
Proof. by apply ForeignKey_equals_spec. Qed.

Section LoopFacts.
Context {K V B : Type} `{EqDecision K}.

(** A loop that appends some of the items it walks over yields them in
    the order walked. *)
Lemma omap_items (key : V -> K) (g : K -> V -> option B) (l : list V) :
  omap (fun '(k, x) => g k x) ((fun x => (key x, x)) <$> l)
  = omap (fun x => g (key x) x) l.
Proof.
induction l as [|x l IH]; csimpl; [done|]. by rewrite IH.
Qed.

Lemma omap_sublist (f : V -> option V) (l : list V) :
  (forall x y, f x = Some y -> y = x) -> omap f l `sublist_of` l.
Proof.
intros Hf. induction l as [|x l IH]; csimpl; [constructor|].
destruct (f x) as [y|] eqn:E; csimpl.
- apply Hf in E as ->. by apply sublist_skip.
- by apply sublist_cons.
Qed.

Lemma omap_fmap_sublist {C} (f : V -> option C) (h : C -> V) (l : list V) :
  (forall x y, f x = Some y -> h y = x) -> h <$> omap f l `sublist_of` l.
Proof.
intros Hf. induction l as [|x l IH]; csimpl; [constructor|].
destruct (f x) as [y|] eqn:E; csimpl.
- apply Hf in E as ->. by apply sublist_skip.
- by apply sublist_cons.
Qed.

Lemma dict_mem_by (key : V -> K) (l : list V) (k : K) :
  NoDup (key <$> l) -> dict_mem k (dict_by key l) = bool_decide (k ∈ key <$> l).
Proof.
intros Hnd. apply bool_decide_ext.
by rewrite dict_get_is_Some, dict_by_keys.
Qed.

Lemma dict_get_by (key : V -> K) (l : list V) (x : V) :
  NoDup (key <$> l) -> x ∈ l -> dict_get (key x) (dict_by key l) = Some x.
Proof.
intros Hnd Hx. apply elem_of_dict_get.
- by rewrite dict_by_keys.
- rewrite dict_by_NoDup by done. apply list_elem_of_fmap. by exists x.
Qed.

Lemma dict_get_by_Some (key : V -> K) (l : list V) (k : K) (x : V) :
  NoDup (key <$> l) -> dict_get k (dict_by key l) = Some x -> x ∈ l /\ key x = k.
Proof.
intros Hnd Hx. apply dict_get_Some_elem in Hx.
rewrite dict_by_NoDup in Hx by done.
apply list_elem_of_fmap in Hx as (y & E & Hy). by simplify_eq.
Qed.
End LoopFacts.

Section DiffFacts.
Context `{D : Dialect}.

(** The foreign keys present on both sides (same column tuple) whose other
    fields differ, as pairs (old version, new version), in the order of
    [new_fks_map]. *)
Definition changed_fks (old_fks_map new_fks_map : list (list string * ForeignKey))
    : list (ForeignKey * ForeignKey) :=
  omap (fun '(cols, new_fk) =>
          match dict_get cols old_fks_map with
          | Some old_fk =>
              if negb (ForeignKey_equals new_fk old_fk)
              then Some (old_fk, new_fk) else None
          | None => None
          end)
       new_fks_map.

(** A dictionary entry of the delta: present only for a non-empty list. *)
Definition entry {A} (l : list A) : option (list A) :=
  match l with [] => None | _ => Some l end.

Lemma entry_default {A} (l : list A) : default [] (entry l) = l.
Proof. by destruct l. Qed.

Lemma entry_if {A} `{EqDecision A} (l : list A) (o : option (list A)) :
  (if bool_decide (l ≠ []) then Some l else None) = entry l.
Proof. destruct l; by case_bool_decide. Qed.

Lemma foldl_modified_fk_step om items (c : Changes) :
  foldl (modified_fk_step om) c items =
    match changed_fks om items with
    | [] => c
    | ch =>
        set_add_foreign_keys (default [] (add_foreign_keys c) ++ ch.*2)
          (set_remove_foreign_keys (default [] (remove_foreign_keys c) ++ ch.*1) c)
    end.
Proof.
revert c. induction items as [|[cols new_fk] items IH]; intros c; [done|].
simpl. rewrite IH. unfold changed_fks at 2. csimpl. fold (changed_fks om items).
destruct (dict_get cols om) as [old_fk|]; simpl; [|done].
destruct (ForeignKey_equals new_fk old_fk); simpl; [done|].
destruct (changed_fks om items) as [|p ch]; simpl; [done|].
destruct c; unfold set_add_foreign_keys, set_remove_foreign_keys; simpl.
by rewrite <- !app_assoc.
Qed.

(** The items the column loops of [_compare_tables] select. *)
Definition added_columns_of (old_table new_table : Table) : list Column :=
  let old_columns_map := dict_by col_name (t_columns old_table) in
  omap (fun '(col_name, col) =>
          if dict_mem col_name old_columns_map then None else Some col)
       (dict_by col_name (t_columns new_table)).

Definition modified_columns_of (old_table new_table : Table) : list (Column * Column) :=
  let old_columns_map := dict_by col_name (t_columns old_table) in
  omap (fun '(col_name, new_col) =>
          match dict_get col_name old_columns_map with
          | Some old_col =>
              if negb (Column_equals new_col old_col)
              then Some (old_col, new_col) else None
          | None => None
          end)
       (dict_by col_name (t_columns new_table)).

Definition removed_columns_of (old_table new_table : Table) : list Column :=
  let new_columns_map := dict_by col_name (t_columns new_table) in
  omap (fun '(col_name, col) =>
          if dict_mem col_name new_columns_map then None else Some col)
       (dict_by col_name (t_columns old_table)).

Definition fk_guard (old_table new_table : Table) : bool :=
  truthy (t_foreign_keys old_table) || truthy (t_foreign_keys new_table).

Definition old_fks_map_of (old_table : Table) : list (list string * ForeignKey) :=
  dict_by fk_columns (default [] (t_foreign_keys old_table)).

Definition added_fks_of (old_table new_table : Table) : list ForeignKey :=
  omap (fun '(cols, fk) =>
          if dict_mem cols (old_fks_map_of old_table) then None else Some fk)
       (old_fks_map_of new_table).

Definition removed_fks_of (old_table new_table : Table) : list ForeignKey :=
  omap (fun '(cols, fk) =>
          if dict_mem cols (old_fks_map_of new_table) then None else Some fk)
       (old_fks_map_of old_table).

(** [_compare_tables] in closed form: each entry of the delta is the list
    its loop collected, present only when not empty. *)
Lemma compare_tables_unfold (o n : Table) :
  _compare_tables o n =
    {| add_columns := entry (added_columns_of o n);
       modify_columns := entry (modified_columns_of o n);
       remove_columns := entry (removed_columns_of o n);
       modify_primary_key :=
         if bool_decide (t_primary_key o ≠ t_primary_key n)
         then Some (t_primary_key o, t_primary_key n) else None;
       add_foreign_keys :=
         entry (if fk_guard o n
                then added_fks_of o n
                     ++ (changed_fks (old_fks_map_of o) (old_fks_map_of n)).*2
                else []);
       remove_foreign_keys :=
         entry (if fk_guard o n
                then (changed_fks (old_fks_map_of o) (old_fks_map_of n)).*1
                     ++ removed_fks_of o n
                else []) |}.
Proof.
unfold _compare_tables. cbv zeta.
fold (added_columns_of o n) (modified_columns_of o n) (removed_columns_of o n).
fold (fk_guard o n) (old_fks_map_of o) (old_fks_map_of n).
fold (added_fks_of o n) (removed_fks_of o n).
rewrite foldl_modified_fk_step.
generalize (added_columns_of o n) (modified_columns_of o n) (removed_columns_of o n).
generalize (added_fks_of o n) (removed_fks_of o n).
generalize (changed_fks (old_fks_map_of o) (old_fks_map_of n)).
generalize (fk_guard o n).
intros g ch rf af rc mc ac.
destruct g, ch, rf, af, rc, mc, ac; repeat case_bool_decide; try done;
  unfold set_add_foreign_keys, set_remove_foreign_keys; simpl;
  rewrite ?app_nil_r; done.
Qed.

Lemma foldl_dict_set_NoDup {K V} `{EqDecision K} (key : V -> K) (l : list V)
    (d : list (K * V)) :
  NoDup (dict_keys d) -> NoDup (dict_keys (foldl (fun d x => dict_set (key x) x d) d l)).
Proof.
revert d. induction l as [|x l IH]; intros d Hd; simpl; [done|].
apply IH. by apply dict_set_NoDup.
Qed.

Lemma dict_by_keys_NoDup {K V} `{EqDecision K} (key : V -> K) (l : list V) :
  NoDup (dict_keys (dict_by key l)).
Proof. apply foldl_dict_set_NoDup. constructor. Qed.

Lemma omap_None {A B} (f : A -> option B) (l : list A) :
  (forall x, x ∈ l -> f x = None) -> omap f l = [].
Proof.
induction l as [|x l IH]; intros Hf; csimpl; [done|].
rewrite (Hf x) by left. apply IH. intros y Hy. apply Hf. by right.
Qed.

(** Walking a dictionary and looking each key up in that same dictionary
    finds nothing missing and nothing different. *)
Lemma omap_missing_self {K V} `{EqDecision K} (m : list (K * V)) :
  omap (fun '(k, v) => if dict_mem k m then None else Some v) m = [].
Proof.
apply omap_None. intros [k v] Hin.
assert (dict_mem k m = true) as ->; [|done].
apply dict_mem_true. unfold dict_keys. apply list_elem_of_fmap. by exists (k, v).
Qed.

Lemma omap_differing_self {K V} `{EqDecision K} (eqb : V -> V -> bool)
    (m : list (K * V)) :
  NoDup (dict_keys m) -> (forall v, eqb v v = true) ->
  omap (fun '(k, v) =>
          match dict_get k m with
          | Some o => if negb (eqb v o) then Some (o, v) else None
          | None => None
          end) m = [].
Proof.
intros Hnd Hrefl. apply omap_None. intros [k v] Hin.
rewrite (elem_of_dict_get k v m Hnd Hin). by rewrite Hrefl.
Qed.

Lemma mapM_Column_from_to_dict (l : list Column) :
  mapM Column_from_dict (Column_to_dict <$> l) = Some l.
Proof. apply mapM_fmap_Some. by intros []. Qed.

Lemma mapM_ForeignKey_from_to_dict (l : list ForeignKey) :
  mapM ForeignKey_from_dict (ForeignKey_to_dict <$> l) = Some l.
Proof. apply mapM_fmap_Some. by intros []. Qed.

(** What [Table.from_dict] reads back from [Table.to_dict]: the same table
    under the given resource id, except that an empty foreign-key list
    comes back as [None]. *)
Definition reloaded (resource_id : string) (t : Table) : Table :=
  {| t_name := t_name t; t_conn := t_conn t; t_columns := t_columns t;
     t_primary_key := t_primary_key t;
     t_foreign_keys := if truthy (t_foreign_keys t) then t_foreign_keys t else None;
     t_resource_id := resource_id |}.

Lemma foreign_keys_from_to_dict (fks : option (list ForeignKey)) :
  match (if truthy fks then Some (ForeignKey_to_dict <$> default [] fks) else None) with
  | None => Some None
  | Some l => Some <$> mapM ForeignKey_from_dict l
  end = Some (if truthy fks then fks else None).
Proof.
destruct fks as [[|fk l]|]; try done.
change (truthy (Some (fk :: l))) with true.
change (default [] (Some (fk :: l))) with (fk :: l).
cbv iota. by rewrite mapM_ForeignKey_from_to_dict.
Qed.

Lemma Table_from_to_dict (resource_id : string) (t : Table) :
  Table_from_dict resource_id (Table_to_dict t) = Some (reloaded resource_id t).
Proof.
unfold Table_from_dict, Table_to_dict, reloaded.
cbn [d_columns d_foreign_keys d_name d_conn d_primary_key].
rewrite foreign_keys_from_to_dict, conn_from_to_dict.
cbn [mbind option_bind].
by rewrite mapM_Column_from_to_dict.
Qed.

Lemma Table_to_dict_nonempty (t : Table) : TableD_nonempty (Table_to_dict t) = true.
Proof. done. Qed.

(** The diff of a table against what was recorded for it is empty. *)
Lemma compare_reloaded (resource_id : string) (t : Table) :
  _compare_tables (reloaded resource_id t) t = no_changes.
Proof.
rewrite compare_tables_unfold.
assert (fk_guard (reloaded resource_id t) t = truthy (t_foreign_keys t)) as Hg.
{ unfold fk_guard, reloaded. simpl. by destruct (t_foreign_keys t) as [[|]|]. }
assert (old_fks_map_of (reloaded resource_id t) = old_fks_map_of t) as Hm.
{ unfold old_fks_map_of, reloaded. simpl. by destruct (t_foreign_keys t) as [[|]|]. }
unfold added_columns_of, modified_columns_of, removed_columns_of,
  added_fks_of, removed_fks_of, changed_fks.
rewrite Hg, Hm. simpl.
rewrite !omap_missing_self.
rewrite (omap_differing_self Column_equals)
  by (apply dict_by_keys_NoDup || apply Column_equals_refl).
rewrite (omap_differing_self ForeignKey_equals)
  by (apply dict_by_keys_NoDup || apply ForeignKey_equals_refl).
rewrite bool_decide_eq_false_2 by (intros E; by apply E).
by destruct (truthy (t_foreign_keys t)).
Qed.

Lemma fk_guard_false (o n : Table) :
  fk_guard o n = false ->
  default [] (t_foreign_keys o) = [] /\ default [] (t_foreign_keys n) = [].
Proof.
unfold fk_guard.
destruct (t_foreign_keys o) as [[|]|], (t_foreign_keys n) as [[|]|]; by simpl.
Qed.

(** The foreign-key entries of the delta do not depend on the guard: when
    neither table has foreign keys the loops collect nothing. *)
Lemma fk_guard_irrelevant (o n : Table) :
  (if fk_guard o n
   then added_fks_of o n ++ (changed_fks (old_fks_map_of o) (old_fks_map_of n)).*2
   else [])
  = added_fks_of o n ++ (changed_fks (old_fks_map_of o) (old_fks_map_of n)).*2
  /\
  (if fk_guard o n
   then (changed_fks (old_fks_map_of o) (old_fks_map_of n)).*1 ++ removed_fks_of o n
   else [])
  = (changed_fks (old_fks_map_of o) (old_fks_map_of n)).*1 ++ removed_fks_of o n.
Proof.
destruct (fk_guard o n) eqn:G; [done|].
apply fk_guard_false in G as [Ho Hn].
unfold added_fks_of, removed_fks_of, old_fks_map_of. by rewrite Ho, Hn.
Qed.

Lemma added_columns_of_sublist (o n : Table) :
  NoDup (col_name <$> t_columns n) ->
  added_columns_of o n `sublist_of` t_columns n.
Proof.
intros Hn. unfold added_columns_of. cbv zeta.
rewrite (dict_by_NoDup col_name (t_columns n)) by done.
rewrite (omap_items col_name
  (fun k c => if dict_mem k (dict_by col_name (t_columns o)) then None else Some c)).
apply omap_sublist. intros x y. by destruct (dict_mem _ _); intros [= ->].
Qed.

Lemma removed_columns_of_sublist (o n : Table) :
  NoDup (col_name <$> t_columns o) ->
  removed_columns_of o n `sublist_of` t_columns o.
Proof.
intros Ho. unfold removed_columns_of. cbv zeta.
rewrite (dict_by_NoDup col_name (t_columns o)) by done.
rewrite (omap_items col_name
  (fun k c => if dict_mem k (dict_by col_name (t_columns n)) then None else Some c)).
apply omap_sublist. intros x y. by destruct (dict_mem _ _); intros [= ->].
Qed.

Lemma modified_columns_of_sublist (o n : Table) :
  NoDup (col_name <$> t_columns n) ->
  (modified_columns_of o n).*2 `sublist_of` t_columns n.
Proof.
intros Hn. unfold modified_columns_of. cbv zeta.
rewrite (dict_by_NoDup col_name (t_columns n)) by done.
rewrite (omap_items col_name
  (fun k c => match dict_get k (dict_by col_name (t_columns o)) with
              | Some old_col =>
                  if negb (Column_equals c old_col) then Some (old_col, c) else None
              | None => None
              end)).
apply omap_fmap_sublist. intros x [y1 y2].
destruct (dict_get _ _); [|done]. by destruct (negb _); intros [= -> ->].
Qed.

Lemma added_fks_of_spec (o n : Table) :
  NoDup (fk_columns <$> default [] (t_foreign_keys o)) ->
  NoDup (fk_columns <$> default [] (t_foreign_keys n)) ->
  added_fks_of o n `sublist_of` default [] (t_foreign_keys n) /\
  forall fk, fk ∈ added_fks_of o n <->
    fk ∈ default [] (t_foreign_keys n) /\
    fk_columns fk ∉ fk_columns <$> default [] (t_foreign_keys o).
Proof.
intros Ho Hn. unfold added_fks_of, old_fks_map_of.
rewrite (dict_by_NoDup fk_columns (default [] (t_foreign_keys n))) by done.
rewrite (omap_items fk_columns
  (fun k fk => if dict_mem k (dict_by fk_columns (default [] (t_foreign_keys o)))
               then None else Some fk)).
split.
- apply omap_sublist. intros x y. by destruct (dict_mem _ _); intros [= ->].
- intros fk. rewrite list_elem_of_omap. split.
  + intros (x & Hx & E). destruct (dict_mem _ _) eqn:M; [done|].
    injection E as ->. split; [done|].
    apply dict_mem_false in M. by rewrite dict_by_keys in M.
  + intros [Hfk Hcols]. exists fk. split; [done|].
    assert (dict_mem (fk_columns fk)
              (dict_by fk_columns (default [] (t_foreign_keys o))) = false) as ->; [|done].
    apply dict_mem_false. by rewrite dict_by_keys.
Qed.

Lemma removed_fks_of_spec (o n : Table) :
  NoDup (fk_columns <$> default [] (t_foreign_keys o)) ->
  NoDup (fk_columns <$> default [] (t_foreign_keys n)) ->
  removed_fks_of o n `sublist_of` default [] (t_foreign_keys o) /\
  forall fk, fk ∈ removed_fks_of o n <->
    fk ∈ default [] (t_foreign_keys o) /\
    fk_columns fk ∉ fk_columns <$> default [] (t_foreign_keys n).
Proof.
intros Ho Hn. unfold removed_fks_of, old_fks_map_of.
rewrite (dict_by_NoDup fk_columns (default [] (t_foreign_keys o))) by done.
rewrite (omap_items fk_columns
  (fun k fk => if dict_mem k (dict_by fk_columns (default [] (t_foreign_keys n)))
               then None else Some fk)).
split.
- apply omap_sublist. intros x y. by destruct (dict_mem _ _); intros [= ->].
- intros fk. rewrite list_elem_of_omap. split.
  + intros (x & Hx & E). destruct (dict_mem _ _) eqn:M; [done|].
    injection E as ->. split; [done|].
    apply dict_mem_false in M. by rewrite dict_by_keys in M.
  + intros [Hfk Hcols]. exists fk. split; [done|].
    assert (dict_mem (fk_columns fk)
              (dict_by fk_columns (default [] (t_foreign_keys n))) = false) as ->; [|done].
    apply dict_mem_false. by rewrite dict_by_keys.
Qed.

Lemma changed_fks_spec (o n : Table) :
  NoDup (fk_columns <$> default [] (t_foreign_keys o)) ->
  NoDup (fk_columns <$> default [] (t_foreign_keys n)) ->
  let changed := changed_fks (old_fks_map_of o) (old_fks_map_of n) in
  changed.*2 `sublist_of` default [] (t_foreign_keys n) /\
  forall old_fk new_fk, (old_fk, new_fk) ∈ changed <->
    old_fk ∈ default [] (t_foreign_keys o) /\
    new_fk ∈ default [] (t_foreign_keys n) /\
    fk_columns old_fk = fk_columns new_fk /\ old_fk ≠ new_fk.
Proof.
intros Ho Hn. cbv zeta. unfold changed_fks, old_fks_map_of.
rewrite (dict_by_NoDup fk_columns (default [] (t_foreign_keys n))) by done.
rewrite (omap_items fk_columns
  (fun k new_fk =>
     match dict_get k (dict_by fk_columns (default [] (t_foreign_keys o))) with
     | Some old_fk =>
         if negb (ForeignKey_equals new_fk old_fk) then Some (old_fk, new_fk) else None
     | None => None
     end)).
split.
- apply omap_fmap_sublist. intros x [y1 y2].
  destruct (dict_get _ _); [|done]. by destruct (negb _); intros [= -> ->].
- intros old_fk new_fk. rewrite list_elem_of_omap. split.
  + intros (x & Hx & E).
    destruct (dict_get _ _) as [old'|] eqn:G; [|done].
    destruct (ForeignKey_equals x old') eqn:Q; simpl in E; [done|].
    injection E as -> ->.
    apply dict_get_by_Some in G as [Hin Hk]; [|done].
    split_and!; try done.
    intros ->. by rewrite ForeignKey_equals_refl in Q.
  + intros (Hold & Hnew & Hk & Hne). exists new_fk. split; [done|].
    rewrite <- Hk. rewrite dict_get_by by done.
    destruct (ForeignKey_equals new_fk old_fk) eqn:Q; [|done].
    apply ForeignKey_equals_spec in Q. by subst.
Qed.

(** Claim C9, amended.  The diff is a function of its two arguments, and
    for tables whose column names and foreign-key column tuples are
    pairwise distinct it lists [add_columns] and the new halves of
    [modify_columns] in the order of [new], [remove_columns] in the order
    of [old].  The foreign-key entries are each two runs: [add_foreign_keys]
    lists the keys whose column tuple is only in [new], in the order of
    [new], followed by the new versions of the changed keys, in the order
    of [new]; [remove_foreign_keys] lists the old versions of the changed
    keys, in the order in which their new versions appear in [new],
    followed by the keys whose column tuple is only in [old], in the order
    of [old]. *)
Theorem compare_tables_order (old_table new_table : Table) :
  NoDup (col_name <$> t_columns old_table) ->
  NoDup (col_name <$> t_columns new_table) ->
  NoDup (fk_columns <$> default [] (t_foreign_keys old_table)) ->
  NoDup (fk_columns <$> default [] (t_foreign_keys new_table)) ->
  let delta := _compare_tables old_table new_table in
  let old_fks := default [] (t_foreign_keys old_table) in
  let new_fks := default [] (t_foreign_keys new_table) in
  (forall o n, o = old_table -> n = new_table -> _compare_tables o n = delta) /\
  default [] (add_columns delta) `sublist_of` t_columns new_table /\
  (default [] (modify_columns delta)).*2 `sublist_of` t_columns new_table /\
  default [] (remove_columns delta) `sublist_of` t_columns old_table /\
  exists added changed removed,
    default [] (add_foreign_keys delta) = added ++ changed.*2 /\
    default [] (remove_foreign_keys delta) = changed.*1 ++ removed /\
    added `sublist_of` new_fks /\
    changed.*2 `sublist_of` new_fks /\
    removed `sublist_of` old_fks /\
    (forall fk, fk ∈ added <->
       fk ∈ new_fks /\ fk_columns fk ∉ fk_columns <$> old_fks) /\
    (forall old_fk new_fk, (old_fk, new_fk) ∈ changed <->
       old_fk ∈ old_fks /\ new_fk ∈ new_fks /\
       fk_columns old_fk = fk_columns new_fk /\ old_fk ≠ new_fk) /\
    (forall fk, fk ∈ removed <->
       fk ∈ old_fks /\ fk_columns fk ∉ fk_columns <$> new_fks).
Proof.
intros Hoc Hnc Hof Hnf. cbv zeta.
split; [by intros o n -> ->|].
rewrite compare_tables_unfold.
cbn [add_columns modify_columns remove_columns add_foreign_keys remove_foreign_keys].
rewrite !entry_default.
destruct (fk_guard_irrelevant old_table new_table) as [-> ->].
split_and!.
- by apply added_columns_of_sublist.
- by apply modified_columns_of_sublist.
- by apply removed_columns_of_sublist.
- destruct (added_fks_of_spec old_table new_table Hof Hnf) as [Ha1 Ha2].
  destruct (removed_fks_of_spec old_table new_table Hof Hnf) as [Hr1 Hr2].
  destruct (changed_fks_spec old_table new_table Hof Hnf) as [Hc1 Hc2].
  exists (added_fks_of old_table new_table),
    (changed_fks (old_fks_map_of old_table) (old_fks_map_of new_table)),
    (removed_fks_of old_table new_table).
  by split_and!.
Qed.

End DiffFacts.

(** Example tables for the diff: an old table with foreign keys on [c]
    and [a], a new one that changes the action of the key on [a] and adds
    a key on [b]. *)
Definition diff_conn : @conn Aquaform.dialect :=
  {| Aquaform.url := "${SUPABASE_URL}"; Aquaform.key := "${SUPABASE_KEY}" |}.

Definition diff_columns : list Column :=
  [ {| col_name := "a"; col_type := "UUID"; col_nullable := false; col_default := None |};
    {| col_name := "b"; col_type := "UUID"; col_nullable := false; col_default := None |};
    {| col_name := "c"; col_type := "UUID"; col_nullable := false; col_default := None |} ].

Definition diff_fk (column table on_delete : string) : ForeignKey :=
  {| fk_columns := [column]; fk_reference_table := table;
     fk_reference_columns := ["id"]; fk_on_delete := on_delete;
     fk_on_update := "NO ACTION" |}.

Definition diff_table (fks : list ForeignKey) : Table (D := Aquaform.dialect) :=
  @Build_Table Aquaform.dialect "items" diff_conn diff_columns ["a"] (Some fks)
    "items_table".

Definition diff_old : Table (D := Aquaform.dialect) :=
  diff_table [diff_fk "c" "colours" "NO ACTION"; diff_fk "a" "users" "NO ACTION"].

Definition diff_new : Table (D := Aquaform.dialect) :=
  diff_table [diff_fk "a" "users" "CASCADE"; diff_fk "b" "boxes" "NO ACTION"].

(** Claim C9 as stated fails: with a drop-recreate foreign key in play,
    [add_foreign_keys] does not follow the order of [new] (the added key on
    [b] comes before the recreated key on [a], which [new] lists first),
    and [remove_foreign_keys] does not follow the order of [old] (the
    dropped version of the key on [a] comes before the removed key on [c],
    which [old] lists first). *)
Lemma compare_tables_drop_recreate_out_of_order :
  let delta := _compare_tables diff_old diff_new in
  add_foreign_keys delta
    = Some [diff_fk "b" "boxes" "NO ACTION"; diff_fk "a" "users" "CASCADE"] /\
  remove_foreign_keys delta
    = Some [diff_fk "a" "users" "NO ACTION"; diff_fk "c" "colours" "NO ACTION"] /\
  ~ (default [] (add_foreign_keys delta)
       `sublist_of` default [] (t_foreign_keys diff_new)) /\
  ~ (default [] (remove_foreign_keys delta)
       `sublist_of` default [] (t_foreign_keys diff_old)).
Proof.
cbv zeta.
assert (_compare_tables diff_old diff_new
        = {| add_columns := None; modify_columns := None; remove_columns := None;
             modify_primary_key := None;
             add_foreign_keys :=
               Some [diff_fk "b" "boxes" "NO ACTION"; diff_fk "a" "users" "CASCADE"];
             remove_foreign_keys :=
               Some [diff_fk "a" "users" "NO ACTION"; diff_fk "c" "colours" "NO ACTION"] |})
  as -> by (by vm_compute).
simpl. split_and!; [done|done| |].
- rewrite !sublist_cons_r, sublist_nil_r.
  intros [[E|(l & E & H)]|(l & E & H)].
  + done.
  + injection E as <-. by apply sublist_nil_r in H.
  + injection E as E _. vm_compute in E. discriminate E.
- rewrite !sublist_cons_r, sublist_nil_r.
  intros [[E|(l & E & H)]|(l & E & H)].
  + done.
  + injection E as <-. by apply sublist_nil_r in H.
  + injection E as E _. vm_compute in E. discriminate E.
Qed.

Ltac decide_by_vm :=
  match goal with |- ?P => apply (bool_decide_eq_true_1 P); vm_compute; reflexivity end.

Lemma compare_tables_order_witness :
  (NoDup (col_name <$> t_columns diff_old) /\
   NoDup (col_name <$> t_columns diff_new) /\
   NoDup (fk_columns <$> default [] (t_foreign_keys diff_old)) /\
   NoDup (fk_columns <$> default [] (t_foreign_keys diff_new))) /\
  exists added changed removed,
    default [] (add_foreign_keys (_compare_tables diff_old diff_new))
      = added ++ changed.*2 /\
    default [] (remove_foreign_keys (_compare_tables diff_old diff_new))
      = changed.*1 ++ removed /\
    added `sublist_of` default [] (t_foreign_keys diff_new) /\
    changed.*2 `sublist_of` default [] (t_foreign_keys diff_new) /\
    removed `sublist_of` default [] (t_foreign_keys diff_old).
Proof.
assert (NoDup (col_name <$> t_columns diff_old)) as H1 by decide_by_vm.
assert (NoDup (col_name <$> t_columns diff_new)) as H2 by decide_by_vm.
assert (NoDup (fk_columns <$> default [] (t_foreign_keys diff_old))) as H3
  by decide_by_vm.
assert (NoDup (fk_columns <$> default [] (t_foreign_keys diff_new))) as H4
  by decide_by_vm.
split; [done|].
destruct (compare_tables_order diff_old diff_new H1 H2 H3 H4)
  as (_ & _ & _ & _ & added & changed & removed & E1 & E2 & S1 & S2 & S3 & _).
by exists added, changed, removed.
Defined.

(** ** Depth-first topological sort *)

Section TopoFacts.
Context (graph : list (string * list string)).

(** [v] lists [w] among its dependencies. *)
Definition edge (v w : string) : Prop := w ∈ neighbors graph v.

Definition acyclic : Prop := forall v, ~ tc edge v v.

(** What holds of the three shared variables between any two calls. *)
Definition dfs_inv (s : dfs) : Prop :=
  NoDup (result s) /\ visited s = list_to_set (result s) /\
  visited s ## temp_visited s /\ visited s ⊆ graph_nodes graph.

(** Every entry of the list has all its dependencies in front of it. *)
Definition dependencies_first (l : list string) : Prop :=
  forall l1 v l2, l = l1 ++ v :: l2 -> forall w, edge v w -> w ∈ l1.

Definition visit_post (node : string) (s s' : dfs) : Prop :=
  dfs_inv s' /\ temp_visited s' = temp_visited s /\
  result s `prefix_of` result s' /\
  (node ∈ visited s' \/ node ∈ temp_visited s) /\
  (acyclic -> (forall t, t ∈ temp_visited s -> rtc edge t node) ->
   dependencies_first (result s) -> dependencies_first (result s')).

Lemma neighbors_in_nodes (v w : string) : edge v w -> w ∈ graph_nodes graph.
Proof.
unfold edge, neighbors, graph_nodes. intros Hw.
destruct (dict_get v graph) as [l|] eqn:E; simpl in Hw; [|by apply elem_of_nil in Hw].
apply elem_of_list_to_set, elem_of_app. right.
apply list_elem_of_In, in_concat. exists l. split; [|by apply list_elem_of_In].
apply list_elem_of_In. apply dict_get_Some_elem in E. unfold dict_values.
apply list_elem_of_fmap. by exists (v, l).
Qed.

Lemma keys_in_nodes (v : string) : v ∈ dict_keys graph -> v ∈ graph_nodes graph.
Proof.
intros Hv. unfold graph_nodes. apply elem_of_list_to_set, elem_of_app. by left.
Qed.

Lemma visited_mono (s s' : dfs) :
  dfs_inv s -> dfs_inv s' -> result s `prefix_of` result s' -> visited s ⊆ visited s'.
Proof.
intros (_ & -> & _) (_ & -> & _) [k ->]. rewrite list_to_set_app_L. set_solver.
Qed.

Lemma measure_step (node : string) (temp : gset string) (fuel : nat) :
  node ∈ graph_nodes graph -> node ∉ temp ->
  size (graph_nodes graph ∖ temp) < S fuel ->
  size (graph_nodes graph ∖ ({[node]} ∪ temp)) < fuel.
Proof.
intros HU Ht Hsz.
assert (graph_nodes graph ∖ temp
        = {[node]} ∪ graph_nodes graph ∖ ({[node]} ∪ temp)) as E.
{ apply set_eq. intros x. rewrite !elem_of_union, !elem_of_difference,
    elem_of_union, elem_of_singleton.
  destruct (decide (x = node)) as [->|]; naive_solver. }
rewrite E, size_union in Hsz by set_solver.
rewrite size_singleton in Hsz. lia.
Qed.

Lemma dependencies_first_snoc (l : list string) (node : string) :
  node ∉ l -> dependencies_first l -> (forall w, edge node w -> w ∈ l) ->
  dependencies_first (l ++ [node]).
Proof.
intros Hn Hl Hw l1 v l2 E w Hvw.
destruct l2 as [|x l2 _] using rev_ind.
- apply app_inj_tail in E as [-> ->]. by apply Hw.
- rewrite app_comm_cons, app_assoc in E.
  apply app_inj_tail in E as [-> ->]. by apply (Hl l1 v l2).
Qed.

(** The loop over the neighbours of a node, given that each call it makes
    behaves. *)
Lemma visit_loop (fuel : nat) :
  (forall node s,
     dfs_inv s -> node ∈ graph_nodes graph ->
     size (graph_nodes graph ∖ temp_visited s) < fuel ->
     exists s', visit fuel graph node s = Some s' /\ visit_post node s s') ->
  forall ws s,
    dfs_inv s -> (forall w, w ∈ ws -> w ∈ graph_nodes graph) ->
    size (graph_nodes graph ∖ temp_visited s) < fuel ->
    exists s',
      foldl (fun acc neighbor => acc ≫= visit fuel graph neighbor) (Some s) ws = Some s' /\
      dfs_inv s' /\ temp_visited s' = temp_visited s /\
      result s `prefix_of` result s' /\
      (forall w, w ∈ ws -> w ∈ visited s' \/ w ∈ temp_visited s) /\
      (acyclic -> (forall w t, w ∈ ws -> t ∈ temp_visited s -> rtc edge t w) ->
       dependencies_first (result s) -> dependencies_first (result s')).
Proof.
intros Hvisit ws. induction ws as [|w ws IH]; intros s Hinv HU Hsz.
- exists s. split_and!; try done. intros w Hw. by apply elem_of_nil in Hw.
- destruct (Hvisit w s Hinv) as (s1 & E1 & Hinv1 & Ht1 & Hp1 & Hw1 & Hd1);
    [apply HU; left | done |].
  destruct (IH s1 Hinv1) as (s' & E' & Hinv' & Ht' & Hp' & Hw' & Hd').
  { intros x Hx. apply HU. by right. }
  { by rewrite Ht1. }
  exists s'. simpl. rewrite E1. split_and!; try done.
  + congruence.
  + by etrans.
  + intros x [->|Hx]%elem_of_cons.
    * destruct Hw1 as [Hv|Hv]; [left|by right].
      by apply (visited_mono s1 s').
    * rewrite <- Ht1. by apply Hw'.
  + intros Hac Hreach Hdf. apply Hd'; [done| |].
    * intros x t Hx Ht. apply Hreach; [by right|]. by rewrite <- Ht1.
    * apply Hd1; [done| |done]. intros t Ht. apply Hreach; [left|done].
Qed.

Lemma visit_correct (fuel : nat) (node : string) (s : dfs) :
  dfs_inv s -> node ∈ graph_nodes graph ->
  size (graph_nodes graph ∖ temp_visited s) < fuel ->
  exists s', visit fuel graph node s = Some s' /\ visit_post node s s'.
Proof.
revert node s. induction fuel as [|fuel IH]; intros node s Hinv HU Hsz; [lia|].
simpl. case_bool_decide as Hv.
{ exists s. split; [done|]. split_and!; try done. by left. }
case_bool_decide as Ht.
{ exists s. split; [done|]. split_and!; try done. by right. }
destruct Hinv as (Hnd & Hset & Hdisj & Hsub).
set (s1 := {| result := result s; visited := visited s;
              temp_visited := {[node]} ∪ temp_visited s |}).
assert (dfs_inv s1) as Hinv1.
{ split_and!; try done. simpl. set_solver. }
destruct (visit_loop fuel IH (neighbors graph node) s1 Hinv1)
  as (s2 & E2 & Hinv2 & Ht2 & Hp2 & Hw2 & Hd2).
{ intros w Hw. by apply (neighbors_in_nodes node). }
{ simpl. by apply measure_step. }
rewrite E2. simpl. eexists. split; [done|].
destruct Hinv2 as (Hnd2 & Hset2 & Hdisj2 & Hsub2).
simpl in Ht2, Hp2, Hw2, Hd2.
assert (node ∉ result s2) as Hfresh.
{ intros Hin. apply (Hdisj2 node); [|set_solver].
  rewrite Hset2. by apply elem_of_list_to_set. }
unfold visit_post. simpl. split_and!.
- split_and!; simpl.
  + apply NoDup_app. split_and!; [done| |apply NoDup_singleton].
    intros x Hx ->%list_elem_of_singleton. done.
  + rewrite list_to_set_app_L, Hset2. set_solver.
  + set_solver.
  + set_solver.
- rewrite Ht2. set_solver.
- etrans; [done|]. by apply prefix_app_r.
- left. set_solver.
- intros Hac Hreach Hdf. apply dependencies_first_snoc; [done| |].
  + apply Hd2; [done| |done].
    intros w t Hw [->%elem_of_singleton|Ht']%elem_of_union.
    * by apply rtc_once.
    * eapply rtc_r; [by apply Hreach|done].
  + intros w Hw. destruct (Hw2 w Hw) as [Hin|Hin].
    * rewrite Hset2 in Hin. by apply elem_of_list_to_set in Hin.
    * exfalso. apply (Hac node).
      apply (tc_rtc_r _ w); [by apply tc_once|].
      apply elem_of_union in Hin as [->%elem_of_singleton|Ht']; [done|].
      by apply Hreach.
Qed.

Lemma visit_all_correct (fuel : nat) (nodes : list string) (s : dfs) :
  size (graph_nodes graph) < fuel ->
  dfs_inv s -> temp_visited s = ∅ ->
  (forall v, v ∈ nodes -> v ∈ graph_nodes graph) ->
  exists s',
    visit_all fuel graph nodes s = Some s' /\
    dfs_inv s' /\ temp_visited s' = ∅ /\
    result s `prefix_of` result s' /\
    (forall v, v ∈ nodes -> v ∈ visited s') /\
    (acyclic -> dependencies_first (result s) -> dependencies_first (result s')).
Proof.
intros Hfuel. revert s. unfold visit_all.
induction nodes as [|v nodes IH]; intros s Hinv Ht HU.
- exists s. split_and!; try done. intros v Hv. by apply elem_of_nil in Hv.
- assert (exists s1, (if bool_decide (v ∈ visited s) then Some s
                      else visit fuel graph v s) = Some s1 /\ visit_post v s s1)
    as (s1 & E1 & Hinv1 & Ht1 & Hp1 & Hv1 & Hd1).
  { case_bool_decide as Hv.
    - exists s. split; [done|]. split_and!; try done. by left.
    - apply visit_correct; [done|apply HU; left|].
      rewrite Ht, difference_empty_L. done. }
  destruct (IH s1 Hinv1) as (s' & E' & Hinv' & Ht' & Hp' & Hv' & Hd').
  { by rewrite Ht1. }
  { intros x Hx. apply HU. by right. }
  exists s'. simpl. rewrite E1. split_and!; try done.
  + by etrans.
  + intros x [->|Hx]%elem_of_cons; [|by apply Hv'].
    apply (visited_mono s1 s'); try done.
    destruct Hv1 as [?|Hv1]; [done|]. rewrite Ht in Hv1. set_solver.
  + intros Hac Hdf. apply Hd'; [done|]. apply Hd1; [done| |done].
    intros t Hin. rewrite Ht in Hin. set_solver.
Qed.

(** [_topological_sort] always returns: the fuel it hands to [visit] is
    enough.  The order has no repetition, holds every key of the graph and
    only nodes of the graph, and on an acyclic graph lists every node
    after all its dependencies. *)
Lemma topological_sort_correct :
  exists order,
    _topological_sort graph = Some order /\
    NoDup order /\
    (forall v, v ∈ dict_keys graph -> v ∈ order) /\
    (forall v, v ∈ order -> v ∈ graph_nodes graph) /\
    (acyclic -> dependencies_first order).
Proof.
destruct (visit_all_correct (S (size (graph_nodes graph))) (dict_keys graph) dfs_init)
  as (s' & E & (Hnd & Hset & _ & Hsub) & _ & _ & Hall & Hd).
- lia.
- split_and!; simpl; [constructor|done|set_solver|set_solver].
- done.
- apply keys_in_nodes.
- exists (result s'). unfold _topological_sort. rewrite E. split_and!; try done.
  + intros v Hv. apply Hall in Hv. rewrite Hset in Hv.
    by apply elem_of_list_to_set in Hv.
  + intros v Hv. apply Hsub. rewrite Hset. by apply elem_of_list_to_set.
  + intros Hac. apply Hd; [done|]. intros l1 v l2 E'. by destruct l1.
Qed.

End TopoFacts.

(** ** The dependency graph of the desired tables *)

Section GraphFacts.
Context `{D : Dialect}.

(** The table names of the desired set. *)
Definition table_names (tables : list (string * Table)) : list string :=
  t_name <$> dict_values tables.

(** Table [A] has a foreign key referencing table [B], and [B] is in the
    desired set. *)
Definition depends_on (tables : list (string * Table)) (A B : string) : Prop :=
  exists table fk,
    table ∈ dict_values tables /\ t_name table = A /\
    fk ∈ default [] (t_foreign_keys table) /\ fk_reference_table fk = B /\
    B ∈ table_names tables.

Lemma neighbors_graph_append (name x A : string) (g : list (string * list string)) :
  neighbors (graph_append name x g) A
  = if decide (A = name) then neighbors g name ++ [x] else neighbors g A.
Proof.
unfold neighbors, graph_append. rewrite dict_get_set.
by destruct (decide (A = name)) as [->|].
Qed.

Lemma keys_graph_append (name x : string) (g : list (string * list string)) :
  name ∈ dict_keys g -> dict_keys (graph_append name x g) = dict_keys g.
Proof. intros Hn. unfold graph_append. by apply dict_keys_set_mem. Qed.

(** The loop over the foreign keys of one table. *)
Lemma add_references_spec (name : string) (fks : list ForeignKey)
    (g : list (string * list string)) :
  name ∈ dict_keys g ->
  let g' := foldl (fun g fk =>
                     if dict_mem (fk_reference_table fk) g
                     then graph_append name (fk_reference_table fk) g else g)
                  g fks in
  dict_keys g' = dict_keys g /\
  forall A B, B ∈ neighbors g' A <->
    B ∈ neighbors g A \/
    (A = name /\ exists fk, fk ∈ fks /\ fk_reference_table fk = B /\ B ∈ dict_keys g).
Proof.
revert g. induction fks as [|fk fks IH]; intros g Hn; simpl.
- split; [done|]. intros A B. split; [by left|].
  intros [?|(_ & fk & Hfk & _)]; [done|]. by apply elem_of_nil in Hfk.
- destruct (dict_mem (fk_reference_table fk) g) eqn:M.
  + apply dict_mem_true in M.
    destruct (IH (graph_append name (fk_reference_table fk) g)) as [Hk Hn'].
    { by rewrite keys_graph_append. }
    rewrite keys_graph_append in Hk, Hn' by done.
    split; [done|]. intros A B. rewrite Hn', neighbors_graph_append.
    destruct (decide (A = name)) as [->|Hne].
    * rewrite elem_of_app, list_elem_of_singleton. split.
      -- intros [[?| ->]|(_ & fk' & Hfk' & Href & HB)]; [by left|right..].
         ++ split; [done|]. exists fk. split_and!; [left|done|done].
         ++ split; [done|]. exists fk'. split_and!; [by right|done|done].
      -- intros [?|(_ & fk' & [ ->|Hfk']%elem_of_cons & Href & HB)].
         ++ by left; left.
         ++ left; right. done.
         ++ right. split; [done|]. by exists fk'.
    * split.
      -- intros [?|(? & _)]; [by left|done].
      -- intros [?|(? & _)]; [by left|done].
  + apply dict_mem_false in M.
    destruct (IH g Hn) as [Hk Hn']. split; [done|].
    intros A B. rewrite Hn'. split.
    * intros [?|( -> & fk' & Hfk' & Href & HB)]; [by left|right].
      split; [done|]. exists fk'. split_and!; [by right|done|done].
    * intros [?|( -> & fk' & [ ->|Hfk']%elem_of_cons & Href & HB)]; [by left| |].
      -- by subst.
      -- right. split; [done|]. by exists fk'.
Qed.

(** The loop over the tables. *)
Lemma add_tables_spec (l : list Table) (g : list (string * list string)) :
  (forall t, t ∈ l -> t_name t ∈ dict_keys g) ->
  let g' :=
    foldl (fun g table =>
             if truthy (t_foreign_keys table) then
               foldl (fun g fk =>
                        if dict_mem (fk_reference_table fk) g
                        then graph_append (t_name table) (fk_reference_table fk) g
                        else g)
                     g (default [] (t_foreign_keys table))
             else g)
          g l in
  dict_keys g' = dict_keys g /\
  forall A B, B ∈ neighbors g' A <->
    B ∈ neighbors g A \/
    exists t fk, t ∈ l /\ t_name t = A /\ fk ∈ default [] (t_foreign_keys t) /\
                 fk_reference_table fk = B /\ B ∈ dict_keys g.
Proof.
revert g. induction l as [|t l IH]; intros g Hn; simpl.
- split; [done|]. intros A B. split; [by left|].
  intros [?|(t & fk & Ht & _)]; [done|]. by apply elem_of_nil in Ht.
- assert (exists g1,
    (if truthy (t_foreign_keys t) then
       foldl (fun g fk =>
                if dict_mem (fk_reference_table fk) g
                then graph_append (t_name t) (fk_reference_table fk) g else g)
             g (default [] (t_foreign_keys t))
     else g) = g1 /\
    dict_keys g1 = dict_keys g /\
    forall A B, B ∈ neighbors g1 A <->
      B ∈ neighbors g A \/
      (A = t_name t /\ exists fk, fk ∈ default [] (t_foreign_keys t) /\
                       fk_reference_table fk = B /\ B ∈ dict_keys g))
    as (g1 & -> & Hk1 & Hn1).
  { eexists. split; [done|]. destruct (truthy (t_foreign_keys t)) eqn:T.
    - apply add_references_spec. apply Hn. left.
    - split; [done|]. intros A B. split; [by left|].
      intros [?|(_ & fk & Hfk & _)]; [done|].
      destruct (t_foreign_keys t) as [[|]|]; try done; by apply elem_of_nil in Hfk. }
  destruct (IH g1) as [Hk Hn'].
  { intros t' Ht'. rewrite Hk1. apply Hn. by right. }
  rewrite Hk1 in Hk. split; [done|].
  intros A B. rewrite Hn', Hn1, Hk1. split.
  + intros [[?|(-> & fk & Hfk & Href & HB)]|(t' & fk & Ht' & Hname & Hfk & Href & HB)].
    * by left.
    * right. exists t, fk. split_and!; try done. left.
    * right. exists t', fk. split_and!; try done. by right.
  + intros [?|(t' & fk & [->|Ht']%elem_of_cons & Hname & Hfk & Href & HB)].
    * by left; left.
    * left; right. split; [done|]. by exists fk.
    * right. by exists t', fk.
Qed.

Lemma init_graph_spec (l : list Table) (g : list (string * list string)) :
  NoDup (dict_keys g) -> (forall k, neighbors g k = []) ->
  let g' := foldl (fun g table => dict_set (t_name table) [] g) g l in
  NoDup (dict_keys g') /\ (forall k, neighbors g' k = []) /\
  forall x, x ∈ dict_keys g' <-> x ∈ dict_keys g \/ x ∈ t_name <$> l.
Proof.
revert g. induction l as [|t l IH]; intros g Hnd He; simpl.
- split_and!; try done. intros x. split; [by left|].
  intros [?|Hx]; [done|]. by apply elem_of_nil in Hx.
- destruct (IH (dict_set (t_name t) [] g)) as (Hnd' & He' & Hk').
  { by apply dict_set_NoDup. }
  { intros k. unfold neighbors. rewrite dict_get_set.
    destruct (decide (k = t_name t)); [done|]. apply He. }
  split_and!; try done. intros x. rewrite Hk', dict_keys_set. csimpl.
  rewrite elem_of_cons. case_decide as Hin.
  + naive_solver.
  + rewrite elem_of_app, list_elem_of_singleton. naive_solver.
Qed.

Lemma ensure_keys_noop (l : list Table) (g : list (string * list string)) :
  (forall t, t ∈ l -> t_name t ∈ dict_keys g) ->
  foldl (fun g table =>
           if dict_mem (t_name table) g then g else dict_set (t_name table) [] g)
        g l = g.
Proof.
induction l as [|t l IH]; intros Hn; simpl; [done|].
assert (dict_mem (t_name t) g = true) as ->.
{ apply dict_mem_true, Hn. left. }
apply IH. intros t' Ht'. apply Hn. by right.
Qed.

(** [_build_dependency_graph]: one key per table name, and an edge for
    exactly the foreign keys that reference a table of the desired set. *)
Lemma build_dependency_graph_spec (tables : list (string * Table)) :
  let graph := _build_dependency_graph tables in
  NoDup (dict_keys graph) /\
  (forall x, x ∈ dict_keys graph <-> x ∈ table_names tables) /\
  (forall A B, edge graph A B <-> depends_on tables A B) /\
  (forall x, x ∈ graph_nodes graph <-> x ∈ table_names tables).
Proof.
cbv zeta. unfold _build_dependency_graph.
destruct (init_graph_spec (dict_values tables) []) as (Hnd & He & Hk);
  [constructor|done|].
set (g1 := foldl (fun g table => dict_set (t_name table) [] g) [] (dict_values tables))
  in *.
assert (forall x, x ∈ dict_keys g1 <-> x ∈ table_names tables) as Hk1.
{ intros x. rewrite Hk. unfold table_names. split; [|by right].
  intros [Hx|?]; [|done]. by apply elem_of_nil in Hx. }
assert (forall t, t ∈ dict_values tables -> t_name t ∈ dict_keys g1) as Hnames.
{ intros t Ht. apply Hk1. unfold table_names. by apply list_elem_of_fmap_2. }
rewrite ensure_keys_noop by done.
destruct (add_tables_spec (dict_values tables) g1 Hnames) as [Hk3 Hn3].
cbv zeta in Hk3, Hn3.
set (graph := foldl _ g1 (dict_values tables)) in *.
assert (forall A B, edge graph A B <-> depends_on tables A B) as Hedge.
{ intros A B. unfold edge, depends_on. rewrite Hn3, He. split.
  - intros [Hx|(t & fk & Ht & Hname & Hfk & Href & HB)]; [by apply elem_of_nil in Hx|].
    exists t, fk. split_and!; try done. by apply Hk1.
  - intros (t & fk & Ht & Hname & Hfk & Href & HB). right.
    exists t, fk. split_and!; try done. by apply Hk1. }
split_and!.
- by rewrite Hk3.
- intros x. by rewrite Hk3.
- done.
- intros x. unfold graph_nodes. rewrite elem_of_list_to_set, elem_of_app, Hk3, Hk1.
  split; [|by left]. intros [?|Hx]; [done|].
  apply list_elem_of_In, in_concat in Hx as (l & Hl & Hx).
  apply list_elem_of_In in Hl, Hx. unfold dict_values in Hl.
  apply list_elem_of_fmap in Hl as ([k l'] & -> & Hkl). simpl in Hx.
  assert (edge graph k x) as Hkx.
  { unfold edge, neighbors. rewrite (elem_of_dict_get k l' graph); [done| |done].
    by rewrite Hk3. }
  apply Hedge in Hkx as (t & fk & _ & _ & _ & _ & HB). done.
Qed.

Lemma before_of_dependencies_first (order : list string) (A B : string)
    (graph : list (string * list string)) :
  dependencies_first graph order -> A ∈ order -> edge graph A B ->
  exists l1 l2 l3, order = l1 ++ B :: l2 ++ A :: l3.
Proof.
intros Hdf HA Hedge.
apply list_elem_of_split in HA as (l1 & l3 & ->).
pose proof (Hdf l1 A l3 eq_refl B Hedge) as HB.
apply list_elem_of_split in HB as (k1 & k2 & ->).
exists k1, k2, l3. by rewrite <- app_assoc.
Qed.

(** Claim C7.  When the foreign keys among the desired tables form no
    cycle, [_topological_sort] applied to [_build_dependency_graph]
    returns an order that lists each desired table name exactly once and
    nothing else, and in which every referenced table [B] stands before
    every table [A] that references it. *)
Theorem topological_sort_dependencies_first (tables : list (string * Table)) :
  (forall A, ~ tc (depends_on tables) A A) ->
  exists order,
    _topological_sort (_build_dependency_graph tables) = Some order /\
    NoDup order /\
    (forall x, x ∈ order <-> x ∈ table_names tables) /\
    order ≡ₚ remove_dups (table_names tables) /\
    (forall A B, depends_on tables A B ->
       exists l1 l2 l3, order = l1 ++ B :: l2 ++ A :: l3).
Proof.
intros Hacyclic.
destruct (build_dependency_graph_spec tables) as (Hnd & Hkeys & Hedge & Hnodes).
destruct (topological_sort_correct (_build_dependency_graph tables))
  as (order & E & Hndo & Hall & Hsub & Hdf).
assert (forall x, x ∈ order <-> x ∈ table_names tables) as Hiff.
{ intros x. split.
  - intros Hx. by apply Hnodes, Hsub.
  - intros Hx. by apply Hall, Hkeys. }
exists order. split_and!; try done.
- apply NoDup_Permutation; [done|apply NoDup_remove_dups|].
  intros x. by rewrite Hiff, elem_of_remove_dups.
- intros A B HAB.
  apply (before_of_dependencies_first order A B (_build_dependency_graph tables)).
  + apply Hdf. intros v Hv. apply (Hacyclic v).
    eapply tc_congruence with (f := id); [|exact Hv].
    intros x y Hxy. by apply Hedge.
  + apply Hiff. destruct HAB as (t & fk & Ht & <- & _).
    unfold table_names. by apply list_elem_of_fmap_2.
  + by apply Hedge.
Qed.

End GraphFacts.

Lemma ranked_acyclic {A} (R : relation A) (rank : A -> nat) :
  (forall x y, R x y -> rank y < rank x) -> forall x, ~ tc R x x.
Proof.
intros Hrank.
assert (forall x y, tc R x y -> rank y < rank x) as Htc.
{ intros x y H. induction H as [x y H|x y z H _ IH].
  - by apply Hrank.
  - apply Hrank in H. lia. }
intros x Hx. apply Htc in Hx. lia.
Qed.

(** ** A running example: the tables of the starter model *)

(** [users], [posts] referencing [users], and [comments] referencing
    [posts] and [users], as the [model] command writes them (columns
    abridged). *)
Definition blog_column (name type : string) : Column :=
  {| col_name := name; col_type := type; col_nullable := false; col_default := None |}.

Definition blog_fk (column table : string) : ForeignKey :=
  {| fk_columns := [column]; fk_reference_table := table;
     fk_reference_columns := ["id"]; fk_on_delete := "CASCADE";
     fk_on_update := "CASCADE" |}.

Definition blog_users `{D : Dialect} (c : conn) : Table :=
  {| t_name := "users"; t_conn := c;
     t_columns := [blog_column "id" "UUID"; blog_column "email" "VARCHAR(255)"];
     t_primary_key := ["id"]; t_foreign_keys := None;
     t_resource_id := "users_table" |}.

Definition blog_posts `{D : Dialect} (c : conn) : Table :=
  {| t_name := "posts"; t_conn := c;
     t_columns := [blog_column "id" "UUID"; blog_column "user_id" "UUID"];
     t_primary_key := ["id"];
     t_foreign_keys := Some [blog_fk "user_id" "users"];
     t_resource_id := "posts_table" |}.

Definition blog_comments `{D : Dialect} (c : conn) : Table :=
  {| t_name := "comments"; t_conn := c;
     t_columns := [blog_column "id" "UUID"; blog_column "post_id" "UUID";
                   blog_column "user_id" "UUID"];
     t_primary_key := ["id"];
     t_foreign_keys := Some [blog_fk "post_id" "posts"; blog_fk "user_id" "users"];
     t_resource_id := "comments_table" |}.

Definition blog_tables `{D : Dialect} (c : conn) : list (string * Table) :=
  [ ("users_table", blog_users c); ("posts_table", blog_posts c);
    ("comments_table", blog_comments c) ].

Definition blog_rank (name : string) : nat :=
  if decide (name = "users") then 0
  else if decide (name = "posts") then 1 else 2.

Lemma blog_tables_acyclic `{D : Dialect} (c : conn) (A : string) :
  ~ tc (depends_on (blog_tables c)) A A.
Proof.
apply (ranked_acyclic _ blog_rank).
intros x y (t & fk & Ht & <- & Hfk & <- & _).
unfold blog_tables, dict_values in Ht. simpl in Ht.
set_unfold in Ht. destruct Ht as [->|[->|[->|[]]]]; simpl in Hfk; set_unfold in Hfk.
- done.
- destruct Hfk as [->|[]]. vm_compute. lia.
- destruct Hfk as [->|[->|[]]]; vm_compute; lia.
Qed.

Lemma topological_sort_dependencies_first_witness :
  (forall A, ~ tc (depends_on (blog_tables diff_conn)) A A) /\
  exists order,
    _topological_sort (_build_dependency_graph (blog_tables diff_conn)) = Some order /\
    NoDup order /\
    (forall x, x ∈ order <-> x ∈ table_names (blog_tables diff_conn)) /\
    order ≡ₚ remove_dups (table_names (blog_tables diff_conn)) /\
    (forall A B, depends_on (blog_tables diff_conn) A B ->
       exists l1 l2 l3, order = l1 ++ B :: l2 ++ A :: l3).
Proof.
split.
- apply blog_tables_acyclic.
- apply (topological_sort_dependencies_first (blog_tables diff_conn)).
  apply blog_tables_acyclic.
Defined.

(** On the example the order is [users], [posts], [comments]. *)
Example topological_sort_blog :
  _topological_sort (_build_dependency_graph (blog_tables diff_conn))
  = Some ["users"; "posts"; "comments"].
Proof. by vm_compute. Qed.

(** ** Planner *)

Section PlanFacts.
Context `{D : Dialect}.

(** Every recorded descriptor is a complete table descriptor, as
    [Table.to_dict] writes them. *)
Definition recorded_complete (w : World) : Prop :=
  forall resource_id d,
    dict_get resource_id (st_resources w) = Some d ->
    is_Some (Table_from_dict resource_id d).

Lemma Table_from_dict_nonempty (resource_id : string) (d : TableD) (t : Table) :
  Table_from_dict resource_id d = Some t -> TableD_nonempty d = true.
Proof.
intros E. unfold TableD_nonempty. destruct (d_name d) eqn:N.
- simpl. by rewrite orb_true_r.
- exfalso. unfold Table_from_dict in E. rewrite N in E.
  destruct (d_columns d ≫= mapM Column_from_dict); simpl in E; [|done].
  by destruct (match d_foreign_keys d with Some _ => _ | None => _ end).
Qed.

Lemma present_complete (w : World) (resource_id : string) :
  recorded_complete w ->
  present (get_resource resource_id w) = get_resource resource_id w.
Proof.
intros Hw. unfold present, get_resource.
destruct (dict_get resource_id (st_resources w)) as [d|] eqn:E; [|done].
destruct (Hw _ _ E) as [t Ht]. by rewrite (Table_from_dict_nonempty _ _ _ Ht).
Qed.

(** What the first loop of [plan] decides for one desired table. *)
Definition desired_change (w : World) (resource_id : string) (table : Table)
    : option change :=
  match get_resource resource_id w with
  | None => Some (Create table)
  | Some d =>
      match Table_from_dict resource_id d with
      | Some old =>
          if Changes_nonempty (_compare_tables old table)
          then Some (Update table (_compare_tables old table)) else None
      | None => None
      end
  end.

Lemma plan_desired_loop (w : World) (l : list (string * Table))
    (changes : list (string * change)) :
  recorded_complete w -> NoDup (dict_keys l) -> NoDup (dict_keys changes) ->
  (forall k, k ∈ dict_keys l -> k ∉ dict_keys changes) ->
  exists changes',
    foldl (plan_desired w) (Some changes) l = Some changes' /\
    NoDup (dict_keys changes') /\
    forall k, dict_get k changes' =
      match dict_get k l with
      | Some table => desired_change w k table
      | None => dict_get k changes
      end.
Proof.
intros Hw. revert changes.
induction l as [|[rid table] l IH]; intros changes Hl Hc Hfresh.
- by exists changes.
- simpl in Hl. apply NoDup_cons in Hl as [Hrid Hl].
  assert (exists c1,
    plan_desired w (Some changes) (rid, table) = Some c1 /\
    NoDup (dict_keys c1) /\
    (forall k, k ∈ dict_keys c1 -> k = rid \/ k ∈ dict_keys changes) /\
    forall k, dict_get k c1 =
      if decide (k = rid) then desired_change w rid table else dict_get k changes)
    as (c1 & E1 & Hc1 & Hk1 & Hg1).
  { unfold plan_desired, desired_change. simpl.
    rewrite present_complete by done.
    assert (dict_get rid changes = None) as Hnone.
    { apply dict_get_None, Hfresh. left. }
    destruct (get_resource rid w) as [d|] eqn:G.
    - destruct (Hw rid d G) as [old ->]. simpl.
      destruct (Changes_nonempty (_compare_tables old table)).
      + eexists. split; [done|]. split_and!.
        * by apply dict_set_NoDup.
        * intros k. rewrite dict_keys_set. case_decide; [by right|].
          rewrite elem_of_app, list_elem_of_singleton. tauto.
        * intros k. apply dict_get_set.
      + exists changes. split_and!; try done; [by right|].
        intros k. by destruct (decide (k = rid)) as [->|].
    - eexists. split; [done|]. split_and!.
      + by apply dict_set_NoDup.
      + intros k. rewrite dict_keys_set. case_decide; [by right|].
        rewrite elem_of_app, list_elem_of_singleton. tauto.
      + intros k. apply dict_get_set. }
  destruct (IH c1 Hl Hc1) as (changes' & E' & Hc' & Hg').
  { intros k Hk Hk'. apply Hk1 in Hk' as [->|Hk']; [done|].
    apply (Hfresh k); [by right|done]. }
  exists changes'. simpl in *. rewrite E1. split_and!; try done.
  intros k. rewrite Hg', Hg1.
  destruct (decide (k = rid)) as [->|Hne]; [|done].
  assert (dict_get rid l = None) as ->; [|done].
  by apply dict_get_None.
Qed.

Lemma plan_recorded_loop (tables : list (string * Table)) (w : World)
    (keys : list string) (changes : list (string * change)) :
  recorded_complete w -> NoDup (dict_keys changes) ->
  let changes' := foldl (plan_recorded tables w) changes keys in
  NoDup (dict_keys changes') /\
  forall k, dict_get k changes' =
    if bool_decide (k ∈ keys) && negb (dict_mem k tables) then
      match get_resource k w with
      | Some d => Some (Delete (default k (d_name d)))
      | None => dict_get k changes
      end
    else dict_get k changes.
Proof.
intros Hw. revert changes. induction keys as [|rid keys IH]; intros changes Hc; cbn [foldl].
- split; [done|]. intros k. by rewrite bool_decide_eq_false_2 by apply not_elem_of_nil.
- set (c1 := plan_recorded tables w changes rid).
  assert (NoDup (dict_keys c1) /\
          forall k, dict_get k c1 =
            if decide (k = rid) then
              if negb (dict_mem rid tables) then
                match get_resource rid w with
                | Some d => Some (Delete (default rid (d_name d)))
                | None => dict_get rid changes
                end
              else dict_get rid changes
            else dict_get k changes) as [Hc1 Hg1].
  { subst c1. unfold plan_recorded. rewrite present_complete by done.
    destruct (dict_mem rid tables); simpl.
    - split; [done|]. intros k. by destruct (decide (k = rid)) as [->|].
    - destruct (get_resource rid w) as [d|].
      + split; [by apply dict_set_NoDup|]. intros k. apply dict_get_set.
      + split; [done|]. intros k. by destruct (decide (k = rid)) as [->|]. }
  destruct (IH c1 Hc1) as [Hc' Hg']. split; [done|].
  intros k. rewrite Hg', Hg1.
  destruct (decide (k = rid)) as [->|Hne].
  + rewrite (bool_decide_eq_true_2 (rid ∈ rid :: keys)) by left. simpl.
    destruct (bool_decide (rid ∈ keys)), (dict_mem rid tables); simpl; try done;
      by destruct (get_resource rid w).
  + assert (bool_decide (k ∈ rid :: keys) = bool_decide (k ∈ keys)) as ->; [|done].
    apply bool_decide_ext. rewrite elem_of_cons. tauto.
Qed.

Lemma Table_from_dict_name (resource_id : string) (d : TableD) (t : Table) :
  Table_from_dict resource_id d = Some t -> d_name d = Some (t_name t).
Proof.
unfold Table_from_dict. intros E.
destruct (d_columns d ≫= mapM Column_from_dict); simpl in E; [|done].
destruct (match d_foreign_keys d with Some _ => _ | None => _ end); simpl in E; [|done].
destruct (d_name d); simpl in E; [|done].
destruct (conn_from_dict (d_conn d)); simpl in E; [|done].
destruct (d_primary_key d); simpl in E; [|done].
by injection E as <-.
Qed.

(** The plan as a function of the resource id. *)
Lemma plan_lookup (tables : list (string * Table)) (w : World) :
  NoDup (dict_keys tables) -> recorded_complete w ->
  exists changes,
    plan tables w = Some changes /\ NoDup (dict_keys changes) /\
    forall k, dict_get k changes =
      match dict_get k tables with
      | Some table => desired_change w k table
      | None =>
          match get_resource k w with
          | Some d => Some (Delete (default k (d_name d)))
          | None => None
          end
      end.
Proof.
intros Ht Hw. unfold plan.
destruct (plan_desired_loop w tables [] Hw Ht) as (c1 & E1 & Hc1 & Hg1).
{ constructor. }
{ intros k _. apply not_elem_of_nil. }
rewrite E1. simpl.
destruct (plan_recorded_loop tables w (dict_keys (st_resources w)) c1 Hw Hc1)
  as [Hc2 Hg2].
eexists. split; [done|]. split; [done|].
intros k. rewrite Hg2, Hg1. unfold dict_mem.
destruct (dict_get k tables) as [table|] eqn:T.
- rewrite (bool_decide_eq_true_2 (is_Some (Some table))) by eauto.
  simpl. by rewrite andb_false_r.
- rewrite (bool_decide_eq_false_2 (is_Some None)) by (by intros [? ?]).
  simpl. rewrite andb_true_r. unfold get_resource.
  case_bool_decide as Hk.
  + by destruct (dict_get k (st_resources w)).
  + assert (dict_get k (st_resources w) = None) as ->; [|done].
    by apply dict_get_None.
Qed.

(** Claim C6.  With pairwise distinct resource ids in the desired map and
    a state whose entries are complete table descriptors, [plan] returns,
    and its output holds for a resource id exactly: a Create when the
    resource is desired and not recorded; an Update carrying the delta
    when it is desired and the recorded descriptor, read back into a
    table, differs from the desired table (and nothing when the delta is
    empty); a Delete when it is recorded and not desired. *)
Theorem plan_exact (tables : list (string * Table)) (w : World) :
  NoDup (dict_keys tables) -> recorded_complete w ->
  exists changes,
    plan tables w = Some changes /\ NoDup (dict_keys changes) /\
    forall resource_id c,
      dict_get resource_id changes = Some c <->
      (exists table,
         dict_get resource_id tables = Some table /\
         dict_get resource_id (st_resources w) = None /\
         c = Create table) \/
      (exists table d old,
         dict_get resource_id tables = Some table /\
         dict_get resource_id (st_resources w) = Some d /\
         Table_from_dict resource_id d = Some old /\
         _compare_tables old table ≠ no_changes /\
         c = Update table (_compare_tables old table)) \/
      (exists d name,
         dict_get resource_id tables = None /\
         dict_get resource_id (st_resources w) = Some d /\
         d_name d = Some name /\
         c = Delete name).
Proof.
intros Ht Hw. destruct (plan_lookup tables w Ht Hw) as (changes & E & Hc & Hg).
exists changes. split; [done|]. split; [done|].
intros rid c. rewrite Hg. unfold desired_change, get_resource, Changes_nonempty.
destruct (dict_get rid tables) as [table|] eqn:T.
- destruct (dict_get rid (st_resources w)) as [d|] eqn:R.
  + destruct (Hw rid d R) as [old Hold]. rewrite Hold.
    case_bool_decide as Hdelta.
    * split.
      -- intros [= <-]. right; left. by exists table, d, old.
      -- intros [(? & _ & ? & _)|[(t' & d' & old' & ? & ? & ? & _ & ->)|(? & ? & ? & _)]];
           [done| |done].
         by simplify_eq.
    * split; [done|].
      intros [(? & _ & ? & _)|[(t' & d' & old' & ? & ? & ? & Hne & ->)|(? & ? & ? & _)]];
        [done| |done].
      by simplify_eq.
  + split.
    * intros [= <-]. left. by exists table.
    * intros [(t' & ? & _ & ->)|[(? & ? & ? & _ & ? & _)|(? & ? & ? & _)]];
        [|done|done].
      by simplify_eq.
- destruct (dict_get rid (st_resources w)) as [d|] eqn:R.
  + destruct (Hw rid d R) as [old Hold].
    apply Table_from_dict_name in Hold as Hname. rewrite Hname. simpl.
    split.
    * intros [= <-]. right; right. by exists d, (t_name old).
    * intros [(? & ? & _)|[(? & ? & ? & ? & _)|(d' & name & _ & ? & ? & ->)]];
        [done|done|].
      by simplify_eq.
  + split; [done|].
    intros [(? & ? & _)|[(? & ? & ? & ? & _)|(d' & name & _ & ? & _)]]; done.
Qed.

End PlanFacts.

(** A recorded state for the example: [users] as desired, [posts] from
    before its [user_id] column and foreign key were added, nothing for
    [comments], and a [legacy] table that is no longer desired. *)
Definition blog_posts_before `{D : Dialect} (c : conn) : Table :=
  {| t_name := "posts"; t_conn := c;
     t_columns := [blog_column "id" "UUID"];
     t_primary_key := ["id"]; t_foreign_keys := None;
     t_resource_id := "posts_table" |}.

Definition blog_legacy `{D : Dialect} (c : conn) : Table :=
  {| t_name := "legacy"; t_conn := c;
     t_columns := [blog_column "id" "UUID"];
     t_primary_key := ["id"]; t_foreign_keys := None;
     t_resource_id := "legacy_table" |}.

Definition blog_world `{D : Dialect} (c : conn) : World :=
  {| st_resources :=
       [ ("users_table", Table_to_dict (blog_users c));
         ("posts_table", Table_to_dict (blog_posts_before c));
         ("legacy_table", Table_to_dict (blog_legacy c)) ];
     log := [] |}.

Lemma blog_world_complete `{D : Dialect} (c : conn) : recorded_complete (blog_world c).
Proof.
intros rid d. unfold blog_world. simpl.
repeat case_decide; try done; intros [= <-]; rewrite Table_from_to_dict; eauto.
Qed.

Lemma blog_tables_keys `{D : Dialect} (c : conn) : NoDup (dict_keys (blog_tables c)).
Proof. unfold blog_tables, dict_keys. simpl. decide_by_vm. Qed.

Lemma plan_exact_witness :
  (NoDup (dict_keys (blog_tables diff_conn)) /\
   recorded_complete (blog_world diff_conn)) /\
  exists changes,
    plan (blog_tables diff_conn) (blog_world diff_conn) = Some changes /\
    NoDup (dict_keys changes) /\
    forall resource_id c,
      dict_get resource_id changes = Some c <->
      (exists table,
         dict_get resource_id (blog_tables diff_conn) = Some table /\
         dict_get resource_id (st_resources (blog_world diff_conn)) = None /\
         c = Create table) \/
      (exists table d old,
         dict_get resource_id (blog_tables diff_conn) = Some table /\
         dict_get resource_id (st_resources (blog_world diff_conn)) = Some d /\
         Table_from_dict resource_id d = Some old /\
         _compare_tables old table ≠ no_changes /\
         c = Update table (_compare_tables old table)) \/
      (exists d name,
         dict_get resource_id (blog_tables diff_conn) = None /\
         dict_get resource_id (st_resources (blog_world diff_conn)) = Some d /\
         d_name d = Some name /\
         c = Delete name).
Proof.
split.
- split; [apply blog_tables_keys | apply blog_world_complete].
- apply (plan_exact (blog_tables diff_conn) (blog_world diff_conn)).
  + apply blog_tables_keys.
  + apply blog_world_complete.
Defined.

(** On the example: an update of [posts], the creation of [comments], the
    deletion of [legacy], and nothing for [users]. *)
Example plan_blog :
  plan (blog_tables diff_conn) (blog_world diff_conn)
  = Some [ ("posts_table",
            Update (blog_posts diff_conn)
              {| add_columns := Some [blog_column "user_id" "UUID"];
                 modify_columns := None; remove_columns := None;
                 modify_primary_key := None;
                 add_foreign_keys := Some [blog_fk "user_id" "users"];
                 remove_foreign_keys := None |});
           ("comments_table", Create (blog_comments diff_conn));
           ("legacy_table", Delete "legacy") ].
Proof. by vm_compute. Qed.

(** ** Configuration loader *)

Section LoaderFacts.
Context `{D : Dialect}.

(** The invariants of the data model (section 3 of the specification). *)
Definition table_invariants (t : Table) : Prop :=
  NoDup (col_name <$> t_columns t) /\
  (forall k, k ∈ t_primary_key t -> k ∈ col_name <$> t_columns t) /\
  (forall fk, fk ∈ default [] (t_foreign_keys t) ->
     (forall k, k ∈ fk_columns fk -> k ∈ col_name <$> t_columns t) /\
     length (fk_reference_columns fk) = length (fk_columns fk)).










End LoaderFacts.






(** ** Reconciler: the run as a list of jobs *)

Section ReconcilerFacts.
Context `{D : Dialect}.
Context (backend : list event -> conn -> op -> bool).
Context (environ : gmap string string).

(** One iteration of a phase loop that found an action for its table. *)
Inductive job :=
| AlterJob (resource_id : string) (table : Table) (changes : Changes)
| CreateJob (resource_id : string) (table : Table)
| DropJob (resource_id : string) (table_name : string).

Definition job_rid (j : job) : string :=
  match j with
  | AlterJob rid _ _ | CreateJob rid _ | DropJob rid _ => rid
  end.

Definition run_job (j : job) (w : World) : option World :=
  match j with
  | AlterJob rid table table_changes =>
      let c := resolve_conn environ (t_conn table) in
      let '(ok, w) := with_client backend rid c (AlterTable table table_changes) w in
      Some (if ok then add_resource rid (Table_to_dict table) w else w)
  | CreateJob rid table =>
      let c := resolve_conn environ (t_conn table) in
      let '(ok, w) := with_client backend rid c (CreateTable table) w in
      Some (if ok then add_resource rid (Table_to_dict table) w else w)
  | DropJob rid table_name =>
      current_state ← get_resource rid w;
      c ← conn_from_dict (d_conn current_state);
      let c := resolve_conn environ c in
      let '(ok, w) := with_client backend rid c (DropTable table_name) w in
      Some (if ok then remove_resource rid w else w)
  end.

Definition run_jobs (jobs : list job) (w : World) : option World :=
  foldl (fun acc j => acc ≫= run_job j) (Some w) jobs.

(** What a job that succeeds does to the recorded resources. *)
Definition job_effect (j : job) (resources : list (string * TableD))
    : list (string * TableD) :=
  match j with
  | AlterJob rid table _ | CreateJob rid table =>
      dict_set rid (Table_to_dict table) resources
  | DropJob rid _ => dict_del rid resources
  end.

(** The resources a trace attempted, in order: each attempt starts with a
    connection when the client connects, with the operation otherwise. *)
Definition attempted (evs : list event) : list string :=
  omap (fun e =>
          match e with
          | Call rid _ o _ =>
              if connects then match o with Connect => Some rid | _ => None end
              else Some rid
          | SaveState _ => None
          end) evs.

Definition call_of (rid : string) (e : event) : Prop :=
  exists c o ok, e = Call rid c o ok.

Definition failed_call_of (rid : string) (e : event) : Prop :=
  exists c o, e = Call rid c o false.

Definition succeeded (e : event) : Prop :=
  match e with Call _ _ _ ok => ok = true | SaveState _ => True end.

Lemma with_client_spec (rid : string) (c : conn) (o : op) (w : World) :
  o ≠ Connect ->
  exists ok evs,
    with_client backend rid c o w
      = (ok, {| st_resources := st_resources w; log := log w ++ evs |}) /\
    Forall (call_of rid) evs /\ attempted evs = [rid] /\
    (ok = true -> Forall succeeded evs) /\
    (ok = false -> Exists (failed_call_of rid) evs).
Proof.
intros Ho. unfold with_client, call, attempted. destruct connects eqn:C.
- simpl. destruct (backend (log w) c Connect) eqn:B1.
  + simpl. destruct (backend (log w ++ [Call rid c Connect true]) c o) eqn:B2.
    * exists true, [Call rid c Connect true; Call rid c o true].
      rewrite <- app_assoc. simpl. split_and!; try done.
      -- repeat constructor; by eexists _, _, _.
      -- by destruct o.
      -- intros _. by repeat constructor.
    * exists false, [Call rid c Connect true; Call rid c o false].
      rewrite <- app_assoc. simpl. split_and!; try done.
      -- repeat constructor; by eexists _, _, _.
      -- by destruct o.
      -- intros _. apply Exists_cons_tl, Exists_cons_hd. by eexists _, _.
  + exists false, [Call rid c Connect false]. split_and!; try done.
    * repeat constructor. by eexists _, _, _.
    * intros _. apply Exists_cons_hd. by eexists _, _.
- destruct (backend (log w) c o) eqn:B.
  + exists true, [Call rid c o true]. split_and!; try done.
    * repeat constructor. by eexists _, _, _.
    * intros _. by repeat constructor.
  + exists false, [Call rid c o false]. split_and!; try done.
    * repeat constructor. by eexists _, _, _.
    * intros _. apply Exists_cons_hd. by eexists _, _.
Qed.

(** A drop reads the connection of the recorded descriptor. *)
Definition job_ready (w : World) (j : job) : Prop :=
  match j with
  | DropJob rid _ =>
      exists d, dict_get rid (st_resources w) = Some d /\
                is_Some (conn_from_dict (d_conn d))
  | _ => True
  end.

(** The entry a job that succeeds leaves for its resource. *)
Definition job_result (j : job) : option TableD :=
  match j with
  | AlterJob _ table _ | CreateJob _ table => Some (Table_to_dict table)
  | DropJob _ _ => None
  end.

Lemma job_effect_own (j : job) (resources : list (string * TableD)) :
  NoDup (dict_keys resources) ->
  dict_get (job_rid j) (job_effect j resources) = job_result j.
Proof.
intros Hnd. destruct j; simpl.
- apply dict_get_set_eq.
- apply dict_get_set_eq.
- rewrite dict_get_del by done. by rewrite decide_True.
Qed.

Lemma job_effect_other (j : job) (resources : list (string * TableD)) (rid : string) :
  NoDup (dict_keys resources) -> rid ≠ job_rid j ->
  dict_get rid (job_effect j resources) = dict_get rid resources.
Proof.
intros Hnd Hne. destruct j; simpl in *.
- by apply dict_get_set_ne.
- by apply dict_get_set_ne.
- rewrite dict_get_del by done. by rewrite decide_False.
Qed.

Lemma job_effect_NoDup (j : job) (resources : list (string * TableD)) :
  NoDup (dict_keys resources) -> NoDup (dict_keys (job_effect j resources)).
Proof.
intros Hnd. destruct j; simpl.
- by apply dict_set_NoDup.
- by apply dict_set_NoDup.
- by apply dict_del_NoDup.
Qed.

Lemma run_job_spec (j : job) (w : World) :
  job_ready w j ->
  exists w' ok evs,
    run_job j w = Some w' /\ log w' = log w ++ evs /\
    Forall (call_of (job_rid j)) evs /\ attempted evs = [job_rid j] /\
    (ok = true ->
       Forall succeeded evs /\ st_resources w' = job_effect j (st_resources w)) /\
    (ok = false ->
       Exists (failed_call_of (job_rid j)) evs /\ st_resources w' = st_resources w).
Proof.
intros Hready. destruct j as [rid table ch|rid table|rid name]; simpl.
- destruct (with_client_spec rid (resolve_conn environ (t_conn table))
              (AlterTable table ch) w) as (ok & evs & -> & Hc & Ha & Hs & Hf); [done|].
  exists (if ok then add_resource rid (Table_to_dict table)
                       {| st_resources := st_resources w; log := log w ++ evs |}
          else {| st_resources := st_resources w; log := log w ++ evs |}), ok, evs.
  destruct ok; simpl; split_and!; try done; intros _; split; auto.
- destruct (with_client_spec rid (resolve_conn environ (t_conn table))
              (CreateTable table) w) as (ok & evs & -> & Hc & Ha & Hs & Hf); [done|].
  exists (if ok then add_resource rid (Table_to_dict table)
                       {| st_resources := st_resources w; log := log w ++ evs |}
          else {| st_resources := st_resources w; log := log w ++ evs |}), ok, evs.
  destruct ok; simpl; split_and!; try done; intros _; split; auto.
- destruct Hready as (d & Hd & [c Hc']). unfold get_resource. rewrite Hd. simpl.
  rewrite Hc'. simpl.
  destruct (with_client_spec rid (resolve_conn environ c)
              (DropTable name) w) as (ok & evs & -> & Hc & Ha & Hs & Hf); [done|].
  exists (if ok then remove_resource rid
                       {| st_resources := st_resources w; log := log w ++ evs |}
          else {| st_resources := st_resources w; log := log w ++ evs |}), ok, evs.
  destruct ok; simpl; split_and!; try done; intros _; split; auto.
Qed.

Lemma not_failed_call_of_other (rid rid' : string) (evs : list event) :
  rid ≠ rid' -> Forall (call_of rid) evs -> ~ Exists (failed_call_of rid') evs.
Proof.
intros Hne Hall Hex. apply Exists_exists in Hex as (e & He & (c & o & ->)).
rewrite Forall_forall in Hall. destruct (Hall _ He) as (c' & o' & ok & E).
by simplify_eq.
Qed.

Lemma not_failed_succeeded (rid : string) (evs : list event) :
  Forall succeeded evs -> ~ Exists (failed_call_of rid) evs.
Proof.
intros Hall Hex. apply Exists_exists in Hex as (e & He & (c & o & ->)).
rewrite Forall_forall in Hall. by specialize (Hall _ He).
Qed.

(** A run of jobs for pairwise distinct resources: it returns; it attempts
    every job in order whatever the answers; a resource without job keeps
    its entry; a resource whose job met a failure keeps its entry; a
    resource whose job met none gets the job's result. *)
Lemma run_jobs_spec (jobs : list job) (w : World) :
  NoDup (job_rid <$> jobs) -> NoDup (dict_keys (st_resources w)) ->
  Forall (job_ready w) jobs ->
  exists w' evs,
    run_jobs jobs w = Some w' /\ log w' = log w ++ evs /\
    NoDup (dict_keys (st_resources w')) /\
    Forall (fun e => exists j, j ∈ jobs /\ call_of (job_rid j) e) evs /\
    attempted evs = job_rid <$> jobs /\
    (forall rid, rid ∉ job_rid <$> jobs ->
       dict_get rid (st_resources w') = dict_get rid (st_resources w)) /\
    (forall j, j ∈ jobs ->
       (Exists (failed_call_of (job_rid j)) evs /\
        dict_get (job_rid j) (st_resources w')
          = dict_get (job_rid j) (st_resources w)) \/
       (~ Exists (failed_call_of (job_rid j)) evs /\
        dict_get (job_rid j) (st_resources w') = job_result j)).
Proof.
revert w. induction jobs as [|j jobs IH]; intros w Hnd Hst Hready.
- exists w, []. rewrite app_nil_r. split_and!; try done.
  intros j Hj. by apply elem_of_nil in Hj.
- simpl in Hnd. apply NoDup_cons in Hnd as [Hj Hnd].
  apply Forall_cons in Hready as [Hrj Hready].
  destruct (run_job_spec j w Hrj) as (w1 & ok & evs1 & E1 & L1 & C1 & A1 & Hok & Hko).
  assert (NoDup (dict_keys (st_resources w1)) /\
          forall rid, rid ≠ job_rid j ->
            dict_get rid (st_resources w1) = dict_get rid (st_resources w)) as [Hst1 Hother].
  { destruct ok.
    - destruct (Hok eq_refl) as [_ ->]. split; [by apply job_effect_NoDup|].
      intros rid Hne. by apply job_effect_other.
    - destruct (Hko eq_refl) as [_ ->]. done. }
  assert (Forall (job_ready w1) jobs) as Hready1.
  { rewrite Forall_forall in Hready. apply Forall_forall. intros j' Hj'.
    specialize (Hready j' Hj'). destruct j' as [| |rid' name']; try done.
    simpl in *. rewrite Hother; [done|]. intros ->. apply Hj.
    apply list_elem_of_fmap. by exists (DropJob (job_rid j) name'). }
  destruct (IH w1 Hnd Hst1 Hready1) as (w' & evs2 & E2 & L2 & Hst' & C2 & A2 & Hrest & Hjobs).
  exists w', (evs1 ++ evs2). split_and!.
  + unfold run_jobs in *. simpl. by rewrite E1.
  + by rewrite L2, L1, <- app_assoc.
  + done.
  + apply Forall_app. split.
    * eapply Forall_impl; [exact C1|]. intros e He. exists j. split; [left|done].
    * eapply Forall_impl; [exact C2|]. intros e (j' & Hj' & He). exists j'.
      split; [by right|done].
  + unfold attempted in *. by rewrite omap_app, A1, A2.
  + intros rid Hrid. apply not_elem_of_cons in Hrid as [Hne Hrid].
    by rewrite Hrest, Hother.
  + assert (~ Exists (failed_call_of (job_rid j)) evs2) as Hno2.
    { intros Hex. apply Exists_exists in Hex as (e & He & (c & o & ->)).
      rewrite Forall_forall in C2. destruct (C2 _ He) as (j' & Hj' & (c' & o' & ok' & E)).
      simplify_eq. apply Hj. apply list_elem_of_fmap. by exists j'. }
    intros j' [->|Hj']%elem_of_cons.
    * rewrite (Hrest (job_rid j) Hj). destruct ok.
      -- right. destruct (Hok eq_refl) as [Hs ->]. split.
         ++ rewrite Exists_app. intros [Hex|Hex]; [|done].
            by apply (not_failed_succeeded (job_rid j) evs1).
         ++ by apply job_effect_own.
      -- left. destruct (Hko eq_refl) as [Hex ->]. split; [|done].
         apply Exists_app. by left.
    * assert (job_rid j' ≠ job_rid j) as Hne.
      { intros Heq. apply Hj. rewrite <- Heq. by apply list_elem_of_fmap_2. }
      destruct (Hjobs j' Hj') as [[Hex Hg]|[Hex Hg]].
      -- left. split; [apply Exists_app; by right|]. by rewrite Hg, Hother.
      -- right. split; [|done]. rewrite Exists_app. intros [Hex1|Hex2]; [|done].
         by apply (not_failed_call_of_other (job_rid j) (job_rid j') evs1).
Qed.

(** *** Regrouping the plan by table name *)

(** The last element of a list that satisfies [p]. *)
Fixpoint last_match {A} (p : A -> bool) (l : list A) : option A :=
  match l with
  | [] => None
  | x :: l =>
      match last_match p l with
      | Some y => Some y
      | None => if p x then Some x else None
      end
  end.

Lemma last_match_Some {A} (p : A -> bool) (l : list A) (x : A) :
  last_match p l = Some x -> x ∈ l /\ p x = true.
Proof.
induction l as [|y l IH]; simpl; [done|].
destruct (last_match p l) as [z|].
- intros [= ->]. destruct (IH eq_refl). split; [by right|done].
- destruct (p y) eqn:P; [|done]. intros [= ->]. split; [left|done].
Qed.

Lemma last_match_is_Some {A} (p : A -> bool) (l : list A) (x : A) :
  x ∈ l -> p x = true -> is_Some (last_match p l).
Proof.
induction l as [|y l IH]; simpl; [by intros ?%elem_of_nil|].
intros [->|Hx]%elem_of_cons Hp.
- destruct (last_match p l); [eauto|]. rewrite Hp. eauto.
- destruct (IH Hx Hp) as [z ->]. eauto.
Qed.


Lemma last_match_unique {A} (p : A -> bool) (l : list A) (x : A) :
  x ∈ l -> p x = true -> (forall y, y ∈ l -> p y = true -> y = x) ->
  last_match p l = Some x.
Proof.
intros Hx Hp Huniq. destruct (last_match_is_Some p l x Hx Hp) as [y Hy].
rewrite Hy. f_equal. apply last_match_Some in Hy as [? ?]. by apply Huniq.
Qed.

(** The table name under which [apply] files a change, and its phase. *)
Definition change_name (c : change) : string :=
  match c with
  | Create table | Update table _ => t_name table
  | Delete table_name => table_name
  end.

Inductive phase := UpdatePhase | CreatePhase | DeletePhase.

Definition change_phase (c : change) : phase :=
  match c with
  | Create _ => CreatePhase
  | Update _ _ => UpdatePhase
  | Delete _ => DeletePhase
  end.

Global Instance phase_eq_dec : EqDecision phase.
Proof. solve_decision. Defined.

Definition filed_under (ph : phase) (name : string) (item : string * change) : bool :=
  bool_decide (change_phase item.2 = ph) && bool_decide (change_name item.2 = name).

Definition actions_of (ph : phase) (a : actions) : list (string * (string * change)) :=
  match ph with
  | UpdatePhase => update_actions a
  | CreatePhase => create_actions a
  | DeletePhase => delete_actions a
  end.

Lemma group_step_lookup (ph : phase) (name : string) (a : actions)
    (item : string * change) :
  dict_get name (actions_of ph (group_step a item)) =
    if filed_under ph name item then Some item else dict_get name (actions_of ph a).
Proof.
destruct item as [rid c]. unfold filed_under. simpl.
destruct c as [t|t ch|n], ph; simpl; rewrite ?dict_get_set;
  repeat (case_bool_decide || case_decide); simpl; try done; try congruence.
Qed.

(** Each of the three dictionaries holds, under a table name, the last
    change of its phase that the plan lists for that name. *)
Lemma group_lookup (ph : phase) (name : string) (changes : list (string * change)) :
  dict_get name (actions_of ph (group changes)) = last_match (filed_under ph name) changes.
Proof.
unfold group.
assert (forall a,
  dict_get name (actions_of ph (foldl group_step a changes)) =
    match last_match (filed_under ph name) changes with
    | Some y => Some y
    | None => dict_get name (actions_of ph a)
    end) as H.
{ induction changes as [|item changes IH]; intros a; simpl; [done|].
  rewrite IH, group_step_lookup.
  destruct (last_match (filed_under ph name) changes); [done|].
  by destruct (filed_under ph name item). }
rewrite H. destruct (last_match _ _); [done|]. by destruct ph.
Qed.

(** *** The phase loops as lists of jobs *)

Definition job_of (ph : phase) (name : string) (entry : string * change) : option job :=
  match ph, entry with
  | UpdatePhase, (rid, Update table table_changes) => Some (AlterJob rid table table_changes)
  | CreatePhase, (rid, Create table) => Some (CreateJob rid table)
  | DeletePhase, (rid, _) => Some (DropJob rid name)
  | _, _ => None
  end.

Definition phase_jobs (ph : phase) (acts : actions) (order : list string) : list job :=
  omap (fun name => dict_get name (actions_of ph acts) ≫= job_of ph name) order.

Definition apply_jobs (changes : list (string * change)) (order : list string)
    : list job :=
  phase_jobs UpdatePhase (group changes) order
  ++ phase_jobs CreatePhase (group changes) order
  ++ phase_jobs DeletePhase (group changes) (delete_order order).

Lemma filed_under_phase (ph : phase) (name : string) (changes : list (string * change))
    (entry : string * change) :
  dict_get name (actions_of ph (group changes)) = Some entry ->
  entry ∈ changes /\ change_phase entry.2 = ph /\ change_name entry.2 = name.
Proof.
rewrite group_lookup. intros [Hin Hp]%last_match_Some. split; [done|].
unfold filed_under in Hp. apply andb_prop in Hp as [H1 H2].
by apply bool_decide_eq_true in H1, H2.
Qed.

Lemma run_jobs_None (jobs : list job) :
  foldl (fun acc j => acc ≫= run_job j) None jobs = None.
Proof. by induction jobs. Qed.

Lemma phase_jobs_cons (ph : phase) (acts : actions) (name : string)
    (order : list string) :
  phase_jobs ph acts (name :: order) =
    match dict_get name (actions_of ph acts) ≫= job_of ph name with
    | Some j => j :: phase_jobs ph acts order
    | None => phase_jobs ph acts order
    end.
Proof. reflexivity. Qed.

Lemma update_steps_jobs (changes : list (string * change)) (order : list string)
    (acc : option World) :
  foldl (update_step backend environ (group changes)) acc order
  = foldl (fun acc j => acc ≫= run_job j) acc
      (phase_jobs UpdatePhase (group changes) order).
Proof.
revert acc. induction order as [|name order IH]; intros acc; [done|].
cbn [foldl]. rewrite IH, phase_jobs_cons. unfold update_step.
destruct (dict_get name (actions_of UpdatePhase (group changes))) as [[rid c]|] eqn:E.
- apply filed_under_phase in E as H. destruct H as (_ & Hph & _).
  simpl in E. rewrite E. destruct c; try done; simpl; by destruct acc.
- simpl in E. rewrite E. simpl. by destruct acc.
Qed.

Lemma create_steps_jobs (changes : list (string * change)) (order : list string)
    (acc : option World) :
  foldl (create_step backend environ (group changes)) acc order
  = foldl (fun acc j => acc ≫= run_job j) acc
      (phase_jobs CreatePhase (group changes) order).
Proof.
revert acc. induction order as [|name order IH]; intros acc; [done|].
cbn [foldl]. rewrite IH, phase_jobs_cons. unfold create_step.
destruct (dict_get name (actions_of CreatePhase (group changes))) as [[rid c]|] eqn:E.
- apply filed_under_phase in E as H. destruct H as (_ & Hph & _).
  simpl in E. rewrite E. destruct c; try done; simpl; by destruct acc.
- simpl in E. rewrite E. simpl. by destruct acc.
Qed.

Lemma delete_steps_jobs (changes : list (string * change)) (order : list string)
    (acc : option World) :
  foldl (delete_step backend environ (group changes)) acc order
  = foldl (fun acc j => acc ≫= run_job j) acc
      (phase_jobs DeletePhase (group changes) order).
Proof.
revert acc. induction order as [|name order IH]; intros acc; [done|].
cbn [foldl]. rewrite IH, phase_jobs_cons. unfold delete_step.
destruct (dict_get name (actions_of DeletePhase (group changes))) as [[rid c]|] eqn:E.
- simpl in E. rewrite E. simpl. by destruct acc.
- simpl in E. rewrite E. simpl. by destruct acc.
Qed.

(** [apply] with a non-empty plan runs the jobs of the three phases one
    after the other and then saves the state. *)
Lemma apply_as_jobs (tables : list (string * Table)) (w : World)
    (changes : list (string * change)) (order : list string) :
  plan tables w = Some changes -> changes ≠ [] ->
  _topological_sort (_build_dependency_graph tables) = Some order ->
  apply backend environ tables w
  = save_state <$> run_jobs (apply_jobs changes order) w.
Proof.
intros Hplan Hne Horder. unfold apply. rewrite Hplan. simpl.
destruct changes as [|item changes]; [done|].
rewrite Horder. simpl.
unfold run_jobs, apply_jobs. rewrite !foldl_app.
rewrite <- update_steps_jobs, <- create_steps_jobs, <- delete_steps_jobs.
destruct (foldl (update_step backend environ (group (item :: changes))) (Some w) order)
  as [w1|]; simpl.
- destruct (foldl (create_step backend environ (group (item :: changes))) (Some w1) order)
    as [w2|]; simpl.
  + by destruct (foldl (delete_step backend environ (group (item :: changes)))
                   (Some w2) (delete_order order)).
  + rewrite delete_steps_jobs. by rewrite run_jobs_None.
- rewrite create_steps_jobs, run_jobs_None, delete_steps_jobs. by rewrite run_jobs_None.
Qed.

(** The planned change a job carries out. *)
Definition job_change (j : job) : change :=
  match j with
  | AlterJob _ table table_changes => Update table table_changes
  | CreateJob _ table => Create table
  | DropJob _ table_name => Delete table_name
  end.

Lemma phase_jobs_elem (ph : phase) (changes : list (string * change))
    (order : list string) (j : job) :
  j ∈ phase_jobs ph (group changes) order ->
  (job_rid j, job_change j) ∈ changes /\
  change_phase (job_change j) = ph /\
  change_name (job_change j) ∈ order /\
  dict_get (change_name (job_change j)) (actions_of ph (group changes))
    = Some (job_rid j, job_change j).
Proof.
unfold phase_jobs. rewrite list_elem_of_omap. intros (name & Hname & E).
destruct (dict_get name (actions_of ph (group changes))) as [[rid c]|] eqn:G; [|done].
apply filed_under_phase in G as H. destruct H as (Hin & Hph & Hn). simpl in *.
destruct ph, c; simpl in *; try done; injection E as <-; simpl; subst; by split_and!.
Qed.

Lemma change_of_rid (changes : list (string * change)) (rid : string) (c c' : change) :
  NoDup (dict_keys changes) -> (rid, c) ∈ changes -> (rid, c') ∈ changes -> c = c'.
Proof.
intros Hnd H1 H2.
apply (elem_of_dict_get _ _ _ Hnd) in H1. apply (elem_of_dict_get _ _ _ Hnd) in H2.
congruence.
Qed.

Lemma phase_jobs_NoDup (ph : phase) (changes : list (string * change))
    (order : list string) :
  NoDup (dict_keys changes) -> NoDup order ->
  NoDup (job_rid <$> phase_jobs ph (group changes) order).
Proof.
intros Hc. induction order as [|name order IH]; intros Ho; [constructor|].
apply NoDup_cons in Ho as [Hname Ho]. rewrite phase_jobs_cons.
destruct (dict_get name (actions_of ph (group changes)) ≫= job_of ph name)
  as [j|] eqn:E; [|by apply IH].
csimpl. apply NoDup_cons. split; [|by apply IH].
intros (j' & Hrid & Hj')%list_elem_of_fmap.
apply phase_jobs_elem in Hj' as (Hin' & _ & Hn' & _).
assert (j ∈ phase_jobs ph (group changes) [name]) as Hj.
{ rewrite phase_jobs_cons, E. left. }
apply phase_jobs_elem in Hj as (Hin & _ & Hn & _).
apply list_elem_of_singleton in Hn.
rewrite Hrid in Hin.
rewrite (change_of_rid changes _ _ _ Hc Hin Hin') in Hn. by rewrite Hn in Hn'.
Qed.

Lemma delete_order_NoDup (order : list string) :
  NoDup order -> NoDup (delete_order order).
Proof.
intros H. unfold delete_order. destruct reversed_deletes; [|done].
by rewrite reverse_Permutation.
Qed.

Lemma delete_order_elem (order : list string) (x : string) :
  x ∈ delete_order order <-> x ∈ order.
Proof. unfold delete_order. destruct reversed_deletes; [apply elem_of_reverse|done]. Qed.

Lemma apply_jobs_elem (changes : list (string * change)) (order : list string) (j : job) :
  j ∈ apply_jobs changes order ->
  (job_rid j, job_change j) ∈ changes /\
  change_name (job_change j) ∈ order /\
  dict_get (change_name (job_change j))
    (actions_of (change_phase (job_change j)) (group changes))
    = Some (job_rid j, job_change j).
Proof.
unfold apply_jobs. rewrite !elem_of_app.
intros [H|[H|H]]; apply phase_jobs_elem in H as (Hin & <- & Hn & Hg);
  split_and!; try done.
by apply delete_order_elem.
Qed.

Lemma apply_jobs_NoDup (changes : list (string * change)) (order : list string) :
  NoDup (dict_keys changes) -> NoDup order ->
  NoDup (job_rid <$> apply_jobs changes order).
Proof.
intros Hc Ho. unfold apply_jobs. rewrite !fmap_app.
assert (forall ph ph' order order' rid,
          ph ≠ ph' ->
          rid ∈ job_rid <$> phase_jobs ph (group changes) order ->
          rid ∈ job_rid <$> phase_jobs ph' (group changes) order' -> False) as Hdisj.
{ intros ph ph' o o' rid Hne (j & -> & Hj)%list_elem_of_fmap
    (j' & Hrid & Hj')%list_elem_of_fmap.
  apply phase_jobs_elem in Hj as (Hin & Hph & _).
  apply phase_jobs_elem in Hj' as (Hin' & Hph' & _).
  rewrite Hrid in Hin. rewrite (change_of_rid changes _ _ _ Hc Hin Hin') in Hph.
  congruence. }
apply NoDup_app. split_and!.
- by apply phase_jobs_NoDup.
- intros rid H1 [H2|H2]%elem_of_app.
  + by apply (Hdisj UpdatePhase CreatePhase order order rid).
  + by apply (Hdisj UpdatePhase DeletePhase order (delete_order order) rid).
- apply NoDup_app. split_and!.
  + by apply phase_jobs_NoDup.
  + intros rid H1 H2.
    by apply (Hdisj CreatePhase DeletePhase order (delete_order order) rid).
  + apply phase_jobs_NoDup; [done|]. by apply delete_order_NoDup.
Qed.

Lemma desired_change_cases (w : World) (rid : string) (table : Table) (c : change) :
  desired_change w rid table = Some c ->
  change_name c = t_name table /\ change_phase c ≠ DeletePhase /\
  match c with
  | Create t | Update t _ => t = table
  | Delete _ => False
  end.
Proof.
unfold desired_change. destruct (get_resource rid w) as [d|].
- destruct (Table_from_dict rid d) as [old|]; [|done].
  destruct (Changes_nonempty _); [|done]. by intros [= <-].
- by intros [= <-].
Qed.

(** The recorded state is a dictionary of complete table descriptors. *)
Definition state_ok (w : World) : Prop :=
  NoDup (dict_keys (st_resources w)) /\ recorded_complete w.

Lemma Table_from_dict_conn (resource_id : string) (d : TableD) (t : Table) :
  Table_from_dict resource_id d = Some t -> conn_from_dict (d_conn d) = Some (t_conn t).
Proof.
unfold Table_from_dict. intros E.
destruct (d_columns d ≫= mapM Column_from_dict); simpl in E; [|done].
destruct (match d_foreign_keys d with Some _ => _ | None => _ end); simpl in E; [|done].
destruct (d_name d); simpl in E; [|done].
destruct (conn_from_dict (d_conn d)); simpl in E; [|done].
destruct (d_primary_key d); simpl in E; [|done].
by injection E as <-.
Qed.

(** The order [apply] and [destroy] walk: every desired table name, once. *)
Lemma table_order_spec (tables : list (string * Table)) :
  exists order,
    _topological_sort (_build_dependency_graph tables) = Some order /\
    NoDup order /\ forall x, x ∈ order <-> x ∈ table_names tables.
Proof.
destruct (build_dependency_graph_spec tables) as (_ & Hkeys & _ & Hnodes).
destruct (topological_sort_correct (_build_dependency_graph tables))
  as (order & E & Hnd & Hall & Hsub & _).
exists order. split_and!; try done. intros x. split.
- intros Hx. by apply Hnodes, Hsub.
- intros Hx. by apply Hall, Hkeys.
Qed.

(** [apply] as a whole.  With an empty plan it returns at once.
    Otherwise it runs the jobs of the plan and saves the state. *)
Lemma apply_spec (tables : list (string * Table)) (w : World) :
  NoDup (dict_keys tables) -> state_ok w ->
  exists changes order,
    plan tables w = Some changes /\ NoDup (dict_keys changes) /\
    _topological_sort (_build_dependency_graph tables) = Some order /\
    NoDup order /\ (forall x, x ∈ order <-> x ∈ table_names tables) /\
    (changes = [] -> apply backend environ tables w = Some w) /\
    (changes ≠ [] ->
     exists w1 evs,
       run_jobs (apply_jobs changes order) w = Some w1 /\
       apply backend environ tables w = Some (save_state w1) /\
       log w1 = log w ++ evs /\
       NoDup (dict_keys (st_resources w1)) /\
       Forall (fun e => exists j, j ∈ apply_jobs changes order /\ call_of (job_rid j) e)
         evs /\
       attempted evs = job_rid <$> apply_jobs changes order /\
       (forall rid, rid ∉ job_rid <$> apply_jobs changes order ->
          dict_get rid (st_resources w1) = dict_get rid (st_resources w)) /\
       (forall j, j ∈ apply_jobs changes order ->
          (Exists (failed_call_of (job_rid j)) evs /\
           dict_get (job_rid j) (st_resources w1)
             = dict_get (job_rid j) (st_resources w)) \/
          (~ Exists (failed_call_of (job_rid j)) evs /\
           dict_get (job_rid j) (st_resources w1) = job_result j))).
Proof.
intros Ht [Hst Hw].
destruct (plan_lookup tables w Ht Hw) as (changes & Hplan & Hc & Hchanges).
destruct (table_order_spec tables) as (order & Horder & Hnd & Hnames).
exists changes, order. split_and!; try done.
- intros ->. unfold apply. by rewrite Hplan.
- intros Hne.
  destruct (run_jobs_spec (apply_jobs changes order) w) as (w1 & evs & E & H).
  + by apply apply_jobs_NoDup.
  + done.
  + apply Forall_forall. intros j Hj. destruct j as [| |rid name]; try done.
    apply apply_jobs_elem in Hj as (Hin & _). simpl in *.
    apply (elem_of_dict_get _ _ _ Hc) in Hin. rewrite Hchanges in Hin.
    destruct (dict_get rid tables) as [table|].
    { by apply desired_change_cases in Hin as (_ & _ & ?). }
    unfold get_resource in Hin.
    destruct (dict_get rid (st_resources w)) as [d|] eqn:Hd; [|done].
    exists d. split; [done|]. destruct (Hw rid d Hd) as [t Hfrom].
    rewrite (Table_from_dict_conn _ _ _ Hfrom). eauto.
  + exists w1, evs. split; [done|]. split; [|done].
    rewrite (apply_as_jobs tables w changes order) by done. by rewrite E.
Qed.

(** *** Destroy *)



Lemma remove_resource_ok (rid : string) (w : World) (evs : list event) :
  state_ok w ->
  state_ok (remove_resource rid
              {| st_resources := st_resources w; log := log w ++ evs |}).
Proof.
intros [Hnd Hw]. split; simpl.
- by apply dict_del_NoDup.
- intros k d. simpl. rewrite dict_get_del by done.
  case_decide; [done|]. apply Hw.
Qed.



(** [destroy] of one resource: the state is written only after a drop
    that succeeded. *)
Lemma destroy_one_spec (resource_id : string) (w : World) :
  state_ok w ->
  exists w',
    destroy_one backend environ resource_id w = Some w' /\
    (dict_get resource_id (st_resources w) = None -> w' = w) /\
    (is_Some (dict_get resource_id (st_resources w)) ->
     exists evs, Forall (call_of resource_id) evs /\ evs ≠ [] /\
       ((Forall succeeded evs /\
         st_resources w' = dict_del resource_id (st_resources w) /\
         log w' = log w ++ evs ++ [SaveState (st_resources w')]) \/
        (Exists (failed_call_of resource_id) evs /\
         st_resources w' = st_resources w /\
         log w' = log w ++ evs))).
Proof.
intros [Hnd Hw]. unfold destroy_one.
destruct (dict_get resource_id (st_resources w)) as [d|] eqn:Hd.
- destruct (Hw resource_id d Hd) as [t Hfrom].
  unfold present, get_resource. rewrite Hd.
  rewrite (Table_from_dict_nonempty _ _ _ Hfrom).
  rewrite (Table_from_dict_conn _ _ _ Hfrom). simpl.
  destruct (with_client_spec resource_id (resolve_conn environ (t_conn t))
              (DropTable (default resource_id (d_name d))) w)
    as (ok & evs & -> & Hc & Ha & Hs & Hf); [done|].
  eexists. split; [done|]. split; [done|]. intros _.
  exists evs. split; [done|]. split.
  { intros ->. by simpl in Ha. }
  destruct ok; simpl.
  + left. split_and!; [by apply Hs|done|]. by rewrite <- app_assoc.
  + right. split_and!; [by apply Hf|done|done].
- exists w. unfold present, get_resource. rewrite Hd.
  split_and!; [done|done|]. by intros [? ?].
Qed.

End ReconcilerFacts.

(** ** Reconciler: the claims *)

Section ReconcilerClaims.
Context `{D : Dialect}.
Implicit Types (backend : list event -> conn -> op -> bool).





Lemma NoDup_fmap_elem_inj {A B} (f : A -> B) (l : list A) (x y : A) :
  NoDup (f <$> l) -> x ∈ l -> y ∈ l -> f x = f y -> x = y.
Proof.
induction l as [|z l IH]; csimpl; [by intros _ ?%elem_of_nil|].
intros [Hz Hnd]%NoDup_cons [->|Hx]%elem_of_cons [->|Hy]%elem_of_cons Hf; auto.
- exfalso. apply Hz. rewrite Hf. by apply list_elem_of_fmap_2.
- exfalso. apply Hz. rewrite <- Hf. by apply list_elem_of_fmap_2.
Qed.

Lemma table_of_name (tables : list (string * Table)) (r r' : string) (t t' : Table) :
  NoDup (table_names tables) ->
  (r, t) ∈ tables -> (r', t') ∈ tables -> t_name t = t_name t' -> r = r' /\ t = t'.
Proof.
unfold table_names, dict_values. rewrite <- list_fmap_compose.
intros Hnd H1 H2 Hn.
assert ((r, t) = (r', t')) as E; [|by simplify_eq].
by apply (NoDup_fmap_elem_inj (t_name ∘ snd) tables).
Qed.

Lemma dict_all_None {K V} `{EqDecision K} (l : list (K * V)) :
  (forall k, dict_get k l = None) -> l = [].
Proof.
destruct l as [|[k v] l]; [done|]. intros H. specialize (H k). simpl in H.
by rewrite decide_True in H.
Qed.

(** A planned creation or update of a table whose name no other desired
    table carries has a job in the run. *)
Lemma desired_change_has_job (tables : list (string * Table)) (w : World)
    (changes : list (string * change)) (order : list string)
    (rid : string) (table : Table) (c : change) :
  NoDup (dict_keys tables) -> NoDup (table_names tables) ->
  NoDup (dict_keys changes) ->
  (forall k, dict_get k changes =
     match dict_get k tables with
     | Some table => desired_change w k table
     | None =>
         match get_resource k w with
         | Some d => Some (Delete (default k (d_name d)))
         | None => None
         end
     end) ->
  (forall x, x ∈ order <-> x ∈ table_names tables) ->
  dict_get rid tables = Some table -> desired_change w rid table = Some c ->
  exists j, j ∈ apply_jobs changes order /\ job_rid j = rid /\
            job_result j = Some (Table_to_dict table).
Proof.
intros Ht Hn Hc Hlookup Horder Htable Hdesired.
apply desired_change_cases in Hdesired as Hcases.
destruct Hcases as (Hname & Hph & Hshape).
assert (dict_get rid changes = Some c) as Hrid.
{ by rewrite Hlookup, Htable. }
apply dict_get_Some_elem in Hrid as Hin.
apply dict_get_Some_elem in Htable as Hintable.
assert (dict_get (t_name table) (actions_of (change_phase c) (group changes))
        = Some (rid, c)) as Hslot.
{ rewrite group_lookup. apply last_match_unique; [done| |].
  - unfold filed_under. simpl. by rewrite Hname, !bool_decide_eq_true_2.
  - intros [r' c'] Hin' Hp. unfold filed_under in Hp. simpl in Hp.
    apply andb_prop in Hp as [Hp1 Hp2].
    apply bool_decide_eq_true in Hp1, Hp2.
    apply (elem_of_dict_get _ _ _ Hc) in Hin' as Hr'.
    rewrite Hlookup in Hr'.
    destruct (dict_get r' tables) as [t'|] eqn:Ht'.
    + apply desired_change_cases in Hr' as (Hname' & _ & _).
      apply dict_get_Some_elem in Ht'.
      destruct (table_of_name tables r' rid t' table Hn Ht' Hintable) as [-> ->];
        [congruence|].
      f_equal. by apply (change_of_rid changes rid).
    + destruct (get_resource r' w); [|done]. injection Hr' as <-.
      simpl in Hp1. congruence. }
assert (t_name table ∈ order) as Hord.
{ apply Horder. unfold table_names, dict_values. rewrite <- list_fmap_compose.
  by apply (list_elem_of_fmap_2 (t_name ∘ snd) tables (rid, table)). }
unfold apply_jobs. destruct c as [t|t ch|n]; simpl in *; try done; subst t.
- exists (CreateJob rid table). split_and!; try done.
  apply elem_of_app. right. apply elem_of_app. left.
  unfold phase_jobs. apply list_elem_of_omap. exists (t_name table).
  split; [done|]. simpl. by rewrite Hslot.
- exists (AlterJob rid table ch). split_and!; try done.
  apply elem_of_app. left.
  unfold phase_jobs. apply list_elem_of_omap. exists (t_name table).
  split; [done|]. simpl. by rewrite Hslot.
Qed.

(** Claim C2, amended.  Take a desired map with distinct resource ids and
    distinct table names, and a recorded state of complete descriptors all
    of whose resources are desired.  After a fresh [apply] run in which
    every client call succeeded, [plan] returns the empty plan.  The reason
    is the second part, which holds for every table: reading back what
    [Table.to_dict] wrote gives a table whose diff against the original is
    empty, whether its foreign keys are [None], the empty list or a list,
    and whatever the defaults of its columns. *)
Theorem apply_then_plan_empty backend (environ : gmap string string)
    (tables : list (string * Table)) (w w' : World) :
  NoDup (dict_keys tables) -> NoDup (table_names tables) -> state_ok w ->
  (forall rid, rid ∈ dict_keys (st_resources w) -> rid ∈ dict_keys tables) ->
  log w = [] ->
  apply backend environ tables w = Some w' -> Forall succeeded (log w') ->
  plan tables w' = Some [] /\
  forall resource_id (t : Table),
    exists old,
      Table_from_dict resource_id (Table_to_dict t) = Some old /\
      _compare_tables old t = no_changes.
Proof.
intros Ht Hn Hok Hdesired Hlog Happly Hsucc. split.
2:{ intros rid t. exists (reloaded rid t). split;
      [apply Table_from_to_dict | apply compare_reloaded]. }
destruct (apply_spec backend environ tables w Ht Hok)
  as (changes & order & Hplan & Hc & _ & _ & Horder & Hnil & Hcons).
destruct Hok as [Hnd Hw].
destruct (plan_lookup tables w Ht Hw) as (changes0 & Hplan0 & _ & Hlookup).
assert (changes0 = changes) as -> by congruence.
destruct changes as [|item changes].
{ rewrite Hnil in Happly by done. by injection Happly as <-. }
destruct Hcons as (w1 & evs & _ & Happly1 & L & Hnd1 & C & _ & Hrest & Hjobs); [done|].
rewrite Happly1 in Happly. injection Happly as <-.
set (jobs := apply_jobs (item :: changes) order) in *.
assert (forall j, j ∈ jobs -> dict_get (job_rid j) (st_resources w1) = job_result j)
  as Hdone.
{ intros j Hj. destruct (Hjobs j Hj) as [[Hex _]|[_ ?]]; [|done].
  exfalso. simpl in Hsucc. rewrite L, Hlog in Hsucc. simpl in Hsucc.
  apply Forall_app in Hsucc as [Hsucc _].
  by apply (not_failed_succeeded (job_rid j) evs). }
assert (forall k, dict_get k (item :: changes) = None ->
          dict_get k (st_resources w1) = dict_get k (st_resources w)) as Hkeep.
{ intros k Hk. apply Hrest. intros (j & -> & Hj)%list_elem_of_fmap.
  apply apply_jobs_elem in Hj as (Hin & _).
  apply (elem_of_dict_get _ _ _ Hc) in Hin. congruence. }
assert (recorded_complete (save_state w1)) as Hw1.
{ intros rid d. simpl. intros Hd.
  destruct (decide (rid ∈ job_rid <$> jobs)) as [Hin|Hout].
  - apply list_elem_of_fmap in Hin as (j & -> & Hj).
    rewrite (Hdone j Hj) in Hd. destruct j; simpl in *; try done;
      injection Hd as <-; rewrite Table_from_to_dict; eauto.
  - rewrite (Hrest rid Hout) in Hd. by apply Hw. }
destruct (plan_lookup tables (save_state w1) Ht Hw1) as (changes' & -> & _ & Hlookup').
f_equal. apply dict_all_None. intros k. rewrite Hlookup'.
destruct (dict_get k tables) as [table|] eqn:Htable.
- destruct (desired_change w k table) as [c|] eqn:Hdes.
  + destruct (desired_change_has_job tables w (item :: changes) order k table c)
      as (j & Hj & <- & Hres); try done.
    unfold desired_change, get_resource. simpl.
    rewrite (Hdone j Hj), Hres, Table_from_to_dict, compare_reloaded.
    unfold Changes_nonempty. by rewrite bool_decide_eq_false_2 by (intros H; by apply H).
  + assert (dict_get k (item :: changes) = None) as Hk.
    { by rewrite Hlookup, Htable. }
    rewrite <- Hdes. unfold desired_change, get_resource. simpl.
    by rewrite (Hkeep k Hk).
- assert (dict_get k (st_resources w) = None) as Hnone.
  { apply dict_get_None. intros Hin. apply Hdesired in Hin.
    by apply dict_get_None in Htable. }
  assert (dict_get k (item :: changes) = None) as Hk.
  { rewrite Hlookup, Htable. unfold get_resource. by rewrite Hnone. }
  unfold get_resource. simpl. by rewrite (Hkeep k Hk), Hnone.
Qed.

End ReconcilerClaims.

(** ** The claims on concrete runs *)

Definition mysql_conn : @conn Aquaformmy.dialect :=
  {| Aquaformmy.host := "${MYSQL_HOST}"; Aquaformmy.user := "${MYSQL_USER}";
     Aquaformmy.password := "${MYSQL_PASSWORD}";
     Aquaformmy.database := "${MYSQL_DATABASE}" |}.

(** A database that accepts everything, and one that refuses everything. *)
Definition always_ok `{D : Dialect} : list event -> conn -> op -> bool :=
  fun _ _ _ => true.
Definition always_failing `{D : Dialect} : list event -> conn -> op -> bool :=
  fun _ _ _ => false.

Definition empty_world `{D : Dialect} : World := {| st_resources := []; log := [] |}.

(** The state after the three example tables have been created. *)
Definition blog_recorded `{D : Dialect} (c : conn) : World :=
  {| st_resources :=
       [ ("users_table", Table_to_dict (blog_users c));
         ("posts_table", Table_to_dict (blog_posts c));
         ("comments_table", Table_to_dict (blog_comments c)) ];
     log := [] |}.

(** The table names a trace dropped, in order. *)
Definition dropped `{D : Dialect} (evs : list event) : list string :=
  omap (fun e => match e with
                 | Call _ _ (DropTable name) _ => Some name
                 | _ => None
                 end) evs.

(** Two resources that describe a table of the same name. *)
Definition twin_a `{D : Dialect} (c : conn) : Table :=
  {| t_name := "users"; t_conn := c; t_columns := [blog_column "id" "UUID"];
     t_primary_key := ["id"]; t_foreign_keys := None; t_resource_id := "users_a" |}.

Definition twin_b `{D : Dialect} (c : conn) : Table :=
  {| t_name := "users"; t_conn := c; t_columns := [blog_column "id" "UUID"];
     t_primary_key := ["id"]; t_foreign_keys := None; t_resource_id := "users_b" |}.

Definition twin_tables `{D : Dialect} (c : conn) : list (string * Table) :=
  [("users_a", twin_a c); ("users_b", twin_b c)].

Lemma empty_world_ok `{D : Dialect} : state_ok empty_world.
Proof. split; [constructor|]. by intros rid d. Qed.

Lemma blog_world_ok `{D : Dialect} (c : conn) : state_ok (blog_world c).
Proof.
split; [|apply blog_world_complete].
unfold blog_world, dict_keys. simpl. decide_by_vm.
Qed.

Lemma blog_table_names `{D : Dialect} (c : conn) : NoDup (table_names (blog_tables c)).
Proof. unfold blog_tables, table_names, dict_values. simpl. decide_by_vm. Qed.


(** Claim C1 on the code: scenario S5.  [posts] references [users] and
    [comments] references both, all three are recorded, and everything is
    destroyed.  [aquaform.py] drops [users] first and [comments] last:
    each referenced table goes before the tables that depend on it.
    [aquaformmy.py], which walks the reversed order, drops dependents
    first. *)
Theorem destroy_all_drop_order :
  depends_on (blog_tables diff_conn) "posts" "users" /\
  (exists w',
     destroy (D := Aquaform.dialect) always_ok ∅ (blog_tables diff_conn) None
       (blog_recorded diff_conn) = Some w' /\
     dropped (log w') = ["users"; "posts"; "comments"]) /\
  (exists w',
     destroy (D := Aquaformmy.dialect) always_ok ∅ (blog_tables mysql_conn) None
       (blog_recorded mysql_conn) = Some w' /\
     dropped (log w') = ["comments"; "posts"; "users"]).
Proof.
split_and!.
- exists (blog_posts diff_conn), (blog_fk "user_id" "users").
  split_and!; try done.
  + unfold blog_tables, dict_values. simpl. set_solver.
  + simpl. set_solver.
  + unfold blog_tables, table_names, dict_values. simpl. set_solver.
- eexists. split; [by vm_compute|]. by vm_compute.
- eexists. split; [by vm_compute|]. by vm_compute.
Qed.

(** The delete phase of [apply] walks the same orders.  Here the recorded
    resources [old_users] and [old_posts] are no longer desired, while the
    desired map describes tables of those names under other resource ids. *)
Definition renamed_world `{D : Dialect} (c : conn) : World :=
  {| st_resources :=
       [ ("old_posts", Table_to_dict (blog_posts c));
         ("old_users", Table_to_dict (blog_users c)) ];
     log := [] |}.

Example apply_delete_phase_order :
  (exists w',
     apply (D := Aquaform.dialect) always_ok ∅ (blog_tables diff_conn)
       (renamed_world diff_conn) = Some w' /\
     dropped (log w') = ["users"; "posts"]) /\
  (exists w',
     apply (D := Aquaformmy.dialect) always_ok ∅ (blog_tables mysql_conn)
       (renamed_world mysql_conn) = Some w' /\
     dropped (log w') = ["posts"; "users"]).
Proof.
split; (eexists; split; [by vm_compute|]; by vm_compute).
Qed.

(** Claim C2 as stated fails: two desired resources describe a table of
    the same name ([users]), the state is empty and the database accepts
    everything.  [apply] files both creations under [users], carries out
    the later one only, and the next [plan] still wants to create the
    other. *)
Lemma apply_twice_shared_table_name_not_empty :
  exists w',
    apply (D := Aquaform.dialect) always_ok ∅ (twin_tables diff_conn) empty_world
      = Some w' /\
    Forall succeeded (log w') /\
    dict_keys (st_resources w') = ["users_b"] /\
    (dict_keys <$> plan (twin_tables diff_conn) w') = Some ["users_a"] /\
    plan (twin_tables diff_conn) w' ≠ Some [].
Proof.
eexists. split; [by vm_compute|]. split_and!.
- vm_compute. repeat constructor.
- by vm_compute.
- by vm_compute.
- vm_compute. discriminate.
Qed.

(** Scenario S1: the example tables, an empty state, every call accepted;
    the second plan is empty. *)
Lemma apply_then_plan_empty_witness :
  (NoDup (dict_keys (blog_tables diff_conn)) /\
   NoDup (table_names (blog_tables diff_conn)) /\
   state_ok (D := Aquaform.dialect) empty_world) /\
  exists w',
    apply (D := Aquaform.dialect) always_ok ∅ (blog_tables diff_conn) empty_world
      = Some w' /\
    Forall succeeded (log w') /\
    plan (blog_tables diff_conn) w' = Some [].
Proof.
split.
- split_and!; [apply blog_tables_keys|apply blog_table_names|apply empty_world_ok].
- assert (exists w', apply (D := Aquaform.dialect) always_ok ∅ (blog_tables diff_conn)
                       empty_world = Some w' /\ Forall succeeded (log w'))
    as (w' & E & Hs).
  { eexists. split; [vm_compute; reflexivity|]. simpl. repeat constructor. }
  exists w'. split; [exact E|]. split; [exact Hs|].
  apply (apply_then_plan_empty always_ok ∅ (blog_tables diff_conn) empty_world w').
  + apply blog_tables_keys.
  + apply blog_table_names.
  + apply empty_world_ok.
  + intros rid Hrid. exfalso. exact (not_elem_of_nil rid Hrid).
  + reflexivity.
  + exact E.
  + exact Hs.
Defined.




(** On the example with a database that refuses everything, both planned
    jobs are attempted and the state stays as it was. *)
Example apply_all_failing :
  exists w',
    apply (D := Aquaform.dialect) always_failing ∅ (blog_tables diff_conn)
      (blog_world diff_conn) = Some w' /\
    attempted (log w') = ["posts_table"; "comments_table"] /\
    st_resources w' = st_resources (blog_world diff_conn).
Proof. eexists. split; [by vm_compute|]. split; by vm_compute. Qed.



(** On the twins: one creation is carried out, for the later resource. *)
Example apply_twins :
  exists w',
    apply (D := Aquaform.dialect) always_ok ∅ (twin_tables diff_conn) empty_world
      = Some w' /\
    attempted (log w') = ["users_b"] /\
    dict_keys (st_resources w') = ["users_b"].
Proof. eexists. split; [by vm_compute|]. split; by vm_compute. Qed.

(** * Further properties of the code *)

(** ** Data model: round trips *)

(** Property X1.
    What [to_dict] writes, [from_dict] reads back: a column and a foreign
    key unchanged; a table under the resource id it is read for, with an
    empty foreign-key list turned into [None] because [Table.to_dict]
    leaves the key out.  The [type] discriminator is not written. *)
Theorem from_dict_to_dict_round_trip `{D : Dialect} (c : Column) (fk : ForeignKey)
    (resource_id : string) (t : Table) :
  Column_from_dict (Column_to_dict c) = Some c /\
  ForeignKey_from_dict (ForeignKey_to_dict fk) = Some fk /\
  Table_from_dict resource_id (Table_to_dict t)
    = Some {| t_name := t_name t; t_conn := t_conn t; t_columns := t_columns t;
              t_primary_key := t_primary_key t;
              t_foreign_keys :=
                match t_foreign_keys t with
                | Some (fk :: fks) => Some (fk :: fks)
                | _ => None
                end;
              t_resource_id := resource_id |} /\
  d_type (Table_to_dict t) = None.
Proof.
split_and!.
- by destruct c.
- by destruct fk.
- rewrite Table_from_to_dict. unfold reloaded. f_equal.
  by destruct t as [? ? ? ? [[|? ?]|] ?].
- done.
Qed.

(** ** State store *)

(** Property X2.
    [get_resource], [add_resource] and [remove_resource] on a state whose
    resource ids are distinct: adding sets the entry of that id (in place
    when the id is known, at the end otherwise), removing clears it, and
    neither touches another id, the order of the others or the trace. *)
Theorem state_store_lookup `{D : Dialect} (w : World) (rid rid' : string) (d : TableD) :
  NoDup (dict_keys (st_resources w)) ->
  get_resource rid' (add_resource rid d w)
    = (if decide (rid' = rid) then Some d else get_resource rid' w) /\
  get_resource rid' (remove_resource rid w)
    = (if decide (rid' = rid) then None else get_resource rid' w) /\
  dict_keys (st_resources (add_resource rid d w))
    = (if decide (rid ∈ dict_keys (st_resources w)) then dict_keys (st_resources w)
       else dict_keys (st_resources w) ++ [rid]) /\
  dict_keys (st_resources (remove_resource rid w))
    `sublist_of` dict_keys (st_resources w) /\
  NoDup (dict_keys (st_resources (add_resource rid d w))) /\
  NoDup (dict_keys (st_resources (remove_resource rid w))) /\
  log (add_resource rid d w) = log w /\ log (remove_resource rid w) = log w.
Proof.
intros Hnd. unfold get_resource, add_resource, remove_resource. simpl.
split_and!; try done.
- apply dict_get_set.
- by apply dict_get_del.
- apply dict_keys_set.
- apply dict_del_sublist.
- by apply dict_set_NoDup.
- by apply dict_del_NoDup.
Qed.

Lemma state_store_lookup_witness :
  NoDup (dict_keys (st_resources (blog_world diff_conn))) /\
  get_resource "posts_table"
    (remove_resource "posts_table" (blog_world diff_conn)) = None.
Proof.
assert (NoDup (dict_keys (st_resources (blog_world diff_conn)))) as Hnd.
{ unfold blog_world, dict_keys. simpl. decide_by_vm. }
split; [exact Hnd|].
destruct (state_store_lookup (blog_world diff_conn) "posts_table" "posts_table"
            (Table_to_dict (blog_users diff_conn)) Hnd) as (_ & H & _).
rewrite H. by rewrite decide_True.
Defined.

(** ** Lookup by table name *)

(** Property X3.
    [_get_table_by_name] returns the first resource, in insertion order,
    whose table has the name, and [None] exactly when no desired table has
    it. *)
Theorem get_table_by_name_first_match `{D : Dialect} (tables : list (string * Table))
    (name : string) :
  match _get_table_by_name tables name with
  | Some (resource_id, table) =>
      t_name table = name /\
      exists l1 l2, tables = l1 ++ (resource_id, table) :: l2 /\
                    name ∉ table_names l1
  | None => name ∉ table_names tables
  end.
Proof.
unfold table_names, dict_values.
induction tables as [|[rid t] tables IH]; simpl.
- apply not_elem_of_nil.
- case_bool_decide as E.
  + split; [done|]. exists [], tables. split; [done|]. apply not_elem_of_nil.
  + destruct (_get_table_by_name tables name) as [[rid' t']|].
    * destruct IH as (Hn & l1 & l2 & -> & Hl1). split; [done|].
      exists ((rid, t) :: l1), l2. split; [done|].
      simpl. rewrite not_elem_of_cons. split; [congruence|done].
    * rewrite not_elem_of_cons. split; [congruence|done].
Qed.

(** ** Loading several configuration files *)




(** ** Planner: the two ends *)

Lemma plan_desired_fresh `{D : Dialect} (w : World) (l : list (string * Table))
    (acc : list (string * change)) :
  st_resources w = [] -> NoDup (dict_keys acc ++ dict_keys l) ->
  foldl (plan_desired w) (Some acc) l
  = Some (acc ++ ((fun '(resource_id, table) => (resource_id, Create table)) <$> l)).
Proof.
intros Hw. revert acc. induction l as [|[rid t] l IH]; intros acc Hnd; simpl.
- by rewrite app_nil_r.
- unfold get_resource. rewrite Hw. simpl.
  unfold dict_keys in *. simpl in Hnd.
  rewrite dict_set_fresh.
  + rewrite IH.
    * by rewrite <- app_assoc.
    * rewrite fmap_app. simpl. rewrite <- app_assoc. done.
  + apply NoDup_app in Hnd as (_ & Hd & _). intros Hin. apply (Hd _ Hin). left.
Qed.

(** Property X5.
    With distinct resource ids in the configuration and nothing
    recorded, the plan is one creation per desired resource, in the order
    of the configuration. *)
Theorem plan_empty_state_creates_all `{D : Dialect} (tables : list (string * Table))
    (trace : list event) :
  NoDup (dict_keys tables) ->
  plan tables {| st_resources := []; log := trace |}
  = Some ((fun '(resource_id, table) => (resource_id, Create table)) <$> tables).
Proof.
intros Hnd. unfold plan. rewrite plan_desired_fresh; [done|done|done].
Qed.

Lemma plan_empty_state_creates_all_witness :
  NoDup (dict_keys (blog_tables diff_conn)) /\
  plan (blog_tables diff_conn) {| st_resources := []; log := [] |}
  = Some [ ("users_table", Create (blog_users diff_conn));
           ("posts_table", Create (blog_posts diff_conn));
           ("comments_table", Create (blog_comments diff_conn)) ].
Proof.
split; [apply blog_tables_keys|].
apply (plan_empty_state_creates_all (blog_tables diff_conn) []).
apply blog_tables_keys.
Defined.

Lemma plan_recorded_all `{D : Dialect} (w : World) (l : list (string * TableD))
    (acc : list (string * change)) :
  (forall k d, (k, d) ∈ l ->
     dict_get k (st_resources w) = Some d /\ TableD_nonempty d = true) ->
  NoDup (dict_keys acc ++ dict_keys l) ->
  foldl (plan_recorded [] w) acc (dict_keys l)
  = acc ++ ((fun '(resource_id, d) =>
               (resource_id, Delete (default resource_id (d_name d)))) <$> l).
Proof.
revert acc. induction l as [|[rid d] l IH]; intros acc Hl Hnd; simpl.
- by rewrite app_nil_r.
- unfold plan_recorded at 2. simpl. unfold get_resource.
  destruct (Hl rid d) as [-> Hne]; [left|]. simpl. rewrite Hne.
  unfold dict_keys in *. simpl in Hnd.
  rewrite dict_set_fresh.
  + rewrite IH.
    * by rewrite <- app_assoc.
    * intros k d' Hin. apply Hl. by right.
    * rewrite fmap_app. simpl. by rewrite <- app_assoc.
  + apply NoDup_app in Hnd as (_ & Hd & _). intros Hin. apply (Hd _ Hin). left.
Qed.

(** Property X6.
    With an empty configuration and a state of distinct resource ids
    whose descriptors are not empty dictionaries, the plan is one deletion
    per recorded resource, in the order of the state, each carrying the
    recorded table name, or the resource id when the descriptor has no
    [name]. *)
Theorem plan_empty_config_deletes_all `{D : Dialect} (w : World) :
  NoDup (dict_keys (st_resources w)) ->
  Forall (fun item => TableD_nonempty item.2 = true) (st_resources w) ->
  plan [] w
  = Some ((fun '(resource_id, d) =>
             (resource_id, Delete (default resource_id (d_name d))))
          <$> st_resources w).
Proof.
intros Hnd Hne. unfold plan. simpl.
rewrite (plan_recorded_all w (st_resources w) []); [done| |done].
intros k d Hin. split.
- by apply elem_of_dict_get.
- rewrite Forall_forall in Hne. exact (Hne (k, d) Hin).
Qed.

Lemma plan_empty_config_deletes_all_witness :
  (NoDup (dict_keys (st_resources (blog_recorded diff_conn))) /\
   Forall (fun item => TableD_nonempty item.2 = true)
     (st_resources (blog_recorded diff_conn))) /\
  plan [] (blog_recorded diff_conn)
  = Some [ ("users_table", Delete "users"); ("posts_table", Delete "posts");
           ("comments_table", Delete "comments") ].
Proof.
assert (NoDup (dict_keys (st_resources (blog_recorded diff_conn)))) as Hnd.
{ unfold blog_recorded, dict_keys. simpl. decide_by_vm. }
assert (Forall (fun item => TableD_nonempty item.2 = true)
          (st_resources (blog_recorded diff_conn))) as Hne.
{ unfold blog_recorded. simpl. repeat constructor. }
split; [by split|].
apply (plan_empty_config_deletes_all (blog_recorded diff_conn) Hnd Hne).
Defined.





(** ** Diff engine: when the delta is empty *)

Lemma omap_nil_inv {A B} (f : A -> option B) (l : list A) :
  omap f l = [] -> forall x, x ∈ l -> f x = None.
Proof.
induction l as [|a l IH]; csimpl; intros H x Hx.
- by apply elem_of_nil in Hx.
- destruct (f a) eqn:E; [done|].
  apply elem_of_cons in Hx as [->|Hx]; [done|by apply IH].
Qed.

Section MapsAgree.
Context {K V : Type} `{EqDecision K} (eqb : V -> V -> bool).
Context (eqb_spec : forall x y, eqb x y = true <-> x = y).

(** The three loops over two dictionaries (missing on the old side,
    differing, missing on the new side) collect nothing exactly when the
    dictionaries hold the same value under every key. *)
Lemma dict_diff_empty (mo mn : list (K * V)) :
  NoDup (dict_keys mo) -> NoDup (dict_keys mn) ->
  (omap (fun '(k, v) => if dict_mem k mo then None else Some v) mn = [] /\
   omap (fun '(k, v) =>
           match dict_get k mo with
           | Some o => if negb (eqb v o) then Some (o, v) else None
           | None => None
           end) mn = [] /\
   omap (fun '(k, v) => if dict_mem k mn then None else Some v) mo = [])
  <-> forall k, dict_get k mo = dict_get k mn.
Proof.
intros Ho Hn. split.
- intros (Ha & Hm & Hr) k.
  destruct (dict_get k mn) as [vn|] eqn:En.
  + pose proof (dict_get_Some_elem _ _ _ En) as Hin.
    pose proof (omap_nil_inv _ _ Ha _ Hin) as Ha'. simpl in Ha'.
    pose proof (omap_nil_inv _ _ Hm _ Hin) as Hm'. simpl in Hm'.
    destruct (dict_mem k mo) eqn:M; [|done].
    apply dict_mem_true, dict_get_is_Some in M as [vo Evo].
    rewrite Evo in Hm' |- *. f_equal.
    destruct (eqb vn vo) eqn:E; [|done]. symmetry. by apply eqb_spec.
  + destruct (dict_get k mo) as [vo|] eqn:Eo; [|done].
    pose proof (dict_get_Some_elem _ _ _ Eo) as Hin.
    pose proof (omap_nil_inv _ _ Hr _ Hin) as Hr'. simpl in Hr'.
    destruct (dict_mem k mn) eqn:M; [|done].
    apply dict_mem_true, dict_get_is_Some in M as [vn Evn]. congruence.
- intros Heq. split_and!; apply omap_None; intros [k v] Hin.
  + assert (dict_mem k mo = true) as ->; [|done].
    apply dict_mem_true, dict_get_is_Some. rewrite Heq.
    rewrite (elem_of_dict_get k v mn) by done. eauto.
  + rewrite Heq, (elem_of_dict_get k v mn) by done.
    assert (eqb v v = true) as -> by (by apply eqb_spec). done.
  + assert (dict_mem k mn = true) as ->; [|done].
    apply dict_mem_true, dict_get_is_Some. rewrite <- Heq.
    rewrite (elem_of_dict_get k v mo) by done. eauto.
Qed.

End MapsAgree.

Lemma entry_None {A} (l : list A) : entry l = None <-> l = [].
Proof. by destruct l. Qed.

Lemma compare_tables_no_changes `{D : Dialect} (old_table new_table : Table) :
  _compare_tables old_table new_table = no_changes <->
  (forall name,
     dict_get name (dict_by col_name (t_columns old_table))
     = dict_get name (dict_by col_name (t_columns new_table))) /\
  t_primary_key old_table = t_primary_key new_table /\
  (forall cols,
     dict_get cols (dict_by fk_columns (default [] (t_foreign_keys old_table)))
     = dict_get cols (dict_by fk_columns (default [] (t_foreign_keys new_table)))).
Proof.
rewrite compare_tables_unfold.
destruct (fk_guard_irrelevant old_table new_table) as [-> ->].
pose proof (dict_diff_empty Column_equals Column_equals_spec
              (dict_by col_name (t_columns old_table))
              (dict_by col_name (t_columns new_table))
              (dict_by_keys_NoDup _ _) (dict_by_keys_NoDup _ _)) as Hc.
pose proof (dict_diff_empty ForeignKey_equals ForeignKey_equals_spec
              (old_fks_map_of old_table) (old_fks_map_of new_table)
              (dict_by_keys_NoDup _ _) (dict_by_keys_NoDup _ _)) as Hf.
unfold added_columns_of, modified_columns_of, removed_columns_of, added_fks_of,
  removed_fks_of, changed_fks, old_fks_map_of in *. cbv zeta.
rewrite <- Hc, <- Hf. unfold no_changes. split.
- intros [= H1 H2 H3 H4 H5 H6].
  apply entry_None in H1, H2, H3, H5, H6.
  apply app_eq_nil in H5 as [H5 H5'], H6 as [H6 H6'].
  apply fmap_nil_inv in H5'.
  split_and!; try done. by case_bool_decide.
- intros ((-> & -> & ->) & Hpk & (-> & -> & ->)). simpl.
  by rewrite bool_decide_eq_false_2 by (intros E; by apply E).
Qed.

(** Property X8.
    [_compare_tables] returns the empty delta exactly when the two tables
    hold the same column under every column name, have the same primary
    key list, and hold the same foreign key under every column tuple;
    where a name or tuple occurs twice in a table, its last occurrence
    counts.  Table name, connection fields, resource id and the order of
    columns and foreign keys play no part. *)
Theorem compare_tables_empty_iff `{D : Dialect} (old_table new_table : Table) :
  _compare_tables old_table new_table = no_changes <->
  (forall name,
     dict_get name (dict_by col_name (t_columns old_table))
     = dict_get name (dict_by col_name (t_columns new_table))) /\
  t_primary_key old_table = t_primary_key new_table /\
  (forall cols,
     dict_get cols (dict_by fk_columns (default [] (t_foreign_keys old_table)))
     = dict_get cols (dict_by fk_columns (default [] (t_foreign_keys new_table)))).
Proof. apply compare_tables_no_changes. Qed.

(** Property X9.
    The delta in the two directions: the columns added from [a] to [b]
    are the columns removed from [b] to [a], in the same order; the
    primary-key entry is the same pair swapped; and the delta is empty in
    one direction exactly when it is empty in the other. *)
Theorem compare_tables_reversed `{D : Dialect} (a b : Table) :
  add_columns (_compare_tables b a) = remove_columns (_compare_tables a b) /\
  remove_columns (_compare_tables b a) = add_columns (_compare_tables a b) /\
  modify_primary_key (_compare_tables b a)
    = (fun '(x, y) => (y, x)) <$> modify_primary_key (_compare_tables a b) /\
  (_compare_tables b a = no_changes <-> _compare_tables a b = no_changes).
Proof.
split_and!.
- by rewrite !compare_tables_unfold.
- by rewrite !compare_tables_unfold.
- rewrite !compare_tables_unfold. simpl.
  repeat case_bool_decide; try done; congruence.
- rewrite !compare_tables_no_changes. split.
  + intros (H1 & H2 & H3). split_and!; [intros k; by rewrite H1|done|
                                        intros k; by rewrite H3].
  + intros (H1 & H2 & H3). split_and!; [intros k; by rewrite H1|done|
                                        intros k; by rewrite H3].
Qed.

Lemma dict_get_by_Permutation {K V} `{EqDecision K} (key : V -> K) (l l' : list V)
    (k : K) :
  NoDup (key <$> l) -> l' ≡ₚ l ->
  dict_get k (dict_by key l') = dict_get k (dict_by key l).
Proof.
intros Hnd Hp.
assert (NoDup (key <$> l')) as Hnd' by (by rewrite Hp).
destruct (dict_get k (dict_by key l)) as [x|] eqn:E.
- apply dict_get_by_Some in E as [Hx <-]; [|done].
  apply dict_get_by; [done|]. by rewrite Hp.
- destruct (dict_get k (dict_by key l')) as [y|] eqn:E'; [|done].
  apply dict_get_by_Some in E' as [Hy <-]; [|done].
  rewrite Hp in Hy. by rewrite (dict_get_by key l y) in E.
Qed.

(** Property X10.
    The diff does not see order: when the new table lists the columns of
    the old one in another order (column names distinct), and its foreign
    keys likewise (column tuples distinct), with the same primary key
    list, the delta is empty. *)
Theorem compare_tables_ignores_order `{D : Dialect} (old_table new_table : Table) :
  NoDup (col_name <$> t_columns old_table) ->
  t_columns new_table ≡ₚ t_columns old_table ->
  t_primary_key new_table = t_primary_key old_table ->
  NoDup (fk_columns <$> default [] (t_foreign_keys old_table)) ->
  default [] (t_foreign_keys new_table) ≡ₚ default [] (t_foreign_keys old_table) ->
  _compare_tables old_table new_table = no_changes.
Proof.
intros Hc Hpc Hpk Hf Hpf. apply compare_tables_no_changes. split_and!.
- intros name. symmetry. by apply dict_get_by_Permutation.
- done.
- intros cols. symmetry. by apply dict_get_by_Permutation.
Qed.

(** The example table with its columns and its foreign keys in the
    opposite order. *)
Definition blog_comments_reordered `{D : Dialect} (c : conn) : Table :=
  {| t_name := t_name (blog_comments c); t_conn := c;
     t_columns := reverse (t_columns (blog_comments c));
     t_primary_key := t_primary_key (blog_comments c);
     t_foreign_keys := Some (reverse (default [] (t_foreign_keys (blog_comments c))));
     t_resource_id := t_resource_id (blog_comments c) |}.

Lemma compare_tables_ignores_order_witness :
  (NoDup (col_name <$> t_columns (blog_comments diff_conn)) /\
   t_columns (blog_comments_reordered diff_conn) ≠ t_columns (blog_comments diff_conn)) /\
  _compare_tables (blog_comments diff_conn) (blog_comments_reordered diff_conn)
  = no_changes.
Proof.
assert (NoDup (col_name <$> t_columns (blog_comments diff_conn))) as Hc
  by (simpl; decide_by_vm).
split; [split; [exact Hc|by vm_compute]|].
apply (compare_tables_ignores_order (blog_comments diff_conn)
         (blog_comments_reordered diff_conn)).
- exact Hc.
- apply reverse_Permutation.
- reflexivity.
- simpl. decide_by_vm.
- apply reverse_Permutation.
Defined.

(** ** Topological sort: cycles *)

(** Property X11.
    [_topological_sort] returns on every graph, cyclic or not: the
    recursion stops at a node it is already inside.  The order has no
    repetition, holds every key of the graph and nothing but keys and
    listed neighbours.  On the graph of any desired set, whatever
    references its foreign keys make, it is the desired table names, each
    once. *)
Theorem topological_sort_total_with_cycles `{D : Dialect}
    (graph : list (string * list string)) (tables : list (string * Table)) :
  (exists order,
     _topological_sort graph = Some order /\ NoDup order /\
     (forall v, v ∈ dict_keys graph -> v ∈ order) /\
     (forall v, v ∈ order ->
        v ∈ dict_keys graph \/ v ∈ concat (dict_values graph))) /\
  (exists order,
     _topological_sort (_build_dependency_graph tables) = Some order /\
     NoDup order /\ forall x, x ∈ order <-> x ∈ table_names tables).
Proof.
split; [|apply table_order_spec].
destruct (topological_sort_correct graph) as (order & E & Hnd & Hall & Hsub & _).
exists order. split_and!; try done.
intros v Hv. apply Hsub in Hv. unfold graph_nodes in Hv.
by apply elem_of_list_to_set, elem_of_app in Hv.
Qed.

(** Two tables that reference each other. *)
Definition cyclic_tables : list (string * Table (D := Aquaform.dialect)) :=
  [ ("a_table",
     {| t_name := "a"; t_conn := diff_conn; t_columns := [blog_column "id" "UUID"];
        t_primary_key := ["id"]; t_foreign_keys := Some [blog_fk "id" "b"];
        t_resource_id := "a_table" |});
    ("b_table",
     {| t_name := "b"; t_conn := diff_conn; t_columns := [blog_column "id" "UUID"];
        t_primary_key := ["id"]; t_foreign_keys := Some [blog_fk "id" "a"];
        t_resource_id := "b_table" |}) ].

(** On the cycle the table met first comes last. *)
Example topological_sort_cycle :
  _build_dependency_graph cyclic_tables = [("a", ["b"]); ("b", ["a"])] /\
  _topological_sort (_build_dependency_graph cyclic_tables) = Some ["b"; "a"].
Proof. split; by vm_compute. Qed.

(** ** Reconciler: what a run leaves alone *)

Section ReconcilerExtras.
Context `{D : Dialect}.
Context (backend : list event -> conn -> op -> bool).
Context (environ : gmap string string).

Lemma call_of_inj (rid rid' : string) (e : event) :
  call_of rid e -> call_of rid' e -> rid = rid'.
Proof. intros (c & o & ok & ->) (c' & o' & ok' & [= -> _ _ _]). done. Qed.

(** Where the entries of the state after [apply] come from. *)
Lemma apply_entries (tables : list (string * Table)) (w w' : World) :
  NoDup (dict_keys tables) -> state_ok w ->
  apply backend environ tables w = Some w' ->
  NoDup (dict_keys (st_resources w')) /\
  forall rid d,
    dict_get rid (st_resources w') = Some d ->
    dict_get rid (st_resources w) = Some d \/
    exists table, dict_get rid tables = Some table /\ d = Table_to_dict table.
Proof.
intros Ht Hok Happly.
destruct (apply_spec backend environ tables w Ht Hok)
  as (changes & order & Hplan & Hc & _ & _ & Horder & Hnil & Hcons).
destruct Hok as [Hnd Hw].
destruct (plan_lookup tables w Ht Hw) as (changes0 & Hplan0 & _ & Hlookup).
assert (changes0 = changes) as -> by congruence.
destruct changes as [|item changes].
{ rewrite Hnil in Happly by done. injection Happly as <-. split; [done|]. by left. }
destruct Hcons as (w1 & evs & _ & Happly1 & L & Hnd1 & C & _ & Hrest & Hjobs); [done|].
rewrite Happly1 in Happly. injection Happly as <-. simpl. split; [done|].
intros rid d Hd.
destruct (decide (rid ∈ job_rid <$> apply_jobs (item :: changes) order)) as [Hin|Hout].
- apply list_elem_of_fmap in Hin as (j & -> & Hj).
  destruct (Hjobs j Hj) as [[_ Hkeep]|[_ Hres]]; [left; congruence|].
  rewrite Hres in Hd.
  apply apply_jobs_elem in Hj as (Hin & _).
  apply (elem_of_dict_get _ _ _ Hc) in Hin. rewrite Hlookup in Hin.
  destruct (dict_get (job_rid j) tables) as [table|] eqn:Htable.
  + apply desired_change_cases in Hin as (_ & _ & Hshape).
    right. exists table. split; [done|].
    destruct j; simpl in *; try done; by simplify_eq.
  + destruct (get_resource (job_rid j) w); [|done].
    injection Hin as Hin. destruct j; simpl in *; done.
- left. by rewrite <- (Hrest rid Hout).
Qed.

Lemma apply_state_ok (tables : list (string * Table)) (w w' : World) :
  NoDup (dict_keys tables) -> state_ok w ->
  apply backend environ tables w = Some w' -> state_ok w'.
Proof.
intros Ht Hok Happly.
destruct (apply_entries tables w w' Ht Hok Happly) as [Hnd Hfrom].
split; [done|]. intros rid d Hd.
destruct (Hfrom rid d Hd) as [Hold|(table & _ & ->)].
- by apply Hok.
- rewrite Table_from_to_dict. eauto.
Qed.

(** Property X12.
    After [apply], every entry of the state is an entry the state had
    before or the descriptor [Table.to_dict] gives for the desired table
    of that resource id, connection fields as the configuration spells
    them: what the environment holds and what the database answers never
    reach the state. *)
Theorem apply_records_configuration_as_written (tables : list (string * Table))
    (w : World) :
  NoDup (dict_keys tables) -> state_ok w ->
  exists w',
    apply backend environ tables w = Some w' /\
    NoDup (dict_keys (st_resources w')) /\
    forall resource_id d,
      dict_get resource_id (st_resources w') = Some d ->
      dict_get resource_id (st_resources w) = Some d \/
      exists table,
        dict_get resource_id tables = Some table /\ d = Table_to_dict table.
Proof.
intros Ht Hok.
destruct (apply_spec backend environ tables w Ht Hok)
  as (changes & order & _ & _ & _ & _ & _ & Hnil & Hcons).
assert (exists w', apply backend environ tables w = Some w') as [w' Happly].
{ destruct changes as [|item changes]; [eauto|].
  destruct Hcons as (w1 & evs & _ & Happly1 & _); [done|]. eauto. }
exists w'. split; [done|]. by apply apply_entries.
Qed.

(** Property X13.
    [apply] walks the desired table names only.  A recorded resource that
    the configuration no longer holds, and whose recorded table name is
    not the name of a desired table, is planned for deletion, but the run
    makes no call for it and leaves its entry in the state, so that the
    next plan lists the same deletion again. *)
Theorem apply_skips_deletion_of_undesired_name (tables : list (string * Table))
    (w : World) (resource_id : string) (d : TableD) :
  NoDup (dict_keys tables) -> state_ok w ->
  dict_get resource_id (st_resources w) = Some d ->
  dict_get resource_id tables = None ->
  default resource_id (d_name d) ∉ table_names tables ->
  exists changes w' evs changes',
    plan tables w = Some changes /\
    dict_get resource_id changes = Some (Delete (default resource_id (d_name d))) /\
    apply backend environ tables w = Some w' /\
    log w' = log w ++ evs /\
    Forall (fun e => ~ call_of resource_id e) evs /\
    dict_get resource_id (st_resources w') = Some d /\
    plan tables w' = Some changes' /\
    dict_get resource_id changes' = Some (Delete (default resource_id (d_name d))).
Proof.
intros Ht Hok Hd Hnot Hname.
destruct (apply_spec backend environ tables w Ht Hok)
  as (changes & order & Hplan & Hc & _ & _ & Horder & Hnil & Hcons).
pose proof Hok as [Hnd Hw].
destruct (plan_lookup tables w Ht Hw) as (changes0 & Hplan0 & _ & Hlookup).
assert (changes0 = changes) as -> by congruence.
assert (dict_get resource_id changes
        = Some (Delete (default resource_id (d_name d)))) as Hdel.
{ rewrite Hlookup, Hnot. unfold get_resource. by rewrite Hd. }
destruct Hcons as (w1 & evs & _ & Happly & L & Hnd1 & C & _ & Hrest & _).
{ intros ->. done. }
assert (resource_id ∉ job_rid <$> apply_jobs changes order) as Hout.
{ intros (j & Hj & Hin)%list_elem_of_fmap.
  apply apply_jobs_elem in Hin as (Hin & Hord & _).
  apply (elem_of_dict_get _ _ _ Hc) in Hin. rewrite <- Hj, Hdel in Hin.
  injection Hin as Hin. rewrite <- Hin in Hord. simpl in Hord.
  by apply Horder in Hord. }
assert (dict_get resource_id (st_resources (save_state w1)) = Some d) as Hkept.
{ simpl. by rewrite (Hrest _ Hout). }
pose proof (apply_state_ok tables w (save_state w1) Ht Hok Happly) as Hok'.
destruct (plan_lookup tables (save_state w1) Ht (proj2 Hok'))
  as (changes' & Hplan' & _ & Hlookup').
exists changes, (save_state w1), (evs ++ [SaveState (st_resources w1)]), changes'.
split_and!; try done.
- simpl. by rewrite L, <- app_assoc.
- apply Forall_app. split.
  + eapply Forall_impl; [exact C|]. intros e (j & Hj & Hcall) Hcall'.
    apply Hout. rewrite (call_of_inj _ _ _ Hcall' Hcall).
    by apply list_elem_of_fmap_2.
  + apply Forall_singleton. by intros (c & o & ok & ?).
- rewrite Hlookup', Hnot. unfold get_resource. by rewrite Hkept.
Qed.

(** *** Destroy *)

Lemma table_name_to_resource_desired (tables : list (string * Table)) (w : World)
    (name : string) :
  name ∈ table_names tables ->
  exists rid, dict_get name (table_name_to_resource tables w) = Some rid /\
              rid ∈ dict_keys tables.
Proof.
intros Hname. unfold table_name_to_resource.
assert (exists rid,
  dict_get name (foldl (fun m '(resource_id, table) =>
                          dict_set (t_name table) resource_id m) [] tables)
    = Some rid /\ rid ∈ dict_keys tables) as (rid & Hget & Hrid).
{ revert Hname. unfold table_names, dict_values, dict_keys.
  induction tables as [|[r t] tables IH] using rev_ind; [by intros ?%elem_of_nil|].
  rewrite !fmap_app, foldl_app. simpl. rewrite dict_get_set.
  intros Hin. case_decide as E.
  - exists r. split; [done|]. apply elem_of_app. right. left.
  - apply elem_of_app in Hin as [Hin|Hin].
    + destruct (IH Hin) as (rid & Hget & Hrid). exists rid. split; [done|].
      apply elem_of_app. by left.
    + apply list_elem_of_singleton in Hin. done. }
exists rid. split; [|done]. revert Hget.
generalize (foldl (fun m '(resource_id, table) =>
                     dict_set (t_name table) resource_id m) [] tables).
induction (st_resources w) as [|[r sd] l IH]; intros m Hget; [done|].
simpl. apply IH. destruct (d_name sd) as [table_name|]; [|done].
destruct (bool_decide (table_name ≠ "") && negb (dict_mem table_name m)) eqn:G;
  [|done].
apply andb_prop in G as [_ G]. apply negb_true_iff, dict_mem_false in G.
rewrite dict_get_set_ne; [done|]. intros ->. apply G.
apply dict_get_is_Some. eauto.
Qed.

Lemma destroy_loop_keeps (names : list (string * string)) (order : list string)
    (w : World) (rid : string) :
  state_ok w ->
  (forall name, name ∈ order -> dict_get name names ≠ Some rid) ->
  exists w' evs,
    foldl (destroy_step backend environ names) (Some w) order = Some w' /\
    state_ok w' /\ log w' = log w ++ evs /\
    Forall (fun e => ~ call_of rid e) evs /\
    dict_get rid (st_resources w') = dict_get rid (st_resources w).
Proof.
revert w. induction order as [|name order IH]; intros w Hok Hnames.
- exists w, []. by rewrite app_nil_r.
- assert (exists w1 evs1,
    destroy_step backend environ names (Some w) name = Some w1 /\
    state_ok w1 /\ log w1 = log w ++ evs1 /\
    Forall (fun e => ~ call_of rid e) evs1 /\
    dict_get rid (st_resources w1) = dict_get rid (st_resources w))
    as (w1 & evs1 & E1 & Hok1 & L1 & C1 & G1).
  { unfold destroy_step. simpl.
    destruct (dict_get name names) as [rid0|] eqn:N;
      [|exists w, []; by rewrite app_nil_r].
    case_bool_decide; [exists w, []; by rewrite app_nil_r|].
    destruct (present (get_resource rid0 w)) as [d|] eqn:P;
      [|exists w, []; by rewrite app_nil_r].
    assert (rid ≠ rid0) as Hne.
    { intros ->. by apply (Hnames name); [left|]. }
    assert (dict_get rid0 (st_resources w) = Some d) as Hd.
    { unfold present, get_resource in P.
      destruct (dict_get rid0 (st_resources w)) as [d'|]; [|done].
      by destruct (TableD_nonempty d'); simplify_eq. }
    pose proof Hok as [Hnd Hw]. destruct (Hw rid0 d Hd) as [t Hfrom].
    rewrite (Table_from_dict_conn _ _ _ Hfrom). simpl.
    destruct (with_client_spec backend rid0 (resolve_conn environ (t_conn t))
                (DropTable name) w) as (ok & evs & -> & Hc & _); [done|].
    eexists _, evs. split; [done|].
    assert (Forall (fun e => ~ call_of rid e) evs) as Hcalls.
    { eapply Forall_impl; [exact Hc|]. intros e Hcall Hcall'.
      apply Hne. by apply (call_of_inj _ _ e). }
    destruct ok; split_and!; try done.
    - by apply remove_resource_ok.
    - simpl. rewrite dict_get_del by done. by rewrite decide_False. }
  destruct (IH w1 Hok1) as (w' & evs2 & E2 & Hok' & L2 & C2 & G2).
  { intros n Hn. apply Hnames. by right. }
  exists w', (evs1 ++ evs2). cbn [foldl]. rewrite E1. split_and!; try done.
  + by rewrite L2, L1, <- app_assoc.
  + by apply Forall_app.
  + by rewrite G2.
Qed.

(** Property X14.
    [destroy] without resource id walks the desired table names and looks
    each up in a dictionary in which the desired resources come first:
    a recorded resource that the configuration does not hold is never
    dropped, whatever its table name.  The run makes no call for it and
    its entry stays in the state. *)
Theorem destroy_all_keeps_resources_outside_configuration
    (tables : list (string * Table)) (w : World) (resource_id : string) :
  state_ok w -> resource_id ∉ dict_keys tables ->
  exists w' evs,
    destroy backend environ tables None w = Some w' /\
    log w' = log w ++ evs /\
    Forall (fun e => ~ call_of resource_id e) evs /\
    dict_get resource_id (st_resources w') = dict_get resource_id (st_resources w).
Proof.
intros Hok Hout. unfold destroy, destroy_all.
destruct (table_order_spec tables) as (order & -> & _ & Horder). simpl.
destruct (table_name_to_resource tables w) as [|item names] eqn:N.
- exists w, []. by rewrite app_nil_r.
- destruct (destroy_loop_keeps (item :: names) (delete_order order) w resource_id Hok)
    as (w' & evs & -> & _ & L & C & G).
  { intros name Hname%delete_order_elem%Horder.
    destruct (table_name_to_resource_desired tables w name Hname) as (r & Hr & Hin).
    rewrite N in Hr. rewrite Hr. intros [= ->]. done. }
  simpl. exists (save_state w'), (evs ++ [SaveState (st_resources w')]).
  split_and!; try done.
  + simpl. by rewrite L, <- app_assoc.
  + apply Forall_app. split; [done|].
    apply Forall_singleton. by intros (c & o & ok & ?).
Qed.

(** Property X15.
    [destroy] of one resource concerns that resource alone: no call of
    the run is made for another resource, every other entry of the state stays as it
    was, an id the state does not hold changes nothing and writes nothing,
    and the configuration plays no part.  An empty id counts as no id and
    destroys everything. *)
Theorem destroy_one_touches_one_resource (tables : list (string * Table)) (w : World)
    (resource_id other : string) :
  state_ok w -> resource_id ≠ "" -> other ≠ resource_id ->
  destroy backend environ tables (Some "") w = destroy backend environ tables None w /\
  exists w' evs,
    destroy backend environ tables (Some resource_id) w = Some w' /\
    destroy backend environ [] (Some resource_id) w = Some w' /\
    log w' = log w ++ evs /\
    Forall (fun e => ~ call_of other e) evs /\
    dict_get other (st_resources w') = dict_get other (st_resources w) /\
    (dict_get resource_id (st_resources w) = None -> w' = w).
Proof.
intros Hok Hne Hother. split.
{ unfold destroy. by rewrite bool_decide_eq_true_2. }
unfold destroy. rewrite bool_decide_eq_false_2 by done.
destruct (destroy_one_spec backend environ resource_id w Hok) as (w' & E & Hnone & Hsome).
destruct (dict_get resource_id (st_resources w)) as [d|] eqn:Hd.
- destruct Hsome as (evs & Hc & _ & Hcases); [eauto|].
  assert (Forall (fun e => ~ call_of other e) evs) as Hcalls.
  { eapply Forall_impl; [exact Hc|]. intros e Hcall Hcall'.
    apply Hother. by apply (call_of_inj _ _ e). }
  destruct Hcases as [(_ & Hst & L)|(_ & Hst & L)].
  + exists w', (evs ++ [SaveState (st_resources w')]). split_and!; try done.
    * apply Forall_app. split; [done|].
      apply Forall_singleton. by intros (c & o & ok & ?).
    * rewrite Hst, dict_get_del by apply Hok. by rewrite decide_False.
  + exists w', evs. split_and!; try done. by rewrite Hst.
- rewrite (Hnone eq_refl) in E. exists w, []. rewrite app_nil_r. by split_and!.
Qed.

End ReconcilerExtras.

Lemma apply_records_configuration_as_written_witness :
  (NoDup (dict_keys (blog_tables diff_conn)) /\ state_ok (blog_world diff_conn)) /\
  exists w',
    apply always_ok ∅ (blog_tables diff_conn) (blog_world diff_conn) = Some w' /\
    NoDup (dict_keys (st_resources w')) /\
    forall resource_id d,
      dict_get resource_id (st_resources w') = Some d ->
      dict_get resource_id (st_resources (blog_world diff_conn)) = Some d \/
      exists table,
        dict_get resource_id (blog_tables diff_conn) = Some table /\
        d = Table_to_dict table.
Proof.
split; [split; [apply blog_tables_keys|apply blog_world_ok]|].
apply (apply_records_configuration_as_written always_ok ∅ (blog_tables diff_conn)
         (blog_world diff_conn)).
- apply blog_tables_keys.
- apply blog_world_ok.
Defined.

Lemma legacy_name_not_desired :
  default "legacy_table" (d_name (Table_to_dict (blog_legacy diff_conn)))
    ∉ table_names (blog_tables diff_conn).
Proof.
unfold table_names, dict_values. simpl.
rewrite !not_elem_of_cons. split_and!; try done. apply not_elem_of_nil.
Qed.

Lemma apply_skips_deletion_of_undesired_name_witness :
  (NoDup (dict_keys (blog_tables diff_conn)) /\ state_ok (blog_world diff_conn) /\
   dict_get "legacy_table" (blog_tables diff_conn) = None) /\
  exists changes w' evs changes',
    plan (blog_tables diff_conn) (blog_world diff_conn) = Some changes /\
    dict_get "legacy_table" changes = Some (Delete "legacy") /\
    apply always_ok ∅ (blog_tables diff_conn) (blog_world diff_conn) = Some w' /\
    log w' = log (blog_world diff_conn) ++ evs /\
    Forall (fun e => ~ call_of "legacy_table" e) evs /\
    dict_get "legacy_table" (st_resources w')
      = Some (Table_to_dict (blog_legacy diff_conn)) /\
    plan (blog_tables diff_conn) w' = Some changes' /\
    dict_get "legacy_table" changes' = Some (Delete "legacy").
Proof.
split; [split_and!; [apply blog_tables_keys|apply blog_world_ok|reflexivity]|].
apply (apply_skips_deletion_of_undesired_name always_ok ∅ (blog_tables diff_conn)
         (blog_world diff_conn) "legacy_table" (Table_to_dict (blog_legacy diff_conn))).
- apply blog_tables_keys.
- apply blog_world_ok.
- reflexivity.
- reflexivity.
- apply legacy_name_not_desired.
Defined.

Lemma destroy_all_keeps_resources_outside_configuration_witness :
  (state_ok (blog_world diff_conn) /\
   "legacy_table" ∉ dict_keys (blog_tables diff_conn)) /\
  exists w' evs,
    destroy always_ok ∅ (blog_tables diff_conn) None (blog_world diff_conn) = Some w' /\
    log w' = log (blog_world diff_conn) ++ evs /\
    Forall (fun e => ~ call_of "legacy_table" e) evs /\
    dict_get "legacy_table" (st_resources w')
      = dict_get "legacy_table" (st_resources (blog_world diff_conn)).
Proof.
assert ("legacy_table" ∉ dict_keys (blog_tables diff_conn)) as Hout.
{ unfold dict_keys. simpl. rewrite !not_elem_of_cons. split_and!; try done.
  apply not_elem_of_nil. }
split; [split; [apply blog_world_ok|exact Hout]|].
apply (destroy_all_keeps_resources_outside_configuration always_ok ∅
         (blog_tables diff_conn) (blog_world diff_conn) "legacy_table").
- apply blog_world_ok.
- exact Hout.
Defined.

Lemma destroy_one_touches_one_resource_witness :
  (state_ok (blog_world diff_conn) /\ "legacy_table" ≠ "" /\
   "users_table" ≠ "legacy_table") /\
  destroy always_ok ∅ (blog_tables diff_conn) (Some "") (blog_world diff_conn)
  = destroy always_ok ∅ (blog_tables diff_conn) None (blog_world diff_conn) /\
  exists w' evs,
    destroy always_ok ∅ (blog_tables diff_conn) (Some "legacy_table")
      (blog_world diff_conn) = Some w' /\
    destroy always_ok ∅ [] (Some "legacy_table") (blog_world diff_conn) = Some w' /\
    log w' = log (blog_world diff_conn) ++ evs /\
    Forall (fun e => ~ call_of "users_table" e) evs /\
    dict_get "users_table" (st_resources w')
      = dict_get "users_table" (st_resources (blog_world diff_conn)) /\
    (dict_get "legacy_table" (st_resources (blog_world diff_conn)) = None ->
     w' = blog_world diff_conn).
Proof.
split; [split_and!; [apply blog_world_ok|done|done]|].
apply (destroy_one_touches_one_resource always_ok ∅ (blog_tables diff_conn)
         (blog_world diff_conn) "legacy_table" "users_table").
- apply blog_world_ok.
- done.
- done.
Defined.

(** ** The clients: statements sent *)

Lemma foldl_fmap_steps {A B C} (g : A -> C -> A) (f : B -> C) (a : A) (l : list B) :
  foldl g a (f <$> l) = foldl (fun a x => g a (f x)) a l.
Proof. revert a. induction l as [|x l IH]; intros a; simpl; [done|apply IH]. Qed.

Lemma foldl_bind_steps {A B C} (g : A -> C -> A) (f : B -> list C) (a : A) (l : list B) :
  foldl g a (l ≫= f) = foldl (fun a x => foldl g a (f x)) a l.
Proof.
revert a. induction l as [|x l IH]; intros a; csimpl; [done|].
by rewrite foldl_app, IH.
Qed.

(** Sending statements one after the other until one cannot be built or
    is refused.  A step is the text of a statement, or [None] when
    building it raises. *)
Fixpoint send_all (server : list string -> string -> bool) (steps : list (option string))
    (sent : list string) : bool * list string :=
match steps with
| [] => (true, sent)
| None :: _ => (false, sent)
| Some sql :: steps =>
    if server sent sql then send_all server steps (sent ++ [sql])
    else (false, sent ++ [sql])
end.

Definition accepts_all : list string -> string -> bool := fun _ _ => true.

Lemma send_all_app server (steps1 steps2 : list (option string)) (sent : list string) :
  send_all server (steps1 ++ steps2) sent =
    let '(ok, sent') := send_all server steps1 sent in
    if ok then send_all server steps2 sent' else (false, sent').
Proof.
revert sent. induction steps1 as [|[sql|] steps1 IH]; intros sent; simpl.
- by destruct (send_all server steps2 sent).
- destruct (server sent sql); [apply IH|done].
- done.
Qed.

Lemma send_all_accepts_all (statements : list string) (sent : list string) :
  send_all accepts_all (Some <$> statements) sent = (true, sent ++ statements).
Proof.
revert sent. induction statements as [|sql l IH]; intros sent; simpl.
- by rewrite app_nil_r.
- rewrite IH. by rewrite <- app_assoc.
Qed.

Lemma send_all_extends server (steps : list (option string)) (sent : list string) :
  exists issued, (send_all server steps sent).2 = sent ++ issued.
Proof.
revert sent. induction steps as [|[sql|] steps IH]; intros sent; simpl.
- exists []. by rewrite app_nil_r.
- destruct (server sent sql).
  + destruct (IH (sent ++ [sql])) as [issued ->]. exists (sql :: issued).
    by rewrite <- app_assoc.
  + by exists [sql].
- exists []. by rewrite app_nil_r.
Qed.

(** What a run of [send_all] sends: a prefix of what a database that
    accepts everything would be sent; every statement but the last was
    accepted; on success all were, and nothing was left out. *)
Lemma send_all_spec server (steps : list (option string)) (sent : list string) :
  exists issued rest,
    (send_all server steps sent).2 = sent ++ issued /\
    (send_all accepts_all steps sent).2 = sent ++ issued ++ rest /\
    (forall l1 sql l2, issued = l1 ++ sql :: l2 -> l2 ≠ [] ->
       server (sent ++ l1) sql = true) /\
    ((send_all server steps sent).1 = true ->
     rest = [] /\ (send_all accepts_all steps sent).1 = true /\
     forall l1 sql l2, issued = l1 ++ sql :: l2 -> server (sent ++ l1) sql = true).
Proof.
revert sent. induction steps as [|[sql|] steps IH]; intros sent; simpl.
- exists [], []. simpl. rewrite !app_nil_r. split; [done|]. split; [done|]. split.
  + intros l1 sql l2 E. by destruct l1.
  + intros _. split; [done|]. split; [done|]. intros l1 sql l2 E. by destruct l1.
- change (accepts_all sent sql) with true. cbv iota.
  destruct (IH (sent ++ [sql])) as (issued & rest & H1 & H2 & H3 & H4).
  destruct (server sent sql) eqn:S.
  + exists (sql :: issued), rest. rewrite H1, H2, <- !app_assoc. simpl.
    split; [done|]. split; [done|]. split.
    * intros l1 s l2 E Hl2. destruct l1 as [|s0 l1]; simpl in E.
      -- injection E as <- <-. by rewrite app_nil_r.
      -- injection E as <- ->.
         specialize (H3 l1 s l2 eq_refl Hl2). by rewrite <- app_assoc in H3.
    * intros Hok. destruct (H4 Hok) as (-> & Hall & Hacc).
      split; [done|]. split; [done|].
      intros l1 s l2 E. destruct l1 as [|s0 l1]; simpl in E.
      -- injection E as <- <-. by rewrite app_nil_r.
      -- injection E as <- ->.
         specialize (Hacc l1 s l2 eq_refl). by rewrite <- app_assoc in Hacc.
  + destruct (send_all_extends accepts_all steps (sent ++ [sql])) as [rest' Hrest].
    exists [sql], rest'. simpl. split; [done|]. split.
    { by rewrite Hrest, <- app_assoc. }
    split; [|done].
    intros l1 s l2 E Hl2. destruct l1 as [|s0 [|s1 l1]]; simpl in E; simplify_eq.
- exists [], []. simpl. rewrite !app_nil_r. split; [done|]. split; [done|]. split; [|done].
  intros l1 sql l2 E. by destruct l1.
Qed.

Lemma foldl_ext2 {A B} (f g : A -> B -> A) (a a' : A) (l : list B) :
  (forall a x, f a x = g a x) -> a = a' -> foldl f a l = foldl g a' l.
Proof.
intros Hfg <-. revert a. induction l as [|x l IH]; intros a; simpl; [done|].
by rewrite Hfg, IH.
Qed.

(** *** [SupabaseClient] *)

Section SupabaseFacts.
Context (server : list string -> string -> bool).

Lemma supabase_and_execute_built (sql : string) (st : progress) :
  SupabaseClient.and_execute server sql st
  = SupabaseClient.build_and_execute server (Some sql) st.
Proof. by destruct st as [[[|]|] sent]. Qed.

Lemma supabase_run_stuck (steps : list (option string)) (st : progress) :
  st.1 ≠ Some true ->
  finish (foldl (fun st s => SupabaseClient.build_and_execute server s st) st steps)
  = (false, st.2).
Proof.
revert st. induction steps as [|s steps IH]; intros [[[|]|] sent] Hst; try done.
- simpl. destruct s as [sql|]; simpl; by rewrite IH.
- simpl. by rewrite IH.
Qed.

Lemma supabase_run_send_all (steps : list (option string)) (sent : list string) :
  finish (foldl (fun st s => SupabaseClient.build_and_execute server s st)
            (Some true, sent) steps)
  = send_all server steps sent.
Proof.
revert sent. induction steps as [|[sql|] steps IH]; intros sent; [done| |].
- cbn [foldl send_all].
  unfold SupabaseClient.build_and_execute, SupabaseClient.and_execute,
    SupabaseClient._execute_sql. cbn [fst snd].
  destruct (server sent sql); [apply IH|].
  by rewrite supabase_run_stuck.
- cbn [foldl send_all]. by rewrite supabase_run_stuck.
Qed.

(** The statements of [alter_table], in order. *)
Definition supabase_modify_steps (name : string) (item : Column * Column)
    : list (option string) :=
  let '(old_col, new_col) := item in
  let alter :=
    "ALTER TABLE " +:+ dq +:+ name +:+ dq +:+ " ALTER COLUMN " +:+ dq
    +:+ col_name new_col +:+ dq in
  (if bool_decide (col_type old_col ≠ col_type new_col)
   then [Some (alter +:+ " TYPE " +:+ col_type new_col)] else [])
  ++ (if bool_decide (col_nullable old_col ≠ col_nullable new_col)
      then [Some (if col_nullable new_col then alter +:+ " DROP NOT NULL"
                  else alter +:+ " SET NOT NULL")]
      else [])
  ++ (if bool_decide (col_default old_col ≠ col_default new_col)
      then [Some (match col_default new_col with
                  | None => alter +:+ " DROP DEFAULT"
                  | Some d => alter +:+ " SET DEFAULT " +:+ d
                  end)]
      else []).

Definition supabase_drop_constraint_sql (name : string) (fk : ForeignKey)
    : option string :=
  constraint ← constraint_name name fk;
  Some ("ALTER TABLE " +:+ dq +:+ name +:+ dq +:+ " DROP CONSTRAINT IF EXISTS "
        +:+ dq +:+ constraint +:+ dq).

Definition supabase_alter_steps (table : Table (D := Aquaform.dialect))
    (changes : Changes) : list (option string) :=
  let name := t_name table in
  ((fun col =>
      Some (with_constraints col
              ("ALTER TABLE " +:+ dq +:+ name +:+ dq +:+ " ADD COLUMN " +:+ dq
               +:+ col_name col +:+ dq +:+ " " +:+ col_type col)))
   <$> default [] (add_columns changes))
  ++ (default [] (modify_columns changes) ≫= supabase_modify_steps name)
  ++ ((fun col =>
         Some ("ALTER TABLE " +:+ dq +:+ name +:+ dq +:+ " DROP COLUMN " +:+ dq
               +:+ col_name col +:+ dq))
      <$> default [] (remove_columns changes))
  ++ match modify_primary_key changes with
     | Some (old_pk, new_pk) =>
         [ Some ("ALTER TABLE " +:+ dq +:+ name +:+ dq +:+ " DROP CONSTRAINT IF EXISTS "
                 +:+ dq +:+ name +:+ "_pkey" +:+ dq);
           Some ("ALTER TABLE " +:+ dq +:+ name +:+ dq +:+ " ADD PRIMARY KEY (" +:+ dq
                 +:+ str_join (dq +:+ ", " +:+ dq) new_pk +:+ dq +:+ ")") ]
     | None => []
     end
  ++ (_generate_add_foreign_key_sql dq name <$> default [] (add_foreign_keys changes))
  ++ (supabase_drop_constraint_sql name <$> default [] (remove_foreign_keys changes)).

(** [alter_table] sends its statements in order and stops at the first
    one that cannot be built or is refused. *)
Lemma supabase_alter_table_send_all (table : Table (D := Aquaform.dialect))
    (changes : Changes) (sent : list string) :
  SupabaseClient.alter_table server table changes sent
  = send_all server (supabase_alter_steps table changes) sent.
Proof.
rewrite <- supabase_run_send_all. unfold supabase_alter_steps. cbv zeta.
rewrite !foldl_app, !foldl_fmap_steps, foldl_bind_steps.
unfold SupabaseClient.alter_table. cbv zeta. f_equal.
apply foldl_ext2; [done|].
apply foldl_ext2; [done|].
destruct (modify_primary_key changes) as [[old_pk new_pk]|].
- simpl. rewrite <- !supabase_and_execute_built. f_equal. f_equal.
  apply foldl_ext2; [intros; apply supabase_and_execute_built|].
  apply foldl_ext2; [|apply foldl_ext2; [intros; apply supabase_and_execute_built|done]].
  intros st [old_col new_col]. unfold supabase_modify_steps.
  repeat case_bool_decide; simpl; by rewrite <- ?supabase_and_execute_built.
- simpl.
  apply foldl_ext2; [intros; apply supabase_and_execute_built|].
  apply foldl_ext2; [|apply foldl_ext2; [intros; apply supabase_and_execute_built|done]].
  intros st [old_col new_col]. unfold supabase_modify_steps.
  repeat case_bool_decide; simpl; by rewrite <- ?supabase_and_execute_built.
Qed.

End SupabaseFacts.

(** *** What the delta of a diff holds *)

Lemma dict_set_elem {K V} `{EqDecision K} (k : K) (v : V) (d : list (K * V))
    (p : K * V) :
  p ∈ dict_set k v d -> p = (k, v) \/ p ∈ d.
Proof.
induction d as [|[k' v'] d IH]; simpl.
- intros ->%list_elem_of_singleton. by left.
- case_decide.
  + intros [->|Hp]%elem_of_cons; [by left|]. right. by right.
  + intros [->|Hp]%elem_of_cons; [right; left|].
    destruct (IH Hp) as [->|Hd]; [by left|]. right. by right.
Qed.

Lemma dict_by_elem_key {K V} `{EqDecision K} (key : V -> K) (l : list V) (k : K) (x : V) :
  (k, x) ∈ dict_by key l -> key x = k.
Proof.
unfold dict_by.
assert (forall d, (forall k x, (k, x) ∈ d -> key x = k) ->
          (k, x) ∈ foldl (fun d x => dict_set (key x) x d) d l -> key x = k) as H.
{ induction l as [|y l IH]; intros d Hd; simpl; [apply Hd|].
  apply IH. intros k' x' [[= -> ->]|Hin]%dict_set_elem; [done|by apply Hd]. }
apply H. by intros k' x' ?%elem_of_nil.
Qed.

Section DeltaFacts.
Context `{D : Dialect}.

(** A pair in [modify_columns] holds two columns of the same name that
    differ in type, nullability or default. *)
Lemma modify_columns_elem (o n : Table) (old_col new_col : Column) :
  (old_col, new_col) ∈ default [] (modify_columns (_compare_tables o n)) ->
  col_name old_col = col_name new_col /\
  (col_type old_col ≠ col_type new_col \/ col_nullable old_col ≠ col_nullable new_col
   \/ col_default old_col ≠ col_default new_col).
Proof.
rewrite compare_tables_unfold. simpl. rewrite entry_default.
unfold modified_columns_of. cbv zeta.
intros ([k c] & Hin & Hf)%list_elem_of_omap. simpl in Hf.
destruct (dict_get k (dict_by col_name (t_columns o))) as [old'|] eqn:G; [|done].
destruct (Column_equals c old') eqn:E; [done|]. simpl in Hf. injection Hf as -> ->.
apply dict_get_Some_elem, dict_by_elem_key in G. apply dict_by_elem_key in Hin.
split; [congruence|].
destruct (decide (col_type old_col = col_type new_col)) as [Et|]; [|by left].
destruct (decide (col_nullable old_col = col_nullable new_col)) as [En|];
  [|right; by left].
destruct (decide (col_default old_col = col_default new_col)) as [Ed|];
  [|right; by right].
exfalso. assert (Column_equals new_col old_col = true); [|congruence].
apply Column_equals_spec. destruct old_col, new_col; simpl in *. congruence.
Qed.

(** A delta that is not empty has an entry that is not empty. *)
Lemma compare_tables_nonempty (o n : Table) :
  _compare_tables o n ≠ no_changes ->
  default [] (add_columns (_compare_tables o n)) ≠ [] \/
  default [] (modify_columns (_compare_tables o n)) ≠ [] \/
  default [] (remove_columns (_compare_tables o n)) ≠ [] \/
  is_Some (modify_primary_key (_compare_tables o n)) \/
  default [] (add_foreign_keys (_compare_tables o n)) ≠ [] \/
  default [] (remove_foreign_keys (_compare_tables o n)) ≠ [].
Proof.
rewrite compare_tables_unfold. simpl. rewrite !entry_default.
generalize (added_columns_of o n) (modified_columns_of o n) (removed_columns_of o n).
generalize (if fk_guard o n
            then added_fks_of o n
                 ++ (changed_fks (old_fks_map_of o) (old_fks_map_of n)).*2
            else []).
generalize (if fk_guard o n
            then (changed_fks (old_fks_map_of o) (old_fks_map_of n)).*1
                 ++ removed_fks_of o n
            else []).
intros rf af ac mc rc Hne.
destruct ac; [|by left]. destruct mc; [|right; by left].
destruct rc; [|right; right; by left].
case_bool_decide; [right; right; right; left; eauto|].
destruct af; [|right; right; right; right; by left].
destruct rf; [|right; right; right; right; by right].
by destruct Hne.
Qed.

(** The foreign keys a delta adds are keys of the new table, those it
    removes are keys of the old one, and a key changed in place is in
    both entries. *)
Lemma compare_tables_foreign_keys (o n : Table) :
  NoDup (fk_columns <$> default [] (t_foreign_keys o)) ->
  NoDup (fk_columns <$> default [] (t_foreign_keys n)) ->
  (forall fk, fk ∈ default [] (add_foreign_keys (_compare_tables o n)) ->
     fk ∈ default [] (t_foreign_keys n)) /\
  (forall fk, fk ∈ default [] (remove_foreign_keys (_compare_tables o n)) ->
     fk ∈ default [] (t_foreign_keys o)) /\
  (forall old_fk new_fk,
     old_fk ∈ default [] (t_foreign_keys o) ->
     new_fk ∈ default [] (t_foreign_keys n) ->
     fk_columns old_fk = fk_columns new_fk -> old_fk ≠ new_fk ->
     new_fk ∈ default [] (add_foreign_keys (_compare_tables o n)) /\
     old_fk ∈ default [] (remove_foreign_keys (_compare_tables o n))).
Proof.
intros Ho Hn. rewrite compare_tables_unfold. simpl. rewrite !entry_default.
destruct (fk_guard_irrelevant o n) as [-> ->].
destruct (added_fks_of_spec o n Ho Hn) as [Ha _].
destruct (removed_fks_of_spec o n Ho Hn) as [Hr _].
destruct (changed_fks_spec o n Ho Hn) as [Hc Hciff].
split_and!.
- intros fk [Hin|Hin]%elem_of_app.
  + by eapply elem_of_sublist.
  + by eapply elem_of_sublist.
- intros fk [Hin|Hin]%elem_of_app.
  + apply list_elem_of_fmap in Hin as ([old_fk new_fk] & -> & Hin).
    by apply Hciff in Hin as (? & _).
  + by eapply elem_of_sublist.
- intros old_fk new_fk Hold Hnew Hcols Hneq.
  assert ((old_fk, new_fk) ∈ changed_fks (old_fks_map_of o) (old_fks_map_of n)) as Hin.
  { by apply Hciff. }
  split; apply elem_of_app.
  + right. by apply (list_elem_of_fmap_2 snd _ (old_fk, new_fk)).
  + left. by apply (list_elem_of_fmap_2 fst _ (old_fk, new_fk)).
Qed.

End DeltaFacts.

(** *** [send_all] on steps that can all be built *)

Lemma send_all_accepts_all_built (steps : list (option string)) (sent : list string) :
  Forall is_Some steps ->
  send_all accepts_all steps sent = (true, sent ++ omap id steps).
Proof.
revert sent. induction steps as [|[sql|] steps IH]; intros sent Hs; csimpl.
- by rewrite app_nil_r.
- apply Forall_cons in Hs as [_ Hs]. change (accepts_all sent sql) with true.
  cbv iota. rewrite IH by done. by rewrite <- app_assoc.
- apply Forall_cons in Hs as [[? ?] _]. done.
Qed.

Lemma send_all_first server (steps : list (option string)) (sent : list string) :
  steps ≠ [] -> (send_all server steps sent).1 = true ->
  exists sql issued, (send_all server steps sent).2 = sent ++ sql :: issued.
Proof.
destruct steps as [|[sql|] steps]; [done| |done]. intros _. simpl.
destruct (server sent sql); [|done]. intros _.
destruct (send_all_extends server steps (sent ++ [sql])) as [issued ->].
exists sql, issued. by rewrite <- app_assoc.
Qed.

Lemma omap_fmap_split {A} (f : A -> option string) (l1 l2 : list A) (x : A) (y : string) :
  f x = Some y ->
  omap id (f <$> (l1 ++ x :: l2)) = omap id (f <$> l1) ++ y :: omap id (f <$> l2).
Proof. intros Hf. rewrite fmap_app, omap_app. csimpl. by rewrite Hf. Qed.

(** *** [SupabaseClient.alter_table] *)

(** Property X16.
    [alter_table] sends its statements one after the other and stops at
    the first the database refuses: what it sends is a prefix of what a
    database that accepts everything would be sent; every statement sent
    but the last was accepted; and it returns [True] only when every
    statement could be built, all were sent and all were accepted. *)
Theorem supabase_alter_table_stops_at_refusal (server : list string -> string -> bool)
    (table : Table (D := Aquaform.dialect)) (changes : Changes) (sent : list string) :
  exists issued rest,
    (SupabaseClient.alter_table server table changes sent).2 = sent ++ issued /\
    (SupabaseClient.alter_table accepts_all table changes sent).2
      = sent ++ issued ++ rest /\
    (forall l1 sql l2, issued = l1 ++ sql :: l2 -> l2 ≠ [] ->
       server (sent ++ l1) sql = true) /\
    ((SupabaseClient.alter_table server table changes sent).1 = true ->
     rest = [] /\
     (SupabaseClient.alter_table accepts_all table changes sent).1 = true /\
     forall l1 sql l2, issued = l1 ++ sql :: l2 -> server (sent ++ l1) sql = true).
Proof. rewrite !supabase_alter_table_send_all. apply send_all_spec. Qed.

Lemma supabase_modify_steps_nonempty (name : string) (old_col new_col : Column) :
  col_type old_col ≠ col_type new_col \/ col_nullable old_col ≠ col_nullable new_col
  \/ col_default old_col ≠ col_default new_col ->
  supabase_modify_steps name (old_col, new_col) ≠ [].
Proof.
unfold supabase_modify_steps.
intros [H|[H|H]]; repeat case_bool_decide; done.
Qed.

Lemma supabase_alter_steps_nonempty (o n : Table (D := Aquaform.dialect)) :
  _compare_tables o n ≠ no_changes ->
  supabase_alter_steps n (_compare_tables o n) ≠ [].
Proof.
intros Hne Hnil. unfold supabase_alter_steps in Hnil. cbv zeta in Hnil.
apply app_eq_nil in Hnil as [H1 Hnil]. apply app_eq_nil in Hnil as [H2 Hnil].
apply app_eq_nil in Hnil as [H3 Hnil]. apply app_eq_nil in Hnil as [H4 Hnil].
apply app_eq_nil in Hnil as [H5 H6].
apply fmap_nil_inv in H1, H3, H5, H6.
destruct (compare_tables_nonempty o n Hne) as [H|[H|[H|[H|[H|H]]]]]; try done.
- destruct (default [] (modify_columns (_compare_tables o n)))
    as [|[old_col new_col] l] eqn:E; [done|].
  csimpl in H2. apply app_eq_nil in H2 as [H2 _].
  apply (supabase_modify_steps_nonempty (t_name n) old_col new_col); [|done].
  apply (modify_columns_elem o n). rewrite E. left.
- destruct H as [[old_pk new_pk] Hpk]. by rewrite Hpk in H4.
Qed.

(** Property X17.
    For the delta of a diff that found a difference, [alter_table] never
    returns [True] without having sent a statement. *)
Theorem supabase_alter_table_sends_for_a_delta (server : list string -> string -> bool)
    (old_table new_table : Table (D := Aquaform.dialect)) (sent : list string) :
  _compare_tables old_table new_table ≠ no_changes ->
  (SupabaseClient.alter_table server new_table
     (_compare_tables old_table new_table) sent).1 = true ->
  exists sql issued,
    (SupabaseClient.alter_table server new_table
       (_compare_tables old_table new_table) sent).2 = sent ++ sql :: issued.
Proof.
intros Hne. rewrite supabase_alter_table_send_all.
apply send_all_first. by apply supabase_alter_steps_nonempty.
Qed.

(** A foreign key changed in place: the statement that adds its new
    version is sent before the statement that drops its old one. *)
Lemma send_all_add_then_drop (steps pre : list (option string))
    (add_f drop_f : ForeignKey -> option string) (adds removes : list ForeignKey)
    (new_fk old_fk : ForeignKey) (add_sql drop_sql : string) :
  steps = pre ++ (add_f <$> adds) ++ (drop_f <$> removes) ->
  Forall is_Some pre ->
  (forall fk, fk ∈ adds -> is_Some (add_f fk)) ->
  (forall fk, fk ∈ removes -> is_Some (drop_f fk)) ->
  new_fk ∈ adds -> old_fk ∈ removes ->
  add_f new_fk = Some add_sql -> drop_f old_fk = Some drop_sql ->
  exists l1 l2 l3,
    send_all accepts_all steps [] = (true, l1 ++ add_sql :: l2 ++ drop_sql :: l3).
Proof.
intros -> Hpre Hadds Hremoves Hnew Hold Hadd Hdrop.
rewrite send_all_accepts_all_built.
- apply list_elem_of_split in Hnew as (a1 & a2 & ->).
  apply list_elem_of_split in Hold as (r1 & r2 & ->).
  rewrite !omap_app, (omap_fmap_split add_f a1 a2 new_fk add_sql Hadd),
    (omap_fmap_split drop_f r1 r2 old_fk drop_sql Hdrop).
  exists (omap id pre ++ omap id (add_f <$> a1)),
    (omap id (add_f <$> a2) ++ omap id (drop_f <$> r1)), (omap id (drop_f <$> r2)).
  simpl. by rewrite <- !app_assoc.
- rewrite !Forall_app. split_and!; [done| |].
  + apply Forall_fmap, Forall_forall. intros fk Hin. by apply Hadds.
  + apply Forall_fmap, Forall_forall. intros fk Hin. by apply Hremoves.
Qed.

Lemma constraint_name_cons (table_name c : string) (cols : list string) (fk : ForeignKey) :
  fk_columns fk = c :: cols ->
  constraint_name table_name fk = Some (table_name +:+ "_" +:+ c +:+ "_fkey").
Proof. unfold constraint_name. by intros ->. Qed.

Lemma constraint_name_is_Some (table_name : string) (fk : ForeignKey) :
  fk_columns fk ≠ [] -> is_Some (constraint_name table_name fk).
Proof. unfold constraint_name. destruct (fk_columns fk); [done|]. simpl. eauto. Qed.

Lemma supabase_pre_steps_built (table : Table (D := Aquaform.dialect))
    (changes : Changes) :
  exists pre,
    supabase_alter_steps table changes
    = pre ++ (_generate_add_foreign_key_sql dq (t_name table)
                <$> default [] (add_foreign_keys changes))
          ++ (supabase_drop_constraint_sql (t_name table)
                <$> default [] (remove_foreign_keys changes)) /\
    Forall is_Some pre.
Proof.
unfold supabase_alter_steps. cbv zeta. eexists. split.
{ rewrite !app_assoc. reflexivity. }
rewrite !Forall_app. split_and!.
- apply Forall_fmap, Forall_forall. intros col _. simpl. eauto.
- apply Forall_forall. intros s ([old_col new_col] & Hs & _)%list_elem_of_bind.
  unfold supabase_modify_steps in Hs.
  repeat case_bool_decide; simpl in Hs;
    repeat (apply elem_of_cons in Hs as [->|Hs]; [eauto|]);
    by apply elem_of_nil in Hs.
- apply Forall_fmap, Forall_forall. intros col _. simpl. eauto.
- destruct (modify_primary_key changes) as [[old_pk new_pk]|]; repeat constructor; eauto.
Qed.

(** Property X18.
    For a foreign key that is changed in place (same column tuple, other
    fields differing), the delta of the diff makes [alter_table] add the
    new version before it drops the old one, and both statements name the
    same constraint, [<table>_<first column>_fkey]: on a database that
    accepts every statement, the constraint dropped last is the one
    carrying that name. *)
Theorem supabase_changed_foreign_key_added_then_dropped
    (old_table new_table : Table (D := Aquaform.dialect)) (old_fk new_fk : ForeignKey)
    (c : string) (cols : list string) :
  NoDup (fk_columns <$> default [] (t_foreign_keys old_table)) ->
  NoDup (fk_columns <$> default [] (t_foreign_keys new_table)) ->
  (forall fk, fk ∈ default [] (t_foreign_keys old_table) -> fk_columns fk ≠ []) ->
  (forall fk, fk ∈ default [] (t_foreign_keys new_table) -> fk_columns fk ≠ []) ->
  old_fk ∈ default [] (t_foreign_keys old_table) ->
  new_fk ∈ default [] (t_foreign_keys new_table) ->
  fk_columns old_fk = c :: cols -> fk_columns new_fk = c :: cols ->
  old_fk ≠ new_fk ->
  let name := t_name new_table in
  let constraint := name +:+ "_" +:+ c +:+ "_fkey" in
  exists add_sql l1 l2 l3,
    constraint_name name new_fk = Some constraint /\
    _generate_add_foreign_key_sql dq name new_fk = Some add_sql /\
    SupabaseClient.alter_table accepts_all new_table
      (_compare_tables old_table new_table) []
    = (true,
       l1 ++ add_sql
          :: l2 ++ ("ALTER TABLE " +:+ dq +:+ name +:+ dq
                    +:+ " DROP CONSTRAINT IF EXISTS " +:+ dq +:+ constraint +:+ dq)
          :: l3).
Proof.
intros Ho Hn Hocols Hncols Hold Hnew Eold Enew Hneq. cbv zeta.
destruct (compare_tables_foreign_keys old_table new_table Ho Hn) as (Hadds & Hrems & Hch).
destruct (Hch old_fk new_fk Hold Hnew) as [Hin_add Hin_rem]; [congruence|done|].
pose proof (constraint_name_cons (t_name new_table) c cols new_fk Enew) as Hname.
assert (exists add_sql,
  _generate_add_foreign_key_sql dq (t_name new_table) new_fk = Some add_sql)
  as [add_sql Hadd].
{ unfold _generate_add_foreign_key_sql. rewrite Hname. simpl. eauto. }
destruct (supabase_pre_steps_built new_table (_compare_tables old_table new_table))
  as (pre & Hsteps & Hpre).
destruct (send_all_add_then_drop _ pre _ _ _ _ new_fk old_fk add_sql
            ("ALTER TABLE " +:+ dq +:+ t_name new_table +:+ dq
             +:+ " DROP CONSTRAINT IF EXISTS " +:+ dq
             +:+ (t_name new_table +:+ "_" +:+ c +:+ "_fkey") +:+ dq)
            Hsteps Hpre) as (l1 & l2 & l3 & Hrun); try done.
- intros fk Hfk. unfold _generate_add_foreign_key_sql.
  destruct (constraint_name_is_Some (t_name new_table) fk) as [n ->]; [|simpl; eauto].
  by apply Hncols, Hadds.
- intros fk Hfk. unfold supabase_drop_constraint_sql.
  destruct (constraint_name_is_Some (t_name new_table) fk) as [n ->]; [|simpl; eauto].
  by apply Hocols, Hrems.
- unfold supabase_drop_constraint_sql.
  by rewrite (constraint_name_cons (t_name new_table) c cols old_fk Eold).
- exists add_sql, l1, l2, l3. split_and!; [done|done|].
  by rewrite supabase_alter_table_send_all.
Qed.

Lemma supabase_changed_foreign_key_added_then_dropped_witness :
  (diff_fk "a" "users" "NO ACTION" ∈ default [] (t_foreign_keys diff_old) /\
   diff_fk "a" "users" "CASCADE" ∈ default [] (t_foreign_keys diff_new)) /\
  exists add_sql l1 l2 l3,
    constraint_name "items" (diff_fk "a" "users" "CASCADE") = Some "items_a_fkey" /\
    _generate_add_foreign_key_sql dq "items" (diff_fk "a" "users" "CASCADE")
      = Some add_sql /\
    SupabaseClient.alter_table accepts_all diff_new (_compare_tables diff_old diff_new) []
    = (true,
       l1 ++ add_sql
          :: l2 ++ ("ALTER TABLE " +:+ dq +:+ "items" +:+ dq
                    +:+ " DROP CONSTRAINT IF EXISTS " +:+ dq +:+ "items_a_fkey" +:+ dq)
          :: l3).
Proof.
assert (diff_fk "a" "users" "NO ACTION" ∈ default [] (t_foreign_keys diff_old)) as Hold.
{ simpl. right. left. }
assert (diff_fk "a" "users" "CASCADE" ∈ default [] (t_foreign_keys diff_new)) as Hnew.
{ simpl. left. }
split; [by split|].
apply (supabase_changed_foreign_key_added_then_dropped diff_old diff_new
         (diff_fk "a" "users" "NO ACTION") (diff_fk "a" "users" "CASCADE") "a" []).
- simpl. decide_by_vm.
- simpl. decide_by_vm.
- intros fk. simpl. rewrite !elem_of_cons.
  intros [->|[->|H]]; [done|done|by apply elem_of_nil in H].
- intros fk. simpl. rewrite !elem_of_cons.
  intros [->|[->|H]]; [done|done|by apply elem_of_nil in H].
- exact Hold.
- exact Hnew.
- reflexivity.
- reflexivity.
- discriminate.
Defined.

Lemma diff_old_new_differ : _compare_tables diff_old diff_new ≠ no_changes.
Proof. intros E. vm_compute in E. discriminate E. Qed.

Lemma supabase_alter_table_sends_for_a_delta_witness :
  (_compare_tables diff_old diff_new ≠ no_changes /\
   (SupabaseClient.alter_table accepts_all diff_new
      (_compare_tables diff_old diff_new) []).1 = true) /\
  exists sql issued,
    (SupabaseClient.alter_table accepts_all diff_new
       (_compare_tables diff_old diff_new) []).2 = [] ++ sql :: issued.
Proof.
assert ((SupabaseClient.alter_table accepts_all diff_new
           (_compare_tables diff_old diff_new) []).1 = true) as Hok
  by (vm_compute; reflexivity).
split; [split; [apply diff_old_new_differ|exact Hok]|].
apply (supabase_alter_table_sends_for_a_delta accepts_all diff_old diff_new []).
- apply diff_old_new_differ.
- exact Hok.
Defined.

(** *** [MySQLClient] *)

Section MySQLFacts.
Context (server : list string -> string -> bool).

Lemma mysql_execute_built (sql : string) (st : progress) :
  MySQLClient.execute server sql st = MySQLClient.build_and_execute server (Some sql) st.
Proof. by destruct st as [[?|] sent]. Qed.

Lemma mysql_run_stuck (steps : list (option string)) (sent : list string) :
  finish (foldl (fun st s => MySQLClient.build_and_execute server s st) (None, sent) steps)
  = (false, sent).
Proof. induction steps as [|s steps IH]; [done|]. simpl. exact IH. Qed.

Lemma mysql_run_send_all (steps : list (option string)) (sent : list string) :
  finish (foldl (fun st s => MySQLClient.build_and_execute server s st)
            (Some true, sent) steps)
  = send_all server steps sent.
Proof.
revert sent. induction steps as [|[sql|] steps IH]; intros sent; [done| |].
- cbn [foldl send_all].
  unfold MySQLClient.build_and_execute, MySQLClient.execute. cbn [fst snd].
  destruct (server sent sql); [apply IH|].
  by rewrite mysql_run_stuck.
- cbn [foldl send_all]. unfold MySQLClient.build_and_execute. cbn [fst snd].
  by rewrite mysql_run_stuck.
Qed.

Definition mysql_drop_foreign_key_sql (name : string) (fk : ForeignKey) : option string :=
  constraint ← constraint_name name fk;
  Some ("ALTER TABLE `" +:+ name +:+ "` DROP FOREIGN KEY `" +:+ constraint +:+ "`").

(** The statements of [alter_table], in order. *)
Definition mysql_alter_steps (table : Table (D := Aquaformmy.dialect))
    (changes : Changes) : list (option string) :=
  let name := t_name table in
  ((fun col =>
      Some (with_constraints col
              ("ALTER TABLE `" +:+ name +:+ "` ADD COLUMN `" +:+ col_name col
               +:+ "` " +:+ col_type col)))
   <$> default [] (add_columns changes))
  ++ ((fun '(old_col, new_col) =>
         Some (with_constraints new_col
                 ("ALTER TABLE `" +:+ name +:+ "` MODIFY COLUMN `" +:+ col_name new_col
                  +:+ "` " +:+ col_type new_col)))
      <$> default [] (modify_columns changes))
  ++ ((fun col =>
         Some ("ALTER TABLE `" +:+ name +:+ "` DROP COLUMN `" +:+ col_name col +:+ "`"))
      <$> default [] (remove_columns changes))
  ++ match modify_primary_key changes with
     | Some (old_pk, new_pk) =>
         [ Some ("ALTER TABLE `" +:+ name +:+ "` DROP PRIMARY KEY");
           Some ("ALTER TABLE `" +:+ name +:+ "` ADD PRIMARY KEY (`"
                 +:+ str_join "`, `" new_pk +:+ "`)") ]
     | None => []
     end
  ++ (_generate_add_foreign_key_sql "`" name <$> default [] (add_foreign_keys changes))
  ++ (mysql_drop_foreign_key_sql name <$> default [] (remove_foreign_keys changes)).

Lemma mysql_alter_table_send_all (table : Table (D := Aquaformmy.dialect))
    (changes : Changes) (sent : list string) :
  MySQLClient.alter_table server table changes sent
  = send_all server (mysql_alter_steps table changes) sent.
Proof.
rewrite <- mysql_run_send_all. unfold mysql_alter_steps. cbv zeta.
rewrite !foldl_app, !foldl_fmap_steps.
unfold MySQLClient.alter_table. cbv zeta. f_equal.
apply foldl_ext2; [done|].
apply foldl_ext2; [done|].
destruct (modify_primary_key changes) as [[old_pk new_pk]|].
- simpl. rewrite <- !mysql_execute_built. f_equal. f_equal.
  apply foldl_ext2; [intros; apply mysql_execute_built|].
  apply foldl_ext2; [|apply foldl_ext2; [intros; apply mysql_execute_built|done]].
  intros st [old_col new_col]. apply mysql_execute_built.
- simpl.
  apply foldl_ext2; [intros; apply mysql_execute_built|].
  apply foldl_ext2; [|apply foldl_ext2; [intros; apply mysql_execute_built|done]].
  intros st [old_col new_col]. apply mysql_execute_built.
Qed.

Lemma mysql_pre_steps_built (table : Table (D := Aquaformmy.dialect))
    (changes : Changes) :
  exists pre,
    mysql_alter_steps table changes
    = pre ++ (_generate_add_foreign_key_sql "`" (t_name table)
                <$> default [] (add_foreign_keys changes))
          ++ (mysql_drop_foreign_key_sql (t_name table)
                <$> default [] (remove_foreign_keys changes)) /\
    Forall is_Some pre.
Proof.
unfold mysql_alter_steps. cbv zeta. eexists. split.
{ rewrite !app_assoc. reflexivity. }
rewrite !Forall_app. split_and!.
- apply Forall_fmap, Forall_forall. intros col _. simpl. eauto.
- apply Forall_fmap, Forall_forall. intros [old_col new_col] _. simpl. eauto.
- apply Forall_fmap, Forall_forall. intros col _. simpl. eauto.
- destruct (modify_primary_key changes) as [[old_pk new_pk]|]; repeat constructor; eauto.
Qed.

End MySQLFacts.

(** Property X19.
    [MySQLClient.alter_table] executes its statements one after the other
    until one raises: what it executes is a prefix of what a database that
    accepts everything would be sent; every statement executed but the
    last went through; and it returns [True] only when every statement
    could be built, all were executed and all went through. *)
Theorem mysql_alter_table_stops_at_failure (server : list string -> string -> bool)
    (table : Table (D := Aquaformmy.dialect)) (changes : Changes) (sent : list string) :
  exists issued rest,
    (MySQLClient.alter_table server table changes sent).2 = sent ++ issued /\
    (MySQLClient.alter_table accepts_all table changes sent).2
      = sent ++ issued ++ rest /\
    (forall l1 sql l2, issued = l1 ++ sql :: l2 -> l2 ≠ [] ->
       server (sent ++ l1) sql = true) /\
    ((MySQLClient.alter_table server table changes sent).1 = true ->
     rest = [] /\
     (MySQLClient.alter_table accepts_all table changes sent).1 = true /\
     forall l1 sql l2, issued = l1 ++ sql :: l2 -> server (sent ++ l1) sql = true).
Proof. rewrite !mysql_alter_table_send_all. apply send_all_spec. Qed.

(** Property X20.
    The MySQL client orders a foreign key changed in place the same way:
    [ADD CONSTRAINT] for the new version first, [DROP FOREIGN KEY] for the
    old one after it, both under the name [<table>_<first column>_fkey]. *)
Theorem mysql_changed_foreign_key_added_then_dropped
    (old_table new_table : Table (D := Aquaformmy.dialect)) (old_fk new_fk : ForeignKey)
    (c : string) (cols : list string) :
  NoDup (fk_columns <$> default [] (t_foreign_keys old_table)) ->
  NoDup (fk_columns <$> default [] (t_foreign_keys new_table)) ->
  (forall fk, fk ∈ default [] (t_foreign_keys old_table) -> fk_columns fk ≠ []) ->
  (forall fk, fk ∈ default [] (t_foreign_keys new_table) -> fk_columns fk ≠ []) ->
  old_fk ∈ default [] (t_foreign_keys old_table) ->
  new_fk ∈ default [] (t_foreign_keys new_table) ->
  fk_columns old_fk = c :: cols -> fk_columns new_fk = c :: cols ->
  old_fk ≠ new_fk ->
  let name := t_name new_table in
  let constraint := name +:+ "_" +:+ c +:+ "_fkey" in
  exists add_sql l1 l2 l3,
    constraint_name name new_fk = Some constraint /\
    _generate_add_foreign_key_sql "`" name new_fk = Some add_sql /\
    MySQLClient.alter_table accepts_all new_table
      (_compare_tables old_table new_table) []
    = (true,
       l1 ++ add_sql
          :: l2 ++ ("ALTER TABLE `" +:+ name +:+ "` DROP FOREIGN KEY `" +:+ constraint
                    +:+ "`")
          :: l3).
Proof.
intros Ho Hn Hocols Hncols Hold Hnew Eold Enew Hneq. cbv zeta.
destruct (compare_tables_foreign_keys old_table new_table Ho Hn) as (Hadds & Hrems & Hch).
destruct (Hch old_fk new_fk Hold Hnew) as [Hin_add Hin_rem]; [congruence|done|].
pose proof (constraint_name_cons (t_name new_table) c cols new_fk Enew) as Hname.
assert (exists add_sql,
  _generate_add_foreign_key_sql "`" (t_name new_table) new_fk = Some add_sql)
  as [add_sql Hadd].
{ unfold _generate_add_foreign_key_sql. rewrite Hname. simpl. eauto. }
destruct (mysql_pre_steps_built new_table (_compare_tables old_table new_table))
  as (pre & Hsteps & Hpre).
destruct (send_all_add_then_drop _ pre _ _ _ _ new_fk old_fk add_sql
            ("ALTER TABLE `" +:+ t_name new_table +:+ "` DROP FOREIGN KEY `"
             +:+ (t_name new_table +:+ "_" +:+ c +:+ "_fkey") +:+ "`")
            Hsteps Hpre) as (l1 & l2 & l3 & Hrun); try done.
- intros fk Hfk. unfold _generate_add_foreign_key_sql.
  destruct (constraint_name_is_Some (t_name new_table) fk) as [n ->]; [|simpl; eauto].
  by apply Hncols, Hadds.
- intros fk Hfk. unfold mysql_drop_foreign_key_sql.
  destruct (constraint_name_is_Some (t_name new_table) fk) as [n ->]; [|simpl; eauto].
  by apply Hocols, Hrems.
- unfold mysql_drop_foreign_key_sql.
  by rewrite (constraint_name_cons (t_name new_table) c cols old_fk Eold).
- exists add_sql, l1, l2, l3. split_and!; [done|done|].
  by rewrite mysql_alter_table_send_all.
Qed.

(** The example tables of the diff, for MySQL. *)
Definition mysql_diff_table (fks : list ForeignKey) : Table (D := Aquaformmy.dialect) :=
  @Build_Table Aquaformmy.dialect "items" mysql_conn diff_columns ["a"] (Some fks)
    "items_table".

Definition mysql_diff_old : Table (D := Aquaformmy.dialect) :=
  mysql_diff_table [diff_fk "c" "colours" "NO ACTION"; diff_fk "a" "users" "NO ACTION"].

Definition mysql_diff_new : Table (D := Aquaformmy.dialect) :=
  mysql_diff_table [diff_fk "a" "users" "CASCADE"; diff_fk "b" "boxes" "NO ACTION"].

Lemma mysql_changed_foreign_key_added_then_dropped_witness :
  (diff_fk "a" "users" "NO ACTION" ∈ default [] (t_foreign_keys mysql_diff_old) /\
   diff_fk "a" "users" "CASCADE" ∈ default [] (t_foreign_keys mysql_diff_new)) /\
  exists add_sql l1 l2 l3,
    constraint_name "items" (diff_fk "a" "users" "CASCADE") = Some "items_a_fkey" /\
    _generate_add_foreign_key_sql "`" "items" (diff_fk "a" "users" "CASCADE")
      = Some add_sql /\
    MySQLClient.alter_table accepts_all mysql_diff_new
      (_compare_tables mysql_diff_old mysql_diff_new) []
    = (true,
       l1 ++ add_sql
          :: l2 ++ "ALTER TABLE `items` DROP FOREIGN KEY `items_a_fkey`" :: l3).
Proof.
assert (diff_fk "a" "users" "NO ACTION" ∈ default [] (t_foreign_keys mysql_diff_old))
  as Hold.
{ simpl. right. left. }
assert (diff_fk "a" "users" "CASCADE" ∈ default [] (t_foreign_keys mysql_diff_new))
  as Hnew.
{ simpl. left. }
split; [by split|].
apply (mysql_changed_foreign_key_added_then_dropped mysql_diff_old mysql_diff_new
         (diff_fk "a" "users" "NO ACTION") (diff_fk "a" "users" "CASCADE") "a" []).
- simpl. decide_by_vm.
- simpl. decide_by_vm.
- intros fk. simpl. rewrite !elem_of_cons.
  intros [->|[->|H]]; [done|done|by apply elem_of_nil in H].
- intros fk. simpl. rewrite !elem_of_cons.
  intros [->|[->|H]]; [done|done|by apply elem_of_nil in H].
- exact Hold.
- exact Hnew.
- reflexivity.
- reflexivity.
- discriminate.
Defined.

(** The statements the example sends, in full. *)
Example supabase_alter_table_example :
  SupabaseClient.alter_table accepts_all diff_new (_compare_tables diff_old diff_new) []
  = (true,
     [ "ALTER TABLE " +:+ dq +:+ "items" +:+ dq +:+ " ADD CONSTRAINT " +:+ dq
       +:+ "items_b_fkey" +:+ dq +:+ " FOREIGN KEY (" +:+ dq +:+ "b" +:+ dq
       +:+ ") REFERENCES " +:+ dq +:+ "boxes" +:+ dq +:+ " (" +:+ dq +:+ "id" +:+ dq
       +:+ ")";
       "ALTER TABLE " +:+ dq +:+ "items" +:+ dq +:+ " ADD CONSTRAINT " +:+ dq
       +:+ "items_a_fkey" +:+ dq +:+ " FOREIGN KEY (" +:+ dq +:+ "a" +:+ dq
       +:+ ") REFERENCES " +:+ dq +:+ "users" +:+ dq +:+ " (" +:+ dq +:+ "id" +:+ dq
       +:+ ") ON DELETE CASCADE";
       "ALTER TABLE " +:+ dq +:+ "items" +:+ dq +:+ " DROP CONSTRAINT IF EXISTS " +:+ dq
       +:+ "items_a_fkey" +:+ dq;
       "ALTER TABLE " +:+ dq +:+ "items" +:+ dq +:+ " DROP CONSTRAINT IF EXISTS " +:+ dq
       +:+ "items_c_fkey" +:+ dq ]).
Proof. by vm_compute. Qed.

Example mysql_alter_table_example :
  MySQLClient.alter_table accepts_all mysql_diff_new
    (_compare_tables mysql_diff_old mysql_diff_new) []
  = (true,
     [ "ALTER TABLE `items` ADD CONSTRAINT `items_b_fkey` FOREIGN KEY (`b`) REFERENCES `boxes` (`id`)";
       "ALTER TABLE `items` ADD CONSTRAINT `items_a_fkey` FOREIGN KEY (`a`) REFERENCES `users` (`id`) ON DELETE CASCADE";
       "ALTER TABLE `items` DROP FOREIGN KEY `items_a_fkey`";
       "ALTER TABLE `items` DROP FOREIGN KEY `items_c_fkey`" ]).
Proof. by vm_compute. Qed.

Example mysql_create_table_example :
  MySQLClient.create_table accepts_all (blog_posts mysql_conn) []
  = (true,
     [ "CREATE TABLE IF NOT EXISTS `posts` (" +:+ nl
       +:+ "  `id` UUID NOT NULL," +:+ nl
       +:+ "  `user_id` UUID NOT NULL," +:+ nl
       +:+ "  PRIMARY KEY (`id`)," +:+ nl
       +:+ "  FOREIGN KEY (`user_id`) REFERENCES `users` (`id`) ON DELETE CASCADE ON UPDATE CASCADE" +:+ nl
       +:+ ")" ]).
Proof. by vm_compute. Qed.

Lemma send_all_None server (steps : list (option string)) (sent : list string) :
  None ∈ steps -> (send_all server steps sent).1 = false.
Proof.
revert sent. induction steps as [|[sql|] steps IH]; intros sent; simpl.
- by intros ?%elem_of_nil.
- intros [?|Hin]%elem_of_cons; [done|]. destruct (server sent sql); [by apply IH|done].
- done.
Qed.

(** Property X21.
    A foreign key with an empty column list has no first column to name
    its constraint after: building the statement that adds or drops it
    raises.  A delta that adds or removes such a key makes [alter_table]
    return [False] in both clients, whatever the database answers, while
    [CREATE TABLE] is built for any table. *)
Theorem alter_table_fails_on_empty_foreign_key_columns
    (server : list string -> string -> bool)
    (supabase_table : Table (D := Aquaform.dialect))
    (mysql_table : Table (D := Aquaformmy.dialect))
    (changes : Changes) (sent : list string) (fk : ForeignKey) (q name : string) :
  fk ∈ default [] (add_foreign_keys changes) ++ default [] (remove_foreign_keys changes) ->
  fk_columns fk = [] ->
  _generate_add_foreign_key_sql q name fk = None /\
  (SupabaseClient.alter_table server supabase_table changes sent).1 = false /\
  (MySQLClient.alter_table server mysql_table changes sent).1 = false /\
  (SupabaseClient.create_table server supabase_table sent).2
    = sent ++ [_generate_create_table_sql dq supabase_table].
Proof.
intros Hin Hcols.
assert (forall name, constraint_name name fk = None) as Hname.
{ intros ?. unfold constraint_name. by rewrite Hcols. }
split_and!.
- unfold _generate_add_foreign_key_sql. by rewrite Hname.
- rewrite supabase_alter_table_send_all. apply send_all_None.
  unfold supabase_alter_steps. cbv zeta. rewrite !elem_of_app.
  do 4 right. apply elem_of_app in Hin as [Hin|Hin]; [left|right].
  + apply list_elem_of_fmap. exists fk. split; [|done].
    unfold _generate_add_foreign_key_sql. by rewrite Hname.
  + apply list_elem_of_fmap. exists fk. split; [|done].
    unfold supabase_drop_constraint_sql. by rewrite Hname.
- rewrite mysql_alter_table_send_all. apply send_all_None.
  unfold mysql_alter_steps. cbv zeta. rewrite !elem_of_app.
  do 4 right. apply elem_of_app in Hin as [Hin|Hin]; [left|right].
  + apply list_elem_of_fmap. exists fk. split; [|done].
    unfold _generate_add_foreign_key_sql. by rewrite Hname.
  + apply list_elem_of_fmap. exists fk. split; [|done].
    unfold mysql_drop_foreign_key_sql. by rewrite Hname.
- done.
Qed.

Definition keyless_fk : ForeignKey :=
  {| fk_columns := []; fk_reference_table := "users"; fk_reference_columns := ["id"];
     fk_on_delete := "NO ACTION"; fk_on_update := "NO ACTION" |}.

Lemma alter_table_fails_on_empty_foreign_key_columns_witness :
  fk_columns keyless_fk = [] /\
  (SupabaseClient.alter_table accepts_all diff_new
     (set_add_foreign_keys [keyless_fk] no_changes) []).1 = false.
Proof.
split; [reflexivity|].
apply (alter_table_fails_on_empty_foreign_key_columns accepts_all diff_new
         mysql_diff_new (set_add_foreign_keys [keyless_fk] no_changes) [] keyless_fk
         dq "items").
- simpl. left.
- reflexivity.
Defined.

(** ** Reconciler: a resource id renamed *)

Section RenamedResource.
Context `{D : Dialect}.
Context (backend : list event -> conn -> op -> bool).
Context (environ : gmap string string).

(** The operation a job asks of its client. *)
Definition job_op (j : job) : op :=
  match j with
  | AlterJob _ table table_changes => AlterTable table table_changes
  | CreateJob _ table => CreateTable table
  | DropJob _ table_name => DropTable table_name
  end.

Lemma with_client_trace (rid : string) (c : conn) (o : op) (w : World) :
  exists evs,
    log (with_client backend rid c o w).2 = log w ++ evs /\
    (Forall succeeded evs -> Call rid c o true ∈ evs).
Proof.
unfold with_client, call. destruct connects.
- simpl. destruct (backend (log w) c Connect) eqn:B1; simpl.
  + eexists [_; _]. rewrite <- app_assoc. split; [done|].
    intros Hs. apply Forall_cons in Hs as [_ Hs]. apply Forall_cons in Hs as [Hs _].
    simpl in Hs. rewrite Hs. right. left.
  + eexists [_]. split; [done|]. by intros [? _]%Forall_cons.
- simpl. eexists [_]. split; [done|].
  intros [Hs _]%Forall_cons. simpl in Hs. rewrite Hs. left.
Qed.

Lemma run_job_trace (j : job) (w w' : World) :
  run_job backend environ j w = Some w' ->
  exists evs,
    log w' = log w ++ evs /\
    (Forall succeeded evs -> exists c, Call (job_rid j) c (job_op j) true ∈ evs).
Proof.
destruct j as [rid table ch|rid table|rid name]; simpl.
- destruct (with_client_trace rid (resolve_conn environ (t_conn table))
              (AlterTable table ch) w) as (evs & L & H).
  destruct (with_client _ _ _ _ w) as [ok w1]. intros [= <-].
  exists evs. split; [by destruct ok|]. eauto.
- destruct (with_client_trace rid (resolve_conn environ (t_conn table))
              (CreateTable table) w) as (evs & L & H).
  destruct (with_client _ _ _ _ w) as [ok w1]. intros [= <-].
  exists evs. split; [by destruct ok|]. eauto.
- destruct (get_resource rid w) as [d|]; [|done]. simpl.
  destruct (conn_from_dict (d_conn d)) as [c|]; [|done]. simpl.
  destruct (with_client_trace rid (resolve_conn environ c) (DropTable name) w)
    as (evs & L & H).
  destruct (with_client _ _ _ _ w) as [ok w1]. intros [= <-].
  exists evs. split; [by destruct ok|]. eauto.
Qed.

Lemma run_jobs_trace (jobs : list job) (w w' : World) :
  run_jobs backend environ jobs w = Some w' ->
  exists evs,
    log w' = log w ++ evs /\
    (Forall succeeded evs ->
     forall j, j ∈ jobs -> exists c, Call (job_rid j) c (job_op j) true ∈ evs).
Proof.
revert w. induction jobs as [|j jobs IH]; intros w; unfold run_jobs; simpl.
- intros [= <-]. exists []. rewrite app_nil_r. split; [done|].
  by intros _ j ?%elem_of_nil.
- destruct (run_job backend environ j w) as [w1|] eqn:E; simpl.
  + intros Hrun. destruct (run_job_trace j w w1 E) as (evs1 & L1 & H1).
    destruct (IH w1 Hrun) as (evs2 & L2 & H2).
    exists (evs1 ++ evs2). split; [by rewrite L2, L1, <- app_assoc|].
    intros [Hs1 Hs2]%Forall_app j' [->|Hj']%elem_of_cons.
    * destruct (H1 Hs1) as [c Hc]. exists c. apply elem_of_app. by left.
    * destruct (H2 Hs2 j' Hj') as [c Hc]. exists c. apply elem_of_app. by right.
  + by rewrite run_jobs_None.
Qed.

Lemma run_jobs_app (jobs1 jobs2 : list job) (w : World) :
  run_jobs backend environ (jobs1 ++ jobs2) w
  = run_jobs backend environ jobs1 w ≫= run_jobs backend environ jobs2.
Proof.
unfold run_jobs. rewrite foldl_app.
destruct (foldl _ (Some w) jobs1) as [w1|]; simpl; [done|apply run_jobs_None].
Qed.

(** Property X22.
    A resource id is renamed in the configuration while the table keeps
    its name: the new id is desired and not recorded, the old id is
    recorded under the same table name and no longer desired.  In a run of
    [apply] whose calls all succeed, the table is first created under the
    new id and then dropped under the old one, and the state that is
    written records the new resource although its table has just been
    dropped. *)
Theorem apply_renamed_resource_creates_then_drops (tables : list (string * Table))
    (w : World) (new_id old_id : string) (table : Table) (d : TableD) :
  NoDup (dict_keys tables) -> NoDup (table_names tables) -> state_ok w ->
  log w = [] ->
  dict_get new_id tables = Some table ->
  dict_get new_id (st_resources w) = None ->
  dict_get old_id tables = None ->
  dict_get old_id (st_resources w) = Some d ->
  d_name d = Some (t_name table) ->
  (forall rid d', dict_get rid tables = None ->
     dict_get rid (st_resources w) = Some d' ->
     default rid (d_name d') = t_name table -> rid = old_id) ->
  exists w',
    apply backend environ tables w = Some w' /\
    (Forall succeeded (log w') ->
     exists c c' l1 l2 l3,
       log w' = l1 ++ Call new_id c (CreateTable table) true
                   :: l2 ++ Call old_id c' (DropTable (t_name table)) true :: l3 /\
       dict_get new_id (st_resources w') = Some (Table_to_dict table) /\
       dict_get old_id (st_resources w') = None).
Proof.
intros Ht Hn Hok Hlog Hnew Hnew_state Hold Hold_state Hname Huniq.
destruct (apply_spec backend environ tables w Ht Hok)
  as (changes & order & Hplan & Hc & _ & _ & Horder & Hnil & Hcons).
pose proof Hok as [Hnd Hw].
destruct (plan_lookup tables w Ht Hw) as (changes0 & Hplan0 & _ & Hlookup).
assert (changes0 = changes) as -> by congruence.
assert (dict_get new_id changes = Some (Create table)) as Hcreate.
{ rewrite Hlookup, Hnew. unfold desired_change, get_resource. by rewrite Hnew_state. }
assert (dict_get old_id changes = Some (Delete (t_name table))) as Hdelete.
{ rewrite Hlookup, Hold. unfold get_resource. by rewrite Hold_state, Hname. }
destruct Hcons as (w1 & evs & Hrun & Happly & L & Hnd1 & _ & _ & _ & Hjobs).
{ intros ->. done. }
exists (save_state w1). split; [done|]. intros Hsucc.
assert (t_name table ∈ order) as Hord.
{ apply Horder. unfold table_names, dict_values. rewrite <- list_fmap_compose.
  apply (list_elem_of_fmap_2 (t_name ∘ snd) tables (new_id, table)).
  by apply dict_get_Some_elem. }
(* the slots of the table name in the create and delete dictionaries *)
assert (dict_get (t_name table) (actions_of CreatePhase (group changes))
        = Some (new_id, Create table)) as Hslot_create.
{ rewrite group_lookup. apply last_match_unique.
  - by apply dict_get_Some_elem.
  - unfold filed_under. simpl. by rewrite !bool_decide_eq_true_2.
  - intros [r c0] Hin Hp. unfold filed_under in Hp. simpl in Hp.
    apply andb_prop in Hp as [Hp1 Hp2]. apply bool_decide_eq_true in Hp1, Hp2.
    apply (elem_of_dict_get _ _ _ Hc) in Hin as Hr. rewrite Hlookup in Hr.
    destruct (dict_get r tables) as [t'|] eqn:Ht'.
    + apply desired_change_cases in Hr as (Hname' & _ & Hshape).
      apply dict_get_Some_elem in Ht'. apply dict_get_Some_elem in Hnew as Hnew'.
      destruct (table_of_name tables r new_id t' table Hn Ht' Hnew') as [-> ->];
        [congruence|].
      f_equal. apply (change_of_rid changes new_id); [done|done|].
      by apply dict_get_Some_elem.
    + destruct (get_resource r w); [|done]. injection Hr as <-. done. }
assert (dict_get (t_name table) (actions_of DeletePhase (group changes))
        = Some (old_id, Delete (t_name table))) as Hslot_delete.
{ rewrite group_lookup. apply last_match_unique.
  - by apply dict_get_Some_elem.
  - unfold filed_under. simpl. by rewrite !bool_decide_eq_true_2.
  - intros [r c0] Hin Hp. unfold filed_under in Hp. simpl in Hp.
    apply andb_prop in Hp as [Hp1 Hp2]. apply bool_decide_eq_true in Hp1, Hp2.
    apply (elem_of_dict_get _ _ _ Hc) in Hin as Hr. rewrite Hlookup in Hr.
    destruct (dict_get r tables) as [t'|] eqn:Ht'.
    + apply desired_change_cases in Hr as (_ & Hph & _). done.
    + unfold get_resource in Hr.
      destruct (dict_get r (st_resources w)) as [d'|] eqn:Hd'; [|done].
      injection Hr as <-. simpl in Hp2.
      rewrite Hp2. by rewrite (Huniq r d' Ht' Hd' Hp2). }
set (early := phase_jobs UpdatePhase (group changes) order
              ++ phase_jobs CreatePhase (group changes) order).
set (late := phase_jobs DeletePhase (group changes) (delete_order order)).
assert (CreateJob new_id table ∈ early) as Hjc.
{ apply elem_of_app. right. unfold phase_jobs. apply list_elem_of_omap.
  exists (t_name table). split; [done|]. by rewrite Hslot_create. }
assert (DropJob old_id (t_name table) ∈ late) as Hjd.
{ unfold late, phase_jobs. apply list_elem_of_omap.
  exists (t_name table). split; [by apply delete_order_elem|].
  by rewrite Hslot_delete. }
assert (apply_jobs changes order = early ++ late) as Hsplit.
{ unfold apply_jobs, early, late. by rewrite <- app_assoc. }
rewrite Hsplit, run_jobs_app in Hrun.
destruct (run_jobs backend environ early w) as [wm|] eqn:Eearly; [|done].
simpl in Hrun.
destruct (run_jobs_trace early w wm Eearly) as (evs1 & L1 & H1).
destruct (run_jobs_trace late wm w1 Hrun) as (evs2 & L2 & H2).
simpl in Hsucc. rewrite L2, L1, Hlog in Hsucc. simpl in Hsucc.
apply Forall_app in Hsucc as [Hsucc _].
apply Forall_app in Hsucc as [Hs1 Hs2].
destruct (H1 Hs1 _ Hjc) as [c Hcall1]. destruct (H2 Hs2 _ Hjd) as [c' Hcall2].
simpl in Hcall1, Hcall2.
apply list_elem_of_split in Hcall1 as (a1 & a2 & ->).
apply list_elem_of_split in Hcall2 as (b1 & b2 & ->).
exists c, c', a1, (a2 ++ b1), (b2 ++ [SaveState (st_resources w1)]).
split_and!.
- simpl. rewrite L2, L1, Hlog. simpl. by rewrite <- !app_assoc.
- simpl. destruct (Hjobs (CreateJob new_id table)) as [[Hex _]|[_ Hres]]; [| |done].
  + rewrite Hsplit. apply elem_of_app. by left.
  + exfalso. apply (not_failed_succeeded new_id evs); [|done].
    assert (evs = (a1 ++ Call new_id c (CreateTable table) true :: a2)
                  ++ b1 ++ Call old_id c' (DropTable (t_name table)) true :: b2)
      as ->; [|by apply Forall_app].
    apply (app_inv_head (log w)). by rewrite <- L, L2, L1, <- app_assoc.
- simpl. destruct (Hjobs (DropJob old_id (t_name table))) as [[Hex _]|[_ Hres]];
    [| |done].
  + rewrite Hsplit. apply elem_of_app. by right.
  + exfalso. apply (not_failed_succeeded old_id evs); [|done].
    assert (evs = (a1 ++ Call new_id c (CreateTable table) true :: a2)
                  ++ b1 ++ Call old_id c' (DropTable (t_name table)) true :: b2)
      as ->; [|by apply Forall_app].
    apply (app_inv_head (log w)). by rewrite <- L, L2, L1, <- app_assoc.
Qed.

End RenamedResource.

Lemma renamed_world_ok `{D : Dialect} (c : conn) : state_ok (renamed_world c).
Proof.
split.
- unfold renamed_world, dict_keys. simpl. decide_by_vm.
- intros rid d. unfold renamed_world. simpl.
  repeat case_decide; try done; intros [= <-]; rewrite Table_from_to_dict; eauto.
Qed.

Lemma apply_renamed_resource_creates_then_drops_witness :
  (NoDup (dict_keys (blog_tables diff_conn)) /\
   NoDup (table_names (blog_tables diff_conn)) /\
   state_ok (renamed_world diff_conn) /\
   dict_get "users_table" (blog_tables diff_conn) = Some (blog_users diff_conn) /\
   dict_get "old_users" (st_resources (renamed_world diff_conn))
     = Some (Table_to_dict (blog_users diff_conn))) /\
  exists w',
    apply always_ok ∅ (blog_tables diff_conn) (renamed_world diff_conn) = Some w' /\
    (Forall succeeded (log w') ->
     exists c c' l1 l2 l3,
       log w' = l1 ++ Call "users_table" c (CreateTable (blog_users diff_conn)) true
                   :: l2 ++ Call "old_users" c' (DropTable "users") true :: l3 /\
       dict_get "users_table" (st_resources w')
         = Some (Table_to_dict (blog_users diff_conn)) /\
       dict_get "old_users" (st_resources w') = None).
Proof.
split.
{ split_and!; [apply blog_tables_keys|apply blog_table_names|apply renamed_world_ok|
               reflexivity|reflexivity]. }
apply (apply_renamed_resource_creates_then_drops always_ok ∅ (blog_tables diff_conn)
         (renamed_world diff_conn) "users_table" "old_users" (blog_users diff_conn)
         (Table_to_dict (blog_users diff_conn))).
- apply blog_tables_keys.
- apply blog_table_names.
- apply renamed_world_ok.
- reflexivity.
- reflexivity.
- reflexivity.
- reflexivity.
- reflexivity.
- reflexivity.
- intros rid d' _. unfold renamed_world. simpl.
  repeat case_decide; try done; intros [= <-]; simpl; done.
Defined.

(** ** The model file *)

(** Property X23.
    The file [model] writes is one the loader accepts in full: its three
    descriptors become three tables, in the order written, that meet the
    invariants of the data model; their foreign keys form no cycle, so
    that the order of creation is [users], [posts], [comments]; and on an
    empty state the plan creates the three. *)
Theorem model_loads_in_full :
  let tables := _load_config (Some model) [] in
  dict_keys tables = ["users_table"; "posts_table"; "comments_table"] /\
  table_names tables = ["users"; "posts"; "comments"] /\
  Forall table_invariants (dict_values tables) /\
  _topological_sort (_build_dependency_graph tables)
    = Some ["users"; "posts"; "comments"] /\
  dict_keys <$> plan tables {| st_resources := []; log := [] |}
    = Some ["users_table"; "posts_table"; "comments_table"].
Proof.
cbv zeta.
assert (exists tables, _load_config (Some model) [] = tables /\
          dict_keys tables = ["users_table"; "posts_table"; "comments_table"] /\
          table_names tables = ["users"; "posts"; "comments"] /\
          forallb (fun t =>
                     bool_decide (NoDup (col_name <$> t_columns t))
                     && forallb (fun k => bool_decide (k ∈ col_name <$> t_columns t))
                          (t_primary_key t)
                     && forallb (fun fk =>
                                   forallb (fun k =>
                                              bool_decide (k ∈ col_name <$> t_columns t))
                                     (fk_columns fk)
                                   && bool_decide (length (fk_reference_columns fk)
                                                   = length (fk_columns fk)))
                          (default [] (t_foreign_keys t)))
            (dict_values tables) = true /\
          _topological_sort (_build_dependency_graph tables)
            = Some ["users"; "posts"; "comments"])
  as (tables & -> & Hkeys & Hnames & Hinv & Hsort).
{ eexists. split; [reflexivity|]. split_and!; vm_compute; reflexivity. }
split_and!; try done.
- apply Forall_forall. intros t Ht.
  rewrite forallb_forall in Hinv. specialize (Hinv t).
  rewrite <- list_elem_of_In in Hinv. specialize (Hinv Ht).
  apply andb_prop in Hinv as [Hinv Hfk]. apply andb_prop in Hinv as [Hnd Hpk].
  apply bool_decide_eq_true in Hnd. rewrite forallb_forall in Hpk, Hfk.
  split_and!; [done| |].
  + intros k Hk. apply list_elem_of_In, Hpk in Hk. by apply bool_decide_eq_true in Hk.
  + intros fk Hin. apply list_elem_of_In, Hfk in Hin.
    apply andb_prop in Hin as [Hcols Hlen]. apply bool_decide_eq_true in Hlen.
    split; [|done]. rewrite forallb_forall in Hcols.
    intros k Hk. apply list_elem_of_In, Hcols in Hk. by apply bool_decide_eq_true in Hk.
- unfold plan. rewrite plan_desired_fresh; [|done|].
  + simpl. f_equal. rewrite <- Hkeys. unfold dict_keys.
    rewrite <- list_fmap_compose. apply list_fmap_ext. by intros ? [? ?] ?.
  + simpl. rewrite Hkeys. decide_by_vm.
Qed.
